(** * Marlin contracts: a shallow embedding of the ledger-resident core

    The contracts under [smart_contracts/] are Algorand Python (algopy)
    programs.  Each public method runs to completion against the committed
    state or aborts, and an abort discards every pending write.  A method is
    therefore embedded as a function from the call context, its arguments and
    the state before to a [result]: either the state after or the message of
    the assertion that stopped it.

    - [UInt64] is [N] together with the AVM's checked arithmetic: [+] and
      [*] abort above [2^64 - 1], [-] aborts below zero, [//] aborts on a
      zero divisor.
    - [GlobalState] fields are record fields.  A [state] is an application
      from its first [initialize] on: [initialize] reads no global and
      writes every global a method reads, and nothing deletes one.  Before
      it, every method that reads a global aborts, and those runs are not
      part of the model.
    - [LocalState] fields are finite maps from account to value.  Reading
      [self.field[account]] aborts when the account holds no value under
      the field; an assignment creates the value or overwrites it.  No
      contract has an opt-in method, and every method that credits an
      account reads one of the account's entries in the same call, so the
      states in which those calls succeed are the ones in which the
      accounts already hold their entries.
    - [Txn.sender], [Global.latest_timestamp] and [Global.creator_address]
      are the fields of the call context [env]. *)

From stdpp Require Import gmap strings.

Local Open Scope string_scope.
Local Open Scope N_scope.

(** ** The execution host *)

Module AVM.

Definition uint64_max : N := 18446744073709551615.

Definition address := N.

Record env := Env {
  sender : address;
  latest_timestamp : N;
  creator_address : address
}.

Inductive result (A : Type) : Type :=
| Ok (a : A)
| Err (msg : string).
Arguments Ok {A} a.
Arguments Err {A} msg.

#[global] Instance result_ret : MRet result := fun A a => Ok a.
#[global] Instance result_bind : MBind result := fun A B f r =>
  match r with
  | Ok a => f a
  | Err msg => Err msg
  end.

(** [assert cond, msg] *)
Definition assert (cond : bool) (msg : string) : result unit :=
  if cond then Ok tt else Err msg.

(** Checked [UInt64] arithmetic. *)
Definition add64 (a b : N) : result N :=
  if a + b <=? uint64_max then Ok (a + b) else Err "+ overflowed".

Definition sub64 (a b : N) : result N :=
  if b <=? a then Ok (a - b) else Err "- would result negative".

Definition mul64 (a b : N) : result N :=
  if a * b <=? uint64_max then Ok (a * b) else Err "* overflowed".

Definition div64 (a b : N) : result N :=
  if b =? 0 then Err "/ 0" else Ok (a / b).

(** [LocalState] access.  Reading [self.field[account]] aborts when the
    account holds no value under the field. *)
Definition local_get (m : gmap address N) (a : address) : result N :=
  match m !! a with
  | Some v => Ok v
  | None => Err "LocalState value is not set"
  end.

(** What an account holds under a field, counted as 0 when it holds no
    value.  Properties are stated with it; no method reads through it. *)
Definition held (m : gmap address N) (a : address) : N :=
  default 0 (m !! a).

Definition local_set (m : gmap address N) (a : address) (v : N)
  : gmap address N := <[a := v]> m.

(** The sum of a per-account field over all accounts. *)
Definition local_total (m : gmap address N) : N :=
  map_fold (fun _ v acc => v + acc) 0 m.

(** An aborted call leaves the committed state as it was. *)
Definition commit {S : Type} (r : result S) (s : S) : S :=
  match r with
  | Ok s' => s'
  | Err _ => s
  end.

End AVM.

Import AVM.

(** ** simple_amm/contract.py *)

Module SimpleAMM.

Record state := State {
  admin : address;
  reserve_a : N;
  reserve_b : N;
  fee_rate : N;
  is_paused : N;
  total_liquidity : N;
  liquidity_balance : gmap address N;
  token_a_deposited : gmap address N;
  token_b_deposited : gmap address N
}.

(** [self.fee_denominator = UInt64(1000)], never reassigned. *)
Definition fee_denominator : N := 1000.

Definition set_reserves (ra rb : N) (s : state) : state :=
  State (admin s) ra rb (fee_rate s) (is_paused s) (total_liquidity s)
        (liquidity_balance s) (token_a_deposited s) (token_b_deposited s).

Definition set_fee (f : N) (s : state) : state :=
  State (admin s) (reserve_a s) (reserve_b s) f (is_paused s)
        (total_liquidity s) (liquidity_balance s) (token_a_deposited s)
        (token_b_deposited s).

Definition set_paused (p : N) (s : state) : state :=
  State (admin s) (reserve_a s) (reserve_b s) (fee_rate s) p
        (total_liquidity s) (liquidity_balance s) (token_a_deposited s)
        (token_b_deposited s).

Definition set_liquidity (total : N) (who : address) (bal : N) (s : state)
  : state :=
  State (admin s) (reserve_a s) (reserve_b s) (fee_rate s) (is_paused s)
        total (local_set (liquidity_balance s) who bal)
        (token_a_deposited s) (token_b_deposited s).

Definition set_token_a_deposited (who : address) (v : N) (s : state) : state :=
  State (admin s) (reserve_a s) (reserve_b s) (fee_rate s) (is_paused s)
        (total_liquidity s) (liquidity_balance s)
        (local_set (token_a_deposited s) who v) (token_b_deposited s).

Definition set_token_b_deposited (who : address) (v : N) (s : state) : state :=
  State (admin s) (reserve_a s) (reserve_b s) (fee_rate s) (is_paused s)
        (total_liquidity s) (liquidity_balance s) (token_a_deposited s)
        (local_set (token_b_deposited s) who v).

(** [initialize] writes the global fields and leaves the per-account ones. *)
Definition initialize (e : env) (s : state) : result state :=
  assert (sender e =? creator_address e) "Only creator can initialize";;
  mret (State (sender e) 0 0 3 0 0 (liquidity_balance s)
              (token_a_deposited s) (token_b_deposited s)).

(** [_get_amount_out] *)
Definition _get_amount_out (s : state) (amount_in reserve_in reserve_out : N)
  : result N :=
  assert (0 <? amount_in) "Amount must be positive";;
  assert ((0 <? reserve_in) && (0 <? reserve_out)) "Insufficient liquidity";;
  net ← sub64 fee_denominator (fee_rate s);
  amount_in_with_fee ← mul64 amount_in net;
  numerator ← mul64 amount_in_with_fee reserve_out;
  scaled_in ← mul64 reserve_in fee_denominator;
  denominator ← add64 scaled_in amount_in_with_fee;
  div64 numerator denominator.

(** [get_amount_out], the read-only quote. *)
Definition get_amount_out (s : state) (amount_in reserve_in reserve_out : N)
  : result N :=
  _get_amount_out s amount_in reserve_in reserve_out.

(** The [while y < z and counter < 10] loop of [_sqrt]; [fuel] is what is
    left of the ten iterations. *)
Fixpoint sqrt_loop (fuel : nat) (x z y : N) : result N :=
  match fuel with
  | O => Ok z
  | S fuel' =>
      if y <? z then
        q ← div64 x y;
        t ← add64 q y;
        y' ← div64 t 2;
        sqrt_loop fuel' x y y'
      else Ok z
  end.

(** [_sqrt] *)
Definition _sqrt (x : N) : result N :=
  if x =? 0 then Ok 0
  else
    x1 ← add64 x 1;
    y ← div64 x1 2;
    sqrt_loop 10 x x y.

(** [add_liquidity].  Besides the state after, the result carries the local
    [liquidity_tokens]: the shares this deposit minted. *)
Definition add_liquidity (e : env) (amount_a amount_b : N) (s : state)
  : result (state * N) :=
  assert (is_paused s =? 0) "AMM is paused";;
  assert ((0 <? amount_a) && (0 <? amount_b)) "Amounts must be positive";;
  let current_reserve_a := reserve_a s in
  let current_reserve_b := reserve_b s in
  '(s1, liquidity_tokens) ←
    (if (current_reserve_a =? 0) && (current_reserve_b =? 0) then
       product ← mul64 amount_a amount_b;
       liquidity_tokens ← _sqrt product;
       mret (set_liquidity liquidity_tokens (sender e) liquidity_tokens
               (set_reserves amount_a amount_b s),
             liquidity_tokens)
     else
       ab ← mul64 amount_a current_reserve_b;
       required_b ← div64 ab current_reserve_a;
       ba ← mul64 amount_b current_reserve_a;
       required_a ← div64 ba current_reserve_b;
       '(s0, liquidity_tokens) ←
         (if required_b <=? amount_b then
            new_a ← add64 current_reserve_a amount_a;
            new_b ← add64 current_reserve_b required_b;
            scaled ← mul64 amount_a (total_liquidity s);
            liquidity_tokens ← div64 scaled current_reserve_a;
            mret (set_reserves new_a new_b s, liquidity_tokens)
          else
            new_a ← add64 current_reserve_a required_a;
            new_b ← add64 current_reserve_b amount_b;
            scaled ← mul64 amount_b (total_liquidity s);
            liquidity_tokens ← div64 scaled current_reserve_b;
            mret (set_reserves new_a new_b s, liquidity_tokens));
       current ← local_get (liquidity_balance s0) (sender e);
       balance ← add64 current liquidity_tokens;
       total ← add64 (total_liquidity s0) liquidity_tokens;
       mret (set_liquidity total (sender e) balance s0, liquidity_tokens));
  current_a ← local_get (token_a_deposited s1) (sender e);
  dep_a ← add64 current_a amount_a;
  let s2 := set_token_a_deposited (sender e) dep_a s1 in
  current_b ← local_get (token_b_deposited s2) (sender e);
  dep_b ← add64 current_b amount_b;
  mret (set_token_b_deposited (sender e) dep_b s2, liquidity_tokens).

(** [swap_a_for_b].  The result carries the state after and the logged
    [amount_out]. *)
Definition swap_a_for_b (e : env) (amount_in : N) (s : state)
  : result (state * N) :=
  assert (is_paused s =? 0) "AMM is paused";;
  assert (0 <? amount_in) "Amount must be positive";;
  let current_reserve_a := reserve_a s in
  let current_reserve_b := reserve_b s in
  assert ((0 <? current_reserve_a) && (0 <? current_reserve_b))
         "Insufficient liquidity";;
  amount_out ←
    _get_amount_out s amount_in current_reserve_a current_reserve_b;
  assert (0 <? amount_out) "Insufficient output amount";;
  assert (amount_out <=? current_reserve_b) "Insufficient liquidity";;
  new_a ← add64 current_reserve_a amount_in;
  new_b ← sub64 current_reserve_b amount_out;
  mret (set_reserves new_a new_b s, amount_out).

(** [swap_b_for_a] *)
Definition swap_b_for_a (e : env) (amount_in : N) (s : state)
  : result (state * N) :=
  assert (is_paused s =? 0) "AMM is paused";;
  assert (0 <? amount_in) "Amount must be positive";;
  let current_reserve_a := reserve_a s in
  let current_reserve_b := reserve_b s in
  assert ((0 <? current_reserve_a) && (0 <? current_reserve_b))
         "Insufficient liquidity";;
  amount_out ←
    _get_amount_out s amount_in current_reserve_b current_reserve_a;
  assert (0 <? amount_out) "Insufficient output amount";;
  assert (amount_out <=? current_reserve_a) "Insufficient liquidity";;
  new_b ← add64 current_reserve_b amount_in;
  new_a ← sub64 current_reserve_a amount_out;
  mret (set_reserves new_a new_b s, amount_out).

(** [remove_liquidity].  The result carries the state after and the logged
    pair [(amount_a, amount_b)] paid out. *)
Definition remove_liquidity (e : env) (liquidity_amount : N) (s : state)
  : result (state * (N * N)) :=
  assert (is_paused s =? 0) "AMM is paused";;
  assert (0 <? liquidity_amount) "Amount must be positive";;
  user_liquidity ← local_get (liquidity_balance s) (sender e);
  assert (liquidity_amount <=? user_liquidity)
         "Insufficient liquidity balance";;
  let current_reserve_a := reserve_a s in
  let current_reserve_b := reserve_b s in
  let total := total_liquidity s in
  la ← mul64 liquidity_amount current_reserve_a;
  amount_a ← div64 la total;
  lb ← mul64 liquidity_amount current_reserve_b;
  amount_b ← div64 lb total;
  new_a ← sub64 current_reserve_a amount_a;
  new_b ← sub64 current_reserve_b amount_b;
  balance ← sub64 user_liquidity liquidity_amount;
  new_total ← sub64 total liquidity_amount;
  let s1 := set_liquidity new_total (sender e) balance
              (set_reserves new_a new_b s) in
  s2 ← (deposited_a ← local_get (token_a_deposited s1) (sender e);
        if amount_a <=? deposited_a then
          current ← local_get (token_a_deposited s1) (sender e);
          d ← sub64 current amount_a;
          mret (set_token_a_deposited (sender e) d s1)
        else mret s1);
  s3 ← (deposited_b ← local_get (token_b_deposited s2) (sender e);
        if amount_b <=? deposited_b then
          current ← local_get (token_b_deposited s2) (sender e);
          d ← sub64 current amount_b;
          mret (set_token_b_deposited (sender e) d s2)
        else mret s2);
  mret (s3, (amount_a, amount_b)).

(** [set_fee_rate] *)
Definition set_fee_rate (e : env) (new_fee : N) (s : state) : result state :=
  assert (sender e =? admin s) "Only admin can set fee";;
  assert (new_fee <? fee_denominator) "Fee too high";;
  mret (set_fee new_fee s).

(** [pause_amm] and [unpause_amm] *)
Definition pause_amm (e : env) (s : state) : result state :=
  assert (sender e =? admin s) "Only admin can pause";;
  mret (set_paused 1 s).

Definition unpause_amm (e : env) (s : state) : result state :=
  assert (sender e =? admin s) "Only admin can unpause";;
  mret (set_paused 0 s).

(** Pools used as running examples.  [opened_pool] is a pool right after
    [initialize] by account 7 in which accounts 7 and 8 hold their entries
    at 0.  The other three are what a first deposit of account 7 makes of
    it: [(10000, 1)], for which [_sqrt 10000 = 100] shares are minted; a
    million units a side, for which the ten iterations of [_sqrt] stop at
    976562840; and four billion units a side. *)
Definition opened_pool : state :=
  State 7 0 0 3 0 0 {[7 := 0; 8 := 0]} {[7 := 0; 8 := 0]}
        {[7 := 0; 8 := 0]}.

Definition lopsided_pool : state :=
  State 7 10000 1 3 0 100 {[7 := 100; 8 := 0]} {[7 := 10000; 8 := 0]}
        {[7 := 1; 8 := 0]}.

Definition even_pool : state :=
  State 7 1000000 1000000 3 0 976562840
        {[7 := 976562840; 8 := 0]} {[7 := 1000000; 8 := 0]}
        {[7 := 1000000; 8 := 0]}.

Definition deep_pool : state :=
  State 7 4000000000 4000000000 3 0 15625000000000340
        {[7 := 15625000000000340; 8 := 0]} {[7 := 4000000000; 8 := 0]}
        {[7 := 4000000000; 8 := 0]}.

(** The read-only getters. *)
Definition get_reserves (s : state) : N * N := (reserve_a s, reserve_b s).

Definition get_user_liquidity (e : env) (s : state) : result (N * N * N) :=
  liquidity ← local_get (liquidity_balance s) (sender e);
  deposited_a ← local_get (token_a_deposited s) (sender e);
  deposited_b ← local_get (token_b_deposited s) (sender e);
  mret (liquidity, deposited_a, deposited_b).

Definition get_pool_info (s : state) : N * N * N * N :=
  (reserve_a s, reserve_b s, total_liquidity s, fee_rate s).

(** Every state-changing method, as a call. *)
Inductive call :=
| Initialize
| AddLiquidity (amount_a amount_b : N)
| SwapAForB (amount_in : N)
| SwapBForA (amount_in : N)
| RemoveLiquidity (liquidity_amount : N)
| SetFeeRate (new_fee : N)
| PauseAmm
| UnpauseAmm.

Definition step (e : env) (c : call) (s : state) : result state :=
  match c with
  | Initialize => initialize e s
  | AddLiquidity a b => '(s', _) ← add_liquidity e a b s; mret s'
  | SwapAForB a => '(s', _) ← swap_a_for_b e a s; mret s'
  | SwapBForA a => '(s', _) ← swap_b_for_a e a s; mret s'
  | RemoveLiquidity l => '(s', _) ← remove_liquidity e l s; mret s'
  | SetFeeRate f => set_fee_rate e f s
  | PauseAmm => pause_amm e s
  | UnpauseAmm => unpause_amm e s
  end.

(** A history of calls; the ones that abort leave no trace. *)
Definition play (calls : list (env * call)) (s : state) : state :=
  fold_left (fun st '(e, c) => commit (step e c st) st) calls s.

(** The shares in issue are the shares held, the fee rate is below the
    denominator, and the pool is either empty on both sides with no share in
    issue or funded on both sides with shares in issue. *)
Definition pool_accounted (s : state) : Prop :=
  total_liquidity s = local_total (liquidity_balance s) /\
  fee_rate s < fee_denominator /\
  ((reserve_a s = 0 /\ reserve_b s = 0 /\ total_liquidity s = 0) \/
   (0 < reserve_a s /\ 0 < reserve_b s /\ 0 < total_liquidity s)).

End SimpleAMM.

(** ** yield_tokenization/contract.py *)

Module YieldTokenization.

Record state := State {
  admin : address;
  base_name : string;
  base_symbol : string;
  is_paused : N;
  maturity_count : N;
  maturities : string;
  user_sy_balance : gmap address N;
  user_pt_balance : gmap address N;
  user_yt_balance : gmap address N
}.

Definition set_maturity_count (n : N) (s : state) : state :=
  State (admin s) (base_name s) (base_symbol s) (is_paused s) n
        (maturities s) (user_sy_balance s) (user_pt_balance s)
        (user_yt_balance s).

Definition set_paused (p : N) (s : state) : state :=
  State (admin s) (base_name s) (base_symbol s) p (maturity_count s)
        (maturities s) (user_sy_balance s) (user_pt_balance s)
        (user_yt_balance s).

Definition set_sy (who : address) (v : N) (s : state) : state :=
  State (admin s) (base_name s) (base_symbol s) (is_paused s)
        (maturity_count s) (maturities s)
        (local_set (user_sy_balance s) who v) (user_pt_balance s)
        (user_yt_balance s).

Definition set_pt (who : address) (v : N) (s : state) : state :=
  State (admin s) (base_name s) (base_symbol s) (is_paused s)
        (maturity_count s) (maturities s) (user_sy_balance s)
        (local_set (user_pt_balance s) who v) (user_yt_balance s).

Definition set_yt (who : address) (v : N) (s : state) : state :=
  State (admin s) (base_name s) (base_symbol s) (is_paused s)
        (maturity_count s) (maturities s) (user_sy_balance s)
        (user_pt_balance s) (local_set (user_yt_balance s) who v).

(** [_create_maturity_internal] only counts. *)
Definition _create_maturity_internal (maturity_timestamp : N) (s : state)
  : result state :=
  n ← add64 (maturity_count s) 1;
  mret (set_maturity_count n s).

(** [_maturity_exists]: within one year ahead of now.  [and] does not
    evaluate its right operand when the left one is false. *)
Definition one_year : N := 365 * 24 * 60 * 60.

Definition _maturity_exists (e : env) (maturity_timestamp : N) : result bool :=
  if latest_timestamp e <? maturity_timestamp then
    horizon ← add64 (latest_timestamp e) one_year;
    mret (maturity_timestamp <=? horizon)
  else mret false.

Definition initialize (e : env) (name symbol : string) (s : state)
  : result state :=
  assert (sender e =? creator_address e) "Only creator can initialize";;
  let s1 := State (sender e) name symbol 0 0 "" (user_sy_balance s)
                  (user_pt_balance s) (user_yt_balance s) in
  initial_maturity ← add64 (latest_timestamp e) 2592000;
  _create_maturity_internal initial_maturity s1.

Definition create_maturity (e : env) (maturity_timestamp : N) (s : state)
  : result state :=
  assert (sender e =? admin s) "Only admin can create maturity";;
  assert (latest_timestamp e <? maturity_timestamp)
         "Maturity must be in future";;
  assert (is_paused s =? 0) "Protocol is paused";;
  known ← _maturity_exists e maturity_timestamp;
  assert (negb known) "Maturity already exists";;
  _create_maturity_internal maturity_timestamp s.

Definition split_tokens (e : env) (amount maturity : N) (s : state)
  : result state :=
  assert (is_paused s =? 0) "Protocol is paused";;
  assert (0 <? amount) "Amount must be positive";;
  known ← _maturity_exists e maturity;
  assert known "Maturity not found";;
  current_sy_balance ← local_get (user_sy_balance s) (sender e);
  assert (amount <=? current_sy_balance) "Insufficient SY balance";;
  sy ← sub64 current_sy_balance amount;
  let s1 := set_sy (sender e) sy s in
  current_pt_balance ← local_get (user_pt_balance s1) (sender e);
  pt ← add64 current_pt_balance amount;
  let s2 := set_pt (sender e) pt s1 in
  current_yt_balance ← local_get (user_yt_balance s2) (sender e);
  yt ← add64 current_yt_balance amount;
  mret (set_yt (sender e) yt s2).

Definition redeem_tokens (e : env) (amount maturity : N) (s : state)
  : result state :=
  assert (is_paused s =? 0) "Protocol is paused";;
  assert (0 <? amount) "Amount must be positive";;
  assert (maturity <=? latest_timestamp e) "Maturity not reached";;
  current_pt_balance ← local_get (user_pt_balance s) (sender e);
  assert (amount <=? current_pt_balance) "Insufficient PT balance";;
  pt ← sub64 current_pt_balance amount;
  let s1 := set_pt (sender e) pt s in
  current_sy_balance ← local_get (user_sy_balance s1) (sender e);
  sy ← add64 current_sy_balance amount;
  mret (set_sy (sender e) sy s1).

Definition deposit_sy_tokens (e : env) (amount : N) (s : state)
  : result state :=
  assert (0 <? amount) "Amount must be positive";;
  current_sy_balance ← local_get (user_sy_balance s) (sender e);
  sy ← add64 current_sy_balance amount;
  mret (set_sy (sender e) sy s).

Definition pause_protocol (e : env) (s : state) : result state :=
  assert (sender e =? admin s) "Only admin can pause";;
  mret (set_paused 1 s).

Definition unpause_protocol (e : env) (s : state) : result state :=
  assert (sender e =? admin s) "Only admin can unpause";;
  mret (set_paused 0 s).

(** Sequences of [split_tokens] and [redeem_tokens] calls, each with the
    context it is made in. *)
Inductive call :=
| SplitTokens (amount maturity : N)
| RedeemTokens (amount maturity : N).

Definition step (e : env) (c : call) (s : state) : result state :=
  match c with
  | SplitTokens amount maturity => split_tokens e amount maturity s
  | RedeemTokens amount maturity => redeem_tokens e amount maturity s
  end.

Definition total_sy (s : state) : N := local_total (user_sy_balance s).
Definition total_pt (s : state) : N := local_total (user_pt_balance s).
Definition total_yt (s : state) : N := local_total (user_yt_balance s).

(** The running tally of what the splits of a sequence minted: the growth
    of all PT balances and of all YT balances across each split. *)
Record minted := Minted { pt_minted : N; yt_minted : N }.

Definition tally (c : call) (s s' : state) (m : minted) : minted :=
  match c with
  | SplitTokens _ _ =>
      Minted (pt_minted m + (total_pt s' - total_pt s))
             (yt_minted m + (total_yt s' - total_yt s))
  | RedeemTokens _ _ => m
  end.

(** Runs a sequence in which every call succeeds. *)
Fixpoint run (calls : list (env * call)) (s : state) (m : minted)
  : result (state * minted) :=
  match calls with
  | [] => mret (s, m)
  | (e, c) :: rest =>
      s' ← step e c s;
      run rest s' (tally c s s' m)
  end.

(** The read-only getters.  [get_user_balances] ignores its argument. *)
Definition get_user_balances (e : env) (user : address) (s : state)
  : result (N * N * N) :=
  sy ← local_get (user_sy_balance s) (sender e);
  pt ← local_get (user_pt_balance s) (sender e);
  yt ← local_get (user_yt_balance s) (sender e);
  mret (sy, pt, yt).

Definition get_maturity_count (s : state) : N := maturity_count s.

Definition is_protocol_paused (s : state) : N := is_paused s.

End YieldTokenization.

(** ** pt_token/contract.py and yt_token/contract.py

    The YT claim has the same fields and, up to the text it logs, the same
    [initialize], [mint], [burn], [transfer], [approve], [transfer_from] and
    [update_owner] as the PT claim. *)

Module PTToken.

Record state := State {
  owner : address;
  name : string;
  symbol : string;
  maturity : N;
  total_supply : N;
  decimals : N;
  balance : gmap address N;
  allowance : gmap address N
}.

Definition set_owner (o : address) (s : state) : state :=
  State o (name s) (symbol s) (maturity s) (total_supply s) (decimals s)
        (balance s) (allowance s).

Definition set_total_supply (t : N) (s : state) : state :=
  State (owner s) (name s) (symbol s) (maturity s) t (decimals s)
        (balance s) (allowance s).

Definition set_balance (who : address) (v : N) (s : state) : state :=
  State (owner s) (name s) (symbol s) (maturity s) (total_supply s)
        (decimals s) (local_set (balance s) who v) (allowance s).

Definition set_allowance (who : address) (v : N) (s : state) : state :=
  State (owner s) (name s) (symbol s) (maturity s) (total_supply s)
        (decimals s) (balance s) (local_set (allowance s) who v).

Definition initialize (e : env) (nm sym : string) (maturity_timestamp : N)
    (s : state) : result state :=
  assert (sender e =? creator_address e) "Only creator can initialize";;
  assert (latest_timestamp e <? maturity_timestamp)
         "Maturity must be in future";;
  mret (State (sender e) nm sym maturity_timestamp 0 8
              (balance s) (allowance s)).

(** [mint]: the recipient [to] is not used; the sender is credited. *)
Definition mint (e : env) (to : address) (amount : N) (s : state)
  : result state :=
  assert (sender e =? owner s) "Only owner can mint";;
  assert (0 <? amount) "Amount must be positive";;
  supply ← add64 (total_supply s) amount;
  let s1 := set_total_supply supply s in
  current_balance ← local_get (balance s1) (sender e);
  bal ← add64 current_balance amount;
  mret (set_balance (sender e) bal s1).

Definition burn (e : env) (amount : N) (s : state) : result state :=
  assert (0 <? amount) "Amount must be positive";;
  current_balance ← local_get (balance s) (sender e);
  assert (amount <=? current_balance) "Insufficient balance";;
  bal ← sub64 current_balance amount;
  let s1 := set_balance (sender e) bal s in
  supply ← sub64 (total_supply s1) amount;
  mret (set_total_supply supply s1).

(** [transfer]: the sender is debited and nobody is credited. *)
Definition transfer (e : env) (to : address) (amount : N) (s : state)
  : result state :=
  assert (0 <? amount) "Amount must be positive";;
  sender_balance ← local_get (balance s) (sender e);
  assert (amount <=? sender_balance) "Insufficient balance";;
  bal ← sub64 sender_balance amount;
  mret (set_balance (sender e) bal s).

Definition approve (e : env) (spender : address) (amount : N) (s : state)
  : result state :=
  mret (set_allowance (sender e) amount s).

Definition transfer_from (e : env) (from_addr to : address) (amount : N)
    (s : state) : result state :=
  assert (0 <? amount) "Amount must be positive";;
  current_allowance ← local_get (allowance s) (sender e);
  assert (amount <=? current_allowance) "Insufficient allowance";;
  sender_balance ← local_get (balance s) (sender e);
  assert (amount <=? sender_balance) "Insufficient balance";;
  bal ← sub64 sender_balance amount;
  let s1 := set_balance (sender e) bal s in
  allow ← sub64 current_allowance amount;
  mret (set_allowance (sender e) allow s1).

Definition update_owner (e : env) (new_owner : address) (s : state)
  : result state :=
  assert (sender e =? owner s) "Only owner can update";;
  mret (set_owner new_owner s).

Definition balance_of (e : env) (account : address) (s : state)
  : result N :=
  local_get (balance s) (sender e).

Definition get_total_supply (s : state) : N := total_supply s.

(** The ledger's operations as calls. *)
Inductive call :=
| Mint (to : address) (amount : N)
| Burn (amount : N)
| Transfer (to : address) (amount : N)
| TransferFrom (from_addr to : address) (amount : N).

Definition step (e : env) (c : call) (s : state) : result state :=
  match c with
  | Mint to amount => mint e to amount s
  | Burn amount => burn e amount s
  | Transfer to amount => transfer e to amount s
  | TransferFrom from_addr to amount => transfer_from e from_addr to amount s
  end.

Fixpoint run (calls : list (env * call)) (s : state) : result state :=
  match calls with
  | [] => mret s
  | (e, c) :: rest => s' ← step e c s; run rest s'
  end.

Definition total_balance (s : state) : N := local_total (balance s).

(** The remaining read-only methods. *)
Definition get_maturity (s : state) : N := maturity s.

Definition is_mature (e : env) (s : state) : N :=
  if maturity s <=? latest_timestamp e then 1 else 0.

Definition get_allowance (e : env) (owner_addr spender : address) (s : state)
  : result N :=
  local_get (allowance s) (sender e).

Definition get_token_info (s : state) : string * string * N * N :=
  (name s, symbol s, decimals s, total_supply s).

(** Every state-changing method but [initialize], as a call. *)
Inductive method :=
| CallMint (to : address) (amount : N)
| CallBurn (amount : N)
| CallTransfer (to : address) (amount : N)
| CallApprove (spender : address) (amount : N)
| CallTransferFrom (from_addr to : address) (amount : N)
| CallUpdateOwner (new_owner : address).

Definition invoke (e : env) (m : method) (s : state) : result state :=
  match m with
  | CallMint to amount => mint e to amount s
  | CallBurn amount => burn e amount s
  | CallTransfer to amount => transfer e to amount s
  | CallApprove spender amount => approve e spender amount s
  | CallTransferFrom from_addr to amount =>
      transfer_from e from_addr to amount s
  | CallUpdateOwner new_owner => update_owner e new_owner s
  end.

(** A history of calls; the ones that abort leave no trace. *)
Definition play (calls : list (env * method)) (s : state) : state :=
  fold_left (fun st '(e, m) => commit (invoke e m st) st) calls s.

End PTToken.

Module YTToken := PTToken.

(** The read-only methods yt_token/contract.py has on top of the shared
    ledger. *)

Module YTYield.

Definition is_accruing_yield (e : env) (s : YTToken.state) : N :=
  if latest_timestamp e <? YTToken.maturity s then 1 else 0.

(** [get_yield_status]: [(is_accruing, time_to_maturity, maturity_time)]. *)
Definition get_yield_status (e : env) (s : YTToken.state)
  : result (N * N * N) :=
  let current_time := latest_timestamp e in
  let maturity_time := YTToken.maturity s in
  let is_accruing := if current_time <? maturity_time then 1 else 0 in
  time_to_maturity ←
    (if current_time <? maturity_time
     then sub64 maturity_time current_time
     else mret 0);
  mret (is_accruing, time_to_maturity, maturity_time).

Definition seconds_per_year : N := 365 * 24 * 60 * 60.

Definition calculate_yield_value
    (e : env) (base_amount yield_rate : N) (s : YTToken.state) : result N :=
  let current_time := latest_timestamp e in
  let maturity_time := YTToken.maturity s in
  if maturity_time <=? current_time then mret 0
  else
    time_remaining ← sub64 maturity_time current_time;
    weighted ← mul64 base_amount yield_rate;
    numerator ← mul64 weighted time_remaining;
    denominator ← mul64 seconds_per_year 10000;
    div64 numerator denominator.

End YTYield.

(** ** standardized_wrapper/contract.py *)

Module StandardizedWrapper.

Record state := State {
  admin : address;
  name : string;
  symbol : string;
  yield_rate_bps : N;
  is_paused : N;
  total_supply : N;
  token0_ratio : N;
  token1_ratio : N;
  token0_enabled : N;
  token1_enabled : N;
  sy_balance : gmap address N;
  token0_deposited : gmap address N;
  token1_deposited : gmap address N
}.

Definition set_sy (who : address) (v supply : N) (s : state) : state :=
  State (admin s) (name s) (symbol s) (yield_rate_bps s) (is_paused s)
        supply (token0_ratio s) (token1_ratio s) (token0_enabled s)
        (token1_enabled s) (local_set (sy_balance s) who v)
        (token0_deposited s) (token1_deposited s).

Definition set_token0_deposited (who : address) (v : N) (s : state) : state :=
  State (admin s) (name s) (symbol s) (yield_rate_bps s) (is_paused s)
        (total_supply s) (token0_ratio s) (token1_ratio s) (token0_enabled s)
        (token1_enabled s) (sy_balance s)
        (local_set (token0_deposited s) who v) (token1_deposited s).

Definition set_token1_deposited (who : address) (v : N) (s : state) : state :=
  State (admin s) (name s) (symbol s) (yield_rate_bps s) (is_paused s)
        (total_supply s) (token0_ratio s) (token1_ratio s) (token0_enabled s)
        (token1_enabled s) (sy_balance s) (token0_deposited s)
        (local_set (token1_deposited s) who v).

Definition set_token0 (ratio enabled : N) (s : state) : state :=
  State (admin s) (name s) (symbol s) (yield_rate_bps s) (is_paused s)
        (total_supply s) ratio (token1_ratio s) enabled (token1_enabled s)
        (sy_balance s) (token0_deposited s) (token1_deposited s).

Definition set_token1 (ratio enabled : N) (s : state) : state :=
  State (admin s) (name s) (symbol s) (yield_rate_bps s) (is_paused s)
        (total_supply s) (token0_ratio s) ratio (token0_enabled s) enabled
        (sy_balance s) (token0_deposited s) (token1_deposited s).

Definition set_yield_rate_bps (rate : N) (s : state) : state :=
  State (admin s) (name s) (symbol s) rate (is_paused s) (total_supply s)
        (token0_ratio s) (token1_ratio s) (token0_enabled s)
        (token1_enabled s) (sy_balance s) (token0_deposited s)
        (token1_deposited s).

Definition set_paused (p : N) (s : state) : state :=
  State (admin s) (name s) (symbol s) (yield_rate_bps s) p (total_supply s)
        (token0_ratio s) (token1_ratio s) (token0_enabled s)
        (token1_enabled s) (sy_balance s) (token0_deposited s)
        (token1_deposited s).

Definition initialize (e : env) (nm sym : string) (rate : N) (s : state)
  : result state :=
  assert (sender e =? creator_address e) "Only creator can initialize";;
  assert (rate <=? 10000) "Yield rate cannot exceed 100%";;
  mret (State (sender e) nm sym rate 0 0 5000 5000 1 1 (sy_balance s)
              (token0_deposited s) (token1_deposited s)).

Definition configure_token (e : env) (token_index ratio is_enabled : N)
    (s : state) : result state :=
  assert (sender e =? admin s) "Only admin can configure";;
  assert (ratio <=? 10000) "Ratio cannot exceed 100%";;
  assert (token_index <=? 1) "Only tokens 0 and 1 supported";;
  if token_index =? 0 then mret (set_token0 ratio is_enabled s)
  else mret (set_token1 ratio is_enabled s).

(** [wrap_tokens].  The result carries the state after and the logged
    [wrapped_amount]. *)
Definition wrap_tokens (e : env) (amount0 amount1 : N) (s : state)
  : result (state * N) :=
  assert (is_paused s =? 0) "Wrapper is paused";;
  assert ((0 <? amount0) || (0 <? amount1))
         "At least one amount must be positive";;
  let wrapped_amount := 0 in
  '(s1, wrapped_amount) ←
    (if 0 <? amount0 then
       assert (token0_enabled s =? 1) "Token 0 not enabled";;
       scaled ← mul64 amount0 (token0_ratio s);
       wrapped_0 ← div64 scaled 10000;
       wrapped ← add64 wrapped_amount wrapped_0;
       deposited ← local_get (token0_deposited s) (sender e);
       dep ← add64 deposited amount0;
       mret (set_token0_deposited (sender e) dep s, wrapped)
     else mret (s, wrapped_amount));
  '(s2, wrapped_amount) ←
    (if 0 <? amount1 then
       assert (token1_enabled s1 =? 1) "Token 1 not enabled";;
       scaled ← mul64 amount1 (token1_ratio s1);
       wrapped_1 ← div64 scaled 10000;
       wrapped ← add64 wrapped_amount wrapped_1;
       deposited ← local_get (token1_deposited s1) (sender e);
       dep ← add64 deposited amount1;
       mret (set_token1_deposited (sender e) dep s1, wrapped)
     else mret (s1, wrapped_amount));
  assert (0 <? wrapped_amount) "Wrapped amount must be positive";;
  current ← local_get (sy_balance s2) (sender e);
  bal ← add64 current wrapped_amount;
  supply ← add64 (total_supply s2) wrapped_amount;
  mret (set_sy (sender e) bal supply s2, wrapped_amount).

(** [unwrap_tokens].  The result carries the state after and the pair
    [(unwrap_amount0, unwrap_amount1)]. *)
Definition unwrap_tokens (e : env) (amount : N) (s : state)
  : result (state * (N * N)) :=
  assert (is_paused s =? 0) "Wrapper is paused";;
  assert (0 <? amount) "Amount must be positive";;
  current_sy_balance ← local_get (sy_balance s) (sender e);
  assert (amount <=? current_sy_balance) "Insufficient SY balance";;
  unwrap_amount0 ←
    (if token0_enabled s =? 1 then
       scaled ← mul64 amount (token0_ratio s); div64 scaled 10000
     else mret 0);
  unwrap_amount1 ←
    (if token1_enabled s =? 1 then
       scaled ← mul64 amount (token1_ratio s); div64 scaled 10000
     else mret 0);
  bal ← sub64 current_sy_balance amount;
  supply ← sub64 (total_supply s) amount;
  let s1 := set_sy (sender e) bal supply s in
  s2 ← (if 0 <? unwrap_amount0 then
          current_deposited0 ← local_get (token0_deposited s1) (sender e);
          if unwrap_amount0 <=? current_deposited0 then
            d ← sub64 current_deposited0 unwrap_amount0;
            mret (set_token0_deposited (sender e) d s1)
          else mret s1
        else mret s1);
  s3 ← (if 0 <? unwrap_amount1 then
          current_deposited1 ← local_get (token1_deposited s2) (sender e);
          if unwrap_amount1 <=? current_deposited1 then
            d ← sub64 current_deposited1 unwrap_amount1;
            mret (set_token1_deposited (sender e) d s2)
          else mret s2
        else mret s2);
  mret (s3, (unwrap_amount0, unwrap_amount1)).

(** [calculate_wrap_amount], read-only. *)
Definition calculate_wrap_amount (amount0 amount1 : N) (s : state)
  : result N :=
  let wrapped_amount := 0 in
  wrapped_amount ←
    (if (0 <? amount0) && (token0_enabled s =? 1) then
       scaled ← mul64 amount0 (token0_ratio s);
       wrapped_0 ← div64 scaled 10000;
       add64 wrapped_amount wrapped_0
     else mret wrapped_amount);
  wrapped_amount ←
    (if (0 <? amount1) && (token1_enabled s =? 1) then
       scaled ← mul64 amount1 (token1_ratio s);
       wrapped_1 ← div64 scaled 10000;
       add64 wrapped_amount wrapped_1
     else mret wrapped_amount);
  mret wrapped_amount.

Definition set_yield_rate (e : env) (new_rate : N) (s : state)
  : result state :=
  assert (sender e =? admin s) "Only admin can set yield rate";;
  assert (new_rate <=? 10000) "Yield rate cannot exceed 100%";;
  mret (set_yield_rate_bps new_rate s).

Definition pause_wrapper (e : env) (s : state) : result state :=
  assert (sender e =? admin s) "Only admin can pause";;
  mret (set_paused 1 s).

Definition unpause_wrapper (e : env) (s : state) : result state :=
  assert (sender e =? admin s) "Only admin can unpause";;
  mret (set_paused 0 s).

(** Every state-changing method but [initialize], as a call. *)
Inductive call :=
| ConfigureToken (token_index ratio is_enabled : N)
| WrapTokens (amount0 amount1 : N)
| UnwrapTokens (amount : N)
| SetYieldRate (new_rate : N)
| PauseWrapper
| UnpauseWrapper.

Definition step (e : env) (c : call) (s : state) : result state :=
  match c with
  | ConfigureToken i r en => configure_token e i r en s
  | WrapTokens a0 a1 => '(s', _) ← wrap_tokens e a0 a1 s; mret s'
  | UnwrapTokens a => '(s', _) ← unwrap_tokens e a s; mret s'
  | SetYieldRate r => set_yield_rate e r s
  | PauseWrapper => pause_wrapper e s
  | UnpauseWrapper => unpause_wrapper e s
  end.

(** A history of calls; the ones that abort leave no trace. *)
Definition play (calls : list (env * call)) (s : state) : state :=
  fold_left (fun st '(e, c) => commit (step e c st) st) calls s.

End StandardizedWrapper.

(** ** staking_dapp/contract.py *)

Module StakingDapp.

Record state := State {
  admin : address;
  reward_name : string;
  reward_symbol : string;
  is_paused : N;
  total_staked : N;
  total_rewards_distributed : N;
  reward_amount : N;
  reward_interval : N;
  precision_factor : N;
  staked_amount : gmap address N;
  last_reward_time : gmap address N;
  reward_balance : gmap address N
}.

(** [__init__] gives the three reward parameters their values: 5 tokens per
    interval, intervals of 10 seconds, precision [10^9]. *)
Definition initial_reward_amount : N := 5.
Definition initial_reward_interval : N := 10.
Definition initial_precision_factor : N := 1000000000.

Definition set_paused (p : N) (s : state) : state :=
  State (admin s) (reward_name s) (reward_symbol s) p (total_staked s)
        (total_rewards_distributed s) (reward_amount s) (reward_interval s)
        (precision_factor s) (staked_amount s) (last_reward_time s)
        (reward_balance s).

Definition set_total_staked (t : N) (s : state) : state :=
  State (admin s) (reward_name s) (reward_symbol s) (is_paused s) t
        (total_rewards_distributed s) (reward_amount s) (reward_interval s)
        (precision_factor s) (staked_amount s) (last_reward_time s)
        (reward_balance s).

Definition set_total_rewards_distributed (t : N) (s : state) : state :=
  State (admin s) (reward_name s) (reward_symbol s) (is_paused s)
        (total_staked s) t (reward_amount s) (reward_interval s)
        (precision_factor s) (staked_amount s) (last_reward_time s)
        (reward_balance s).

Definition set_reward_parameters (amount interval : N) (s : state) : state :=
  State (admin s) (reward_name s) (reward_symbol s) (is_paused s)
        (total_staked s) (total_rewards_distributed s) amount interval
        (precision_factor s) (staked_amount s) (last_reward_time s)
        (reward_balance s).

Definition set_staked_amount (who : address) (v : N) (s : state) : state :=
  State (admin s) (reward_name s) (reward_symbol s) (is_paused s)
        (total_staked s) (total_rewards_distributed s) (reward_amount s)
        (reward_interval s) (precision_factor s)
        (local_set (staked_amount s) who v) (last_reward_time s)
        (reward_balance s).

Definition set_last_reward_time (who : address) (v : N) (s : state) : state :=
  State (admin s) (reward_name s) (reward_symbol s) (is_paused s)
        (total_staked s) (total_rewards_distributed s) (reward_amount s)
        (reward_interval s) (precision_factor s) (staked_amount s)
        (local_set (last_reward_time s) who v) (reward_balance s).

Definition set_reward_balance (who : address) (v : N) (s : state) : state :=
  State (admin s) (reward_name s) (reward_symbol s) (is_paused s)
        (total_staked s) (total_rewards_distributed s) (reward_amount s)
        (reward_interval s) (precision_factor s) (staked_amount s)
        (last_reward_time s) (local_set (reward_balance s) who v).

Definition initialize (e : env) (name symbol : string) (s : state)
  : result state :=
  assert (sender e =? creator_address e) "Only creator can initialize";;
  mret (State (sender e) name symbol 0 0 0 (reward_amount s)
              (reward_interval s) (precision_factor s) (staked_amount s)
              (last_reward_time s) (reward_balance s)).

(** [_calculate_reward_internal] *)
Definition _calculate_reward_internal (e : env) (s : state) : result N :=
  user_staked ← local_get (staked_amount s) (sender e);
  if user_staked =? 0 then mret 0
  else
    last_time ← local_get (last_reward_time s) (sender e);
    let current_time := latest_timestamp e in
    if current_time <=? last_time then mret 0
    else
      time_passed ← sub64 current_time last_time;
      intervals ← div64 time_passed (reward_interval s);
      earned ← mul64 intervals (reward_amount s);
      scaled ← mul64 earned user_staked;
      div64 scaled (precision_factor s).


(** [_update_rewards] *)
Definition _update_rewards (e : env) (s : state) : result state :=
  pending_reward ← _calculate_reward_internal e s;
  s1 ← (if 0 <? pending_reward then
          current_balance ← local_get (reward_balance s) (sender e);
          settled ← add64 current_balance pending_reward;
          mret (set_reward_balance (sender e) settled s)
        else mret s);
  mret (set_last_reward_time (sender e) (latest_timestamp e) s1).

Definition stake (e : env) (amount : N) (s : state) : result state :=
  assert (is_paused s =? 0) "Staking is paused";;
  assert (0 <? amount) "Amount must be positive";;
  s1 ← _update_rewards e s;
  current_staked ← local_get (staked_amount s1) (sender e);
  staked ← add64 current_staked amount;
  let s2 := set_staked_amount (sender e) staked s1 in
  total ← add64 (total_staked s2) amount;
  let s3 := set_total_staked total s2 in
  mret (set_last_reward_time (sender e) (latest_timestamp e) s3).

Definition unstake (e : env) (amount : N) (s : state) : result state :=
  assert (is_paused s =? 0) "Staking is paused";;
  assert (0 <? amount) "Amount must be positive";;
  current_staked ← local_get (staked_amount s) (sender e);
  assert (amount <=? current_staked) "Insufficient staked amount";;
  s1 ← _update_rewards e s;
  staked ← sub64 current_staked amount;
  let s2 := set_staked_amount (sender e) staked s1 in
  total ← sub64 (total_staked s2) amount;
  let s3 := set_total_staked total s2 in
  mret (set_last_reward_time (sender e) (latest_timestamp e) s3).

Definition claim_rewards (e : env) (s : state) : result state :=
  assert (is_paused s =? 0) "Staking is paused";;
  s1 ← _update_rewards e s;
  current_reward_balance ← local_get (reward_balance s1) (sender e);
  assert (0 <? current_reward_balance) "No rewards to claim";;
  let s2 := set_reward_balance (sender e) 0 s1 in
  distributed ← add64 (total_rewards_distributed s2) current_reward_balance;
  mret (set_total_rewards_distributed distributed s2).

Definition compound_rewards (e : env) (s : state) : result state :=
  assert (is_paused s =? 0) "Staking is paused";;
  s1 ← _update_rewards e s;
  current_reward_balance ← local_get (reward_balance s1) (sender e);
  assert (0 <? current_reward_balance) "No rewards to compound";;
  let s2 := set_reward_balance (sender e) 0 s1 in
  current_staked ← local_get (staked_amount s2) (sender e);
  staked ← add64 current_staked current_reward_balance;
  let s3 := set_staked_amount (sender e) staked s2 in
  total ← add64 (total_staked s3) current_reward_balance;
  let s4 := set_total_staked total s3 in
  mret (set_last_reward_time (sender e) (latest_timestamp e) s4).

Definition update_reward_parameters
    (e : env) (new_reward_amount new_reward_interval : N) (s : state)
  : result state :=
  assert (sender e =? admin s) "Only admin can update";;
  assert (0 <? new_reward_amount) "Reward amount must be positive";;
  assert (0 <? new_reward_interval) "Reward interval must be positive";;
  mret (set_reward_parameters new_reward_amount new_reward_interval s).

(** [emergency_withdraw]: no pause check and no [_update_rewards]. *)
Definition emergency_withdraw (e : env) (s : state) : result state :=
  current_staked ← local_get (staked_amount s) (sender e);
  assert (0 <? current_staked) "No tokens staked";;
  let s1 := set_staked_amount (sender e) 0 s in
  total ← sub64 (total_staked s1) current_staked;
  mret (set_total_staked total s1).

Definition pause_staking (e : env) (s : state) : result state :=
  assert (sender e =? admin s) "Only admin can pause";;
  mret (set_paused 1 s).

Definition unpause_staking (e : env) (s : state) : result state :=
  assert (sender e =? admin s) "Only admin can unpause";;
  mret (set_paused 0 s).

(** Every state-changing method, as a call. *)
Inductive call :=
| Initialize (name symbol : string)
| Stake (amount : N)
| Unstake (amount : N)
| ClaimRewards
| CompoundRewards
| UpdateRewardParameters (new_reward_amount new_reward_interval : N)
| EmergencyWithdraw
| PauseStaking
| UnpauseStaking.

Definition step (e : env) (c : call) (s : state) : result state :=
  match c with
  | Initialize name symbol => initialize e name symbol s
  | Stake amount => stake e amount s
  | Unstake amount => unstake e amount s
  | ClaimRewards => claim_rewards e s
  | CompoundRewards => compound_rewards e s
  | UpdateRewardParameters a i => update_reward_parameters e a i s
  | EmergencyWithdraw => emergency_withdraw e s
  | PauseStaking => pause_staking e s
  | UnpauseStaking => unpause_staking e s
  end.

(** A history of calls; the ones that abort leave no trace. *)
Definition play (calls : list (env * call)) (s : state) : state :=
  fold_left (fun st '(e, c) => commit (step e c st) st) calls s.

(** [total_staked] accounts for every stake. *)
Definition staked_accounted (s : state) : Prop :=
  total_staked s = local_total (staked_amount s).


(** The read-only getters. *)
Definition get_user_info (e : env) (s : state) : result (N * N * N) :=
  pending_rewards ← _calculate_reward_internal e s;
  settled ← local_get (reward_balance s) (sender e);
  total_rewards ← add64 settled pending_rewards;
  staked ← local_get (staked_amount s) (sender e);
  settled_again ← local_get (reward_balance s) (sender e);
  mret (staked, settled_again, total_rewards).

Definition get_staking_info (s : state) : N * N * N * N :=
  (total_staked s, total_rewards_distributed s, reward_amount s,
   reward_interval s).

Definition get_reward_rate (s : state) : result N :=
  scaled ← mul64 (reward_amount s) (precision_factor s);
  div64 scaled (reward_interval s).

Definition is_staking_paused (s : state) : N := is_paused s.

End StakingDapp.

(** ** price_oracle/contract.py *)

Module PriceOracle.

Record state := State {
  admin : address;
  circuit_breaker_active : N;
  is_paused : N;
  updater_count : N;
  token_price : N;
  price_timestamp : N;
  price_confidence : N;
  price_updater : address;
  threshold_price : N;
  threshold_active : N;
  threshold_setter : address;
  is_updater : gmap address N
}.

(** Set once in [__init__] and never reassigned. *)
Definition max_price_deviation : N := 1000.
Definition min_update_interval : N := 300.
Definition staleness_threshold : N := 3600.

Definition initialize (e : env) (s : state) : result state :=
  assert (sender e =? creator_address e) "Only creator can initialize";;
  mret (State (sender e) 0 0 1 0 0 0 (price_updater s) 0 0
              (threshold_setter s) (local_set (is_updater s) (sender e) 1)).

(** [Txn.sender.bytes == self.admin.value or
    self.is_updater[Txn.sender] == UInt64(1)]: [or] does not evaluate its
    right operand, the read of the sender's flag, when the left one is
    true. *)
Definition is_authorized (e : env) (s : state) : result bool :=
  if sender e =? admin s then mret true
  else
    flag ← local_get (is_updater s) (sender e);
    mret (flag =? 1).

Definition _calculate_deviation (old_price new_price : N) : result N :=
  if old_price =? 0 then mret 0
  else if new_price <? old_price then
    diff ← sub64 old_price new_price;
    scaled ← mul64 diff 10000;
    div64 scaled old_price
  else
    diff ← sub64 new_price old_price;
    scaled ← mul64 diff 10000;
    div64 scaled old_price.

Definition update_price (e : env) (new_price confidence : N) (s : state)
  : result state :=
  assert (is_paused s =? 0) "Oracle is paused";;
  assert (circuit_breaker_active s =? 0) "Circuit breaker active";;
  assert (0 <? new_price) "Price must be positive";;
  assert (confidence <=? 10000) "Confidence cannot exceed 100%";;
  authorized ← is_authorized e s;
  assert authorized "Not authorized to update price";;
  let current_price := token_price s in
  let current_timestamp := price_timestamp s in
  (if 0 <? current_price then
     earliest ← add64 current_timestamp min_update_interval;
     assert (earliest <=? latest_timestamp e) "Update too frequent";;
     deviation ← _calculate_deviation current_price new_price;
     assert (deviation <=? max_price_deviation) "Price deviation too large"
   else mret tt);;
  mret (State (admin s) (circuit_breaker_active s) (is_paused s)
              (updater_count s) new_price (latest_timestamp e) confidence
              (sender e) (threshold_price s) (threshold_active s)
              (threshold_setter s) (is_updater s)).

Definition set_threshold (e : env) (threshold : N) (s : state)
  : result state :=
  assert (0 <? threshold) "Threshold must be positive";;
  authorized ← is_authorized e s;
  assert authorized "Not authorized to set threshold";;
  mret (State (admin s) (circuit_breaker_active s) (is_paused s)
              (updater_count s) (token_price s) (price_timestamp s)
              (price_confidence s) (price_updater s) threshold 1
              (sender e) (is_updater s)).

(** [get_price], read-only. *)
Definition get_price (e : env) (s : state) : result N :=
  let current_price := token_price s in
  let price_timestamp := price_timestamp s in
  assert (0 <? current_price) "No price available";;
  expiry ← add64 price_timestamp staleness_threshold;
  assert (latest_timestamp e <=? expiry) "Price is stale";;
  mret current_price.

Definition is_price_stale (e : env) (s : state) : result N :=
  let price_timestamp := price_timestamp s in
  if price_timestamp =? 0 then mret 1
  else
    expiry ← add64 price_timestamp staleness_threshold;
    if expiry <? latest_timestamp e then mret 1 else mret 0.

Definition threshold_reached (e : env) (s : state) : result N :=
  if threshold_active s =? 0 then mret 0
  else
    let current_price := token_price s in
    let threshold := threshold_price s in
    if current_price =? 0 then mret 0
    else
      stale ← is_price_stale e s;
      if stale =? 1 then mret 0
      else if threshold <=? current_price then mret 1 else mret 0.

(** [add_price_updater] counts and registers nobody. *)
Definition add_price_updater (e : env) (updater : address) (s : state)
  : result state :=
  assert (sender e =? admin s) "Only admin can add updaters";;
  n ← add64 (updater_count s) 1;
  mret (State (admin s) (circuit_breaker_active s) (is_paused s) n
              (token_price s) (price_timestamp s) (price_confidence s)
              (price_updater s) (threshold_price s) (threshold_active s)
              (threshold_setter s) (is_updater s)).

Definition set_circuit_breaker (v : N) (s : state) : state :=
  State (admin s) v (is_paused s) (updater_count s) (token_price s)
        (price_timestamp s) (price_confidence s) (price_updater s)
        (threshold_price s) (threshold_active s) (threshold_setter s)
        (is_updater s).

Definition set_paused (v : N) (s : state) : state :=
  State (admin s) (circuit_breaker_active s) v (updater_count s)
        (token_price s) (price_timestamp s) (price_confidence s)
        (price_updater s) (threshold_price s) (threshold_active s)
        (threshold_setter s) (is_updater s).

Definition activate_circuit_breaker (e : env) (s : state) : result state :=
  assert (sender e =? admin s) "Only admin can activate circuit breaker";;
  mret (set_circuit_breaker 1 s).

Definition reset_circuit_breaker (e : env) (s : state) : result state :=
  assert (sender e =? admin s) "Only admin can reset circuit breaker";;
  mret (set_circuit_breaker 0 s).

Definition pause_oracle (e : env) (s : state) : result state :=
  assert (sender e =? admin s) "Only admin can pause";;
  mret (set_paused 1 s).

Definition unpause_oracle (e : env) (s : state) : result state :=
  assert (sender e =? admin s) "Only admin can unpause";;
  mret (set_paused 0 s).

Definition remove_threshold (e : env) (s : state) : result state :=
  assert (sender e =? admin s) "Only admin can remove threshold";;
  mret (State (admin s) (circuit_breaker_active s) (is_paused s)
              (updater_count s) (token_price s) (price_timestamp s)
              (price_confidence s) (price_updater s) 0 0
              (threshold_setter s) (is_updater s)).

(** The read-only getters. *)
Definition get_price_info (s : state) : N * N * N :=
  (token_price s, price_timestamp s, price_confidence s).

Definition get_threshold_info (s : state) : N * N :=
  (threshold_price s, threshold_active s).

Definition get_oracle_status (s : state) : N * N * N :=
  (is_paused s, circuit_breaker_active s, updater_count s).

Definition get_price_history_summary (s : state) : N * N * N :=
  (token_price s, token_price s, token_price s).

(** Every state-changing method, as a call. *)
Inductive call :=
| Initialize
| AddPriceUpdater (updater : address)
| UpdatePrice (new_price confidence : N)
| SetThreshold (threshold : N)
| RemoveThreshold
| ActivateCircuitBreaker
| ResetCircuitBreaker
| PauseOracle
| UnpauseOracle.

Definition step (e : env) (c : call) (s : state) : result state :=
  match c with
  | Initialize => initialize e s
  | AddPriceUpdater u => add_price_updater e u s
  | UpdatePrice p conf => update_price e p conf s
  | SetThreshold t => set_threshold e t s
  | RemoveThreshold => remove_threshold e s
  | ActivateCircuitBreaker => activate_circuit_breaker e s
  | ResetCircuitBreaker => reset_circuit_breaker e s
  | PauseOracle => pause_oracle e s
  | UnpauseOracle => unpause_oracle e s
  end.

(** A history of calls; the ones that abort leave no trace. *)
Definition play (calls : list (env * call)) (s : state) : state :=
  fold_left (fun st '(e, c) => commit (step e c st) st) calls s.

(** How many [update_price] calls of a history are accepted. *)
Fixpoint accepted_updates (calls : list (env * call)) (s : state) : N :=
  match calls with
  | [] => 0
  | (e, c) :: rest =>
      (match c, step e c s with
       | UpdatePrice _ _, Ok _ => 1
       | _, _ => 0
       end) + accepted_updates rest (commit (step e c s) s)
  end.

End PriceOracle.

(** ** yt_auto_converter/contract.py *)

Module YTAutoConverter.

Record state := State {
  admin : address;
  oracle_address : address;
  tokenization_address : address;
  amm_address : address;
  conversion_fee : N;
  is_paused : N;
  total_conversions : N;
  conversion_enabled : gmap address N;
  threshold_price : gmap address N;
  user_maturity : gmap address N;
  conversion_executed : gmap address N;
  yt_balance : gmap address N;
  pt_balance : gmap address N
}.

(** Set once in [__init__] and never reassigned. *)
Definition max_slippage : N := 500.
Definition fee_denominator : N := 10000.

Definition set_globals
    (adm oracle tokenization amm fee paused conversions : N) (s : state)
  : state :=
  State adm oracle tokenization amm fee paused conversions
        (conversion_enabled s) (threshold_price s) (user_maturity s)
        (conversion_executed s) (yt_balance s) (pt_balance s).

Definition set_conversion_enabled (who : address) (v : N) (s : state)
  : state :=
  State (admin s) (oracle_address s) (tokenization_address s) (amm_address s)
        (conversion_fee s) (is_paused s) (total_conversions s)
        (local_set (conversion_enabled s) who v) (threshold_price s)
        (user_maturity s) (conversion_executed s) (yt_balance s)
        (pt_balance s).

Definition set_threshold_price (who : address) (v : N) (s : state) : state :=
  State (admin s) (oracle_address s) (tokenization_address s) (amm_address s)
        (conversion_fee s) (is_paused s) (total_conversions s)
        (conversion_enabled s) (local_set (threshold_price s) who v)
        (user_maturity s) (conversion_executed s) (yt_balance s)
        (pt_balance s).

Definition set_user_maturity (who : address) (v : N) (s : state) : state :=
  State (admin s) (oracle_address s) (tokenization_address s) (amm_address s)
        (conversion_fee s) (is_paused s) (total_conversions s)
        (conversion_enabled s) (threshold_price s)
        (local_set (user_maturity s) who v) (conversion_executed s)
        (yt_balance s) (pt_balance s).

Definition set_conversion_executed (who : address) (v : N) (s : state)
  : state :=
  State (admin s) (oracle_address s) (tokenization_address s) (amm_address s)
        (conversion_fee s) (is_paused s) (total_conversions s)
        (conversion_enabled s) (threshold_price s) (user_maturity s)
        (local_set (conversion_executed s) who v) (yt_balance s)
        (pt_balance s).

Definition set_yt_balance (who : address) (v : N) (s : state) : state :=
  State (admin s) (oracle_address s) (tokenization_address s) (amm_address s)
        (conversion_fee s) (is_paused s) (total_conversions s)
        (conversion_enabled s) (threshold_price s) (user_maturity s)
        (conversion_executed s) (local_set (yt_balance s) who v)
        (pt_balance s).

Definition set_pt_balance (who : address) (v : N) (s : state) : state :=
  State (admin s) (oracle_address s) (tokenization_address s) (amm_address s)
        (conversion_fee s) (is_paused s) (total_conversions s)
        (conversion_enabled s) (threshold_price s) (user_maturity s)
        (conversion_executed s) (yt_balance s)
        (local_set (pt_balance s) who v).

Definition initialize
    (e : env) (oracle tokenization amm : address) (s : state)
  : result state :=
  assert (sender e =? creator_address e) "Only creator can initialize";;
  mret (set_globals (sender e) oracle tokenization amm 30 0 0 s).

Definition configure_conversion
    (e : env) (enabled threshold maturity : N) (s : state) : result state :=
  assert (0 <? threshold) "Threshold price must be positive";;
  assert (latest_timestamp e <? maturity) "Maturity must be in future";;
  let s1 := set_conversion_enabled (sender e) enabled s in
  let s2 := set_threshold_price (sender e) threshold s1 in
  let s3 := set_user_maturity (sender e) maturity s2 in
  mret (set_conversion_executed (sender e) 0 s3).

Definition deposit_yt_tokens (e : env) (amount : N) (s : state)
  : result state :=
  assert (0 <? amount) "Amount must be positive";;
  current ← local_get (yt_balance s) (sender e);
  yt ← add64 current amount;
  mret (set_yt_balance (sender e) yt s).

(** [_perform_market_conversion] *)
Definition _perform_market_conversion (amount min_output : N) : result N :=
  let slippage_factor := 9950 in
  scaled ← mul64 amount slippage_factor;
  market_rate ← div64 scaled 10000;
  assert (min_output <=? market_rate) "Insufficient output amount";;
  mret market_rate.

(** [execute_conversion]: the argument [user] is not used; the sender's
    configuration and balances are. *)
Definition execute_conversion
    (e : env) (user : address) (min_pt_amount deadline : N) (s : state)
  : result state :=
  assert (is_paused s =? 0) "Converter is paused";;
  assert (latest_timestamp e <=? deadline) "Transaction expired";;
  enabled ← local_get (conversion_enabled s) (sender e);
  assert (enabled =? 1) "Conversion not enabled";;
  executed ← local_get (conversion_executed s) (sender e);
  assert (executed =? 0) "Conversion already executed";;
  user_threshold ← local_get (threshold_price s) (sender e);
  assert (0 <? user_threshold) "Threshold not reached";;
  user_yt_balance ← local_get (yt_balance s) (sender e);
  assert (0 <? user_yt_balance) "No YT tokens to convert";;
  fee_scaled ← mul64 user_yt_balance (conversion_fee s);
  fee_amount ← div64 fee_scaled fee_denominator;
  conversion_amount ← sub64 user_yt_balance fee_amount;
  received_pt ← _perform_market_conversion conversion_amount min_pt_amount;
  let s1 := set_yt_balance (sender e) 0 s in
  current_pt ← local_get (pt_balance s1) (sender e);
  pt ← add64 current_pt received_pt;
  let s2 := set_pt_balance (sender e) pt s1 in
  let s3 := set_conversion_executed (sender e) 1 s2 in
  conversions ← add64 (total_conversions s3) 1;
  mret (set_globals (admin s3) (oracle_address s3) (tokenization_address s3)
          (amm_address s3) (conversion_fee s3) (is_paused s3) conversions s3).

Definition add_maturity (e : env) (maturity : N) (s : state) : result state :=
  assert (latest_timestamp e <? maturity) "Maturity must be in future";;
  mret (set_user_maturity (sender e) maturity s).

Definition remove_maturity (e : env) (s : state) : result state :=
  mret (set_user_maturity (sender e) 0 s).

Definition set_conversion_fee (e : env) (new_fee : N) (s : state)
  : result state :=
  assert (sender e =? admin s) "Only admin can set fee";;
  assert (new_fee <=? 1000) "Fee too high (max 10%)";;
  mret (set_globals (admin s) (oracle_address s) (tokenization_address s)
          (amm_address s) new_fee (is_paused s) (total_conversions s) s).

Definition pause_converter (e : env) (s : state) : result state :=
  assert (sender e =? admin s) "Only admin can pause";;
  mret (set_globals (admin s) (oracle_address s) (tokenization_address s)
          (amm_address s) (conversion_fee s) 1 (total_conversions s) s).

Definition unpause_converter (e : env) (s : state) : result state :=
  assert (sender e =? admin s) "Only admin can unpause";;
  mret (set_globals (admin s) (oracle_address s) (tokenization_address s)
          (amm_address s) (conversion_fee s) 0 (total_conversions s) s).

Definition emergency_disable_conversion (e : env) (s : state)
  : result state :=
  mret (set_conversion_enabled (sender e) 0 s).

Definition withdraw_pt_tokens (e : env) (amount : N) (s : state)
  : result state :=
  assert (0 <? amount) "Amount must be positive";;
  current_pt_balance ← local_get (pt_balance s) (sender e);
  assert (amount <=? current_pt_balance) "Insufficient PT balance";;
  pt ← sub64 current_pt_balance amount;
  mret (set_pt_balance (sender e) pt s).

Definition update_addresses
    (e : env) (oracle tokenization amm : address) (s : state)
  : result state :=
  assert (sender e =? admin s) "Only admin can update addresses";;
  mret (set_globals (admin s) oracle tokenization amm (conversion_fee s)
          (is_paused s) (total_conversions s) s).

(** The state a successful [configure_conversion] leaves. *)
Definition configured (u : address) (enabled threshold maturity : N)
    (s : state) : state :=
  set_conversion_executed u 0
    (set_user_maturity u maturity
       (set_threshold_price u threshold
          (set_conversion_enabled u enabled s))).

(** The state a successful [execute_conversion] leaves when it credits
    [received_pt]. *)
Definition converted (u : address) (received_pt : N) (s : state) : state :=
  let s3 := set_conversion_executed u 1
              (set_pt_balance u (held (pt_balance s) u + received_pt)
                 (set_yt_balance u 0 s)) in
  set_globals (admin s3) (oracle_address s3) (tokenization_address s3)
    (amm_address s3) (conversion_fee s3) (is_paused s3)
    (total_conversions s3 + 1) s3.

(** Every state-changing method, as a call. *)
Inductive call :=
| Initialize (oracle tokenization amm : address)
| ConfigureConversion (enabled threshold maturity : N)
| DepositYtTokens (amount : N)
| ExecuteConversion (user : address) (min_pt_amount deadline : N)
| AddMaturity (maturity : N)
| RemoveMaturity
| SetConversionFee (new_fee : N)
| PauseConverter
| UnpauseConverter
| EmergencyDisableConversion
| WithdrawPtTokens (amount : N)
| UpdateAddresses (oracle tokenization amm : address).

Definition step (e : env) (c : call) (s : state) : result state :=
  match c with
  | Initialize o t a => initialize e o t a s
  | ConfigureConversion en th m => configure_conversion e en th m s
  | DepositYtTokens amount => deposit_yt_tokens e amount s
  | ExecuteConversion u m d => execute_conversion e u m d s
  | AddMaturity m => add_maturity e m s
  | RemoveMaturity => remove_maturity e s
  | SetConversionFee f => set_conversion_fee e f s
  | PauseConverter => pause_converter e s
  | UnpauseConverter => unpause_converter e s
  | EmergencyDisableConversion => emergency_disable_conversion e s
  | WithdrawPtTokens amount => withdraw_pt_tokens e amount s
  | UpdateAddresses o t a => update_addresses e o t a s
  end.

(** A history of calls; the ones that abort leave no trace. *)
Definition play (calls : list (env * call)) (s : state) : state :=
  fold_left (fun st '(e, c) => commit (step e c st) st) calls s.


(** [can_execute_conversion], read-only; the argument [user] is not used. *)
Definition can_execute_conversion (e : env) (user : address) (s : state)
  : result N :=
  enabled ← local_get (conversion_enabled s) (sender e);
  if enabled =? 0 then mret 0
  else
    executed ← local_get (conversion_executed s) (sender e);
    if executed =? 1 then mret 0
    else
      yt ← local_get (yt_balance s) (sender e);
      if yt =? 0 then mret 0
      else
        threshold ← local_get (threshold_price s) (sender e);
        if threshold =? 0 then mret 0 else mret 1.

(** [calculate_conversion_output], read-only: [(expected_pt, fee_amount)]. *)
Definition calculate_conversion_output (yt_amount : N) (s : state)
  : result (N * N) :=
  if yt_amount =? 0 then mret (0, 0)
  else
    fee_scaled ← mul64 yt_amount (conversion_fee s);
    fee_amount ← div64 fee_scaled fee_denominator;
    conversion_amount ← sub64 yt_amount fee_amount;
    slip_scaled ← mul64 conversion_amount 50;
    slippage_amount ← div64 slip_scaled 10000;
    expected_pt ← sub64 conversion_amount slippage_amount;
    mret (expected_pt, fee_amount).

(** [get_ai_recommendation], read-only. *)
Definition get_ai_recommendation
    (e : env) (yt_amount current_price : N) (s : state)
  : result (N * string) :=
  if yt_amount =? 0 then mret (0, "No YT tokens to convert")
  else
    user_threshold ← local_get (threshold_price s) (sender e);
    if user_threshold <=? current_price then
      mret (1, "Recommend conversion - threshold reached")
    else
      gap ← sub64 user_threshold current_price;
      scaled ← mul64 gap 100;
      remaining_upside ← div64 scaled current_price;
      if remaining_upside <? 5 then
        mret (1, "Recommend conversion - close to threshold")
      else mret (0, "Hold YT tokens - threshold not reached").

(** The remaining read-only getters. *)
Definition get_user_config (e : env) (s : state) : result (N * N * N * N) :=
  enabled ← local_get (conversion_enabled s) (sender e);
  threshold ← local_get (threshold_price s) (sender e);
  maturity ← local_get (user_maturity s) (sender e);
  executed ← local_get (conversion_executed s) (sender e);
  mret (enabled, threshold, maturity, executed).

Definition get_user_balances (e : env) (s : state) : result (N * N) :=
  yt ← local_get (yt_balance s) (sender e);
  pt ← local_get (pt_balance s) (sender e);
  mret (yt, pt).

Definition get_conversion_info (s : state) : N * N * N :=
  (conversion_fee s, total_conversions s, is_paused s).

(** A converter used as running example: initialised by account 1 with
    the fee at 30, and account 5 holding YT and PT entries of 0. *)
Definition ready : state :=
  State 1 11 12 13 30 0 0 ∅ ∅ ∅ ∅ {[5 := 0]} {[5 := 0]}.

End YTAutoConverter.

(** ** The deployed system

    The Auto-Converter stores the Oracle's address but makes no call to it:
    a transaction addressed to one application runs that application's
    method on its own state. *)

Module Protocol.

Record world := World {
  oracle : PriceOracle.state;
  converter : YTAutoConverter.state
}.

Inductive call :=
| UpdatePrice (new_price confidence : N)
| SetThreshold (threshold : N)
| ToConverter (c : YTAutoConverter.call).

Definition step (e : env) (c : call) (w : world) : result world :=
  match c with
  | UpdatePrice p conf =>
      o ← PriceOracle.update_price e p conf (oracle w);
      mret (World o (converter w))
  | SetThreshold t =>
      o ← PriceOracle.set_threshold e t (oracle w);
      mret (World o (converter w))
  | ToConverter c' =>
      k ← YTAutoConverter.step e c' (converter w);
      mret (World (oracle w) k)
  end.

Definition play (calls : list (env * call)) (w : world) : world :=
  fold_left (fun st '(e, c) => commit (step e c st) st) calls w.

(** What a transaction did to the converter, or why it aborted. *)
Definition outcome (r : result world) : result YTAutoConverter.state :=
  w ← r; mret (converter w).

End Protocol.

(** * Reasoning about runs *)

Section ResultMonad.
Context {A B : Type}.

Lemma bind_Ok (r : result A) (f : A -> result B) (b : B) :
  r ≫= f = Ok b <-> exists a, r = Ok a /\ f a = Ok b.
Proof.
  split.
  - destruct r as [a|msg]; cbn; [eauto | discriminate].
  - intros (a & -> & Hf). exact Hf.
Qed.

Lemma bind_Err (r : result A) (f : A -> result B) (msg : string) :
  r ≫= f = Err msg <->
  r = Err msg \/ exists a, r = Ok a /\ f a = Err msg.
Proof.
  split.
  - destruct r as [a|m]; cbn; [eauto | intros [= ->]; auto].
  - intros [-> | (a & -> & Hf)]; [reflexivity | exact Hf].
Qed.
End ResultMonad.

Lemma assert_Ok (c : bool) (msg : string) (u : unit) :
  assert c msg = Ok u <-> c = true.
Proof. destruct c, u; cbn; split; congruence. Qed.

Lemma add64_Ok (a b c : N) :
  add64 a b = Ok c <-> c = a + b /\ a + b <= uint64_max.
Proof.
  unfold add64. destruct (N.leb_spec (a + b) uint64_max); split.
  - intros [= <-]. auto.
  - intros [-> _]. reflexivity.
  - discriminate.
  - lia.
Qed.

Lemma sub64_Ok (a b c : N) :
  sub64 a b = Ok c <-> c = a - b /\ b <= a.
Proof.
  unfold sub64. destruct (N.leb_spec b a); split.
  - intros [= <-]. auto.
  - intros [-> _]. reflexivity.
  - discriminate.
  - lia.
Qed.

Lemma mul64_Ok (a b c : N) :
  mul64 a b = Ok c <-> c = a * b /\ a * b <= uint64_max.
Proof.
  unfold mul64. destruct (N.leb_spec (a * b) uint64_max); split.
  - intros [= <-]. auto.
  - intros [-> _]. reflexivity.
  - discriminate.
  - lia.
Qed.

Lemma div64_Ok (a b c : N) :
  div64 a b = Ok c <-> c = a / b /\ b <> 0.
Proof.
  unfold div64. destruct (N.eqb_spec b 0); split.
  - discriminate.
  - intros [_ ?]. contradiction.
  - intros [= <-]. auto.
  - intros [-> _]. reflexivity.
Qed.

(** What an aborting step reports. *)
Lemma local_get_Ok (m : gmap address N) (a : address) (v : N) :
  local_get m a = Ok v <-> m !! a = Some v.
Proof.
  unfold local_get. destruct (m !! a); split; congruence.
Qed.

Lemma assert_Err (c : bool) (msg msg' : string) :
  assert c msg = Err msg' <-> c = false /\ msg' = msg.
Proof.
  destruct c; cbn; split.
  - discriminate.
  - intros []. discriminate.
  - intros [= <-]. auto.
  - intros [_ ->]. reflexivity.
Qed.

Lemma add64_Err (a b : N) (msg : string) :
  add64 a b = Err msg -> msg = "+ overflowed".
Proof. unfold add64. destruct (_ <=? _); [discriminate | congruence]. Qed.

Lemma sub64_Err (a b : N) (msg : string) :
  sub64 a b = Err msg -> msg = "- would result negative".
Proof. unfold sub64. destruct (_ <=? _); [discriminate | congruence]. Qed.

Lemma mul64_Err (a b : N) (msg : string) :
  mul64 a b = Err msg -> msg = "* overflowed".
Proof. unfold mul64. destruct (_ <=? _); [discriminate | congruence]. Qed.

Lemma div64_Err (a b : N) (msg : string) :
  div64 a b = Err msg -> msg = "/ 0".
Proof. unfold div64. destruct (_ =? _); [congruence | discriminate]. Qed.

Lemma local_get_Err (m : gmap address N) (a : address) (msg : string) :
  local_get m a = Err msg ->
  m !! a = None /\ msg = "LocalState value is not set".
Proof.
  unfold local_get. destruct (m !! a); [discriminate | split; congruence].
Qed.

Lemma local_get_bind_Err {A : Type} (m : gmap address N) (a : address)
    (k : N -> result A) (msg : string) :
  local_get m a ≫= k = Err msg ->
  msg <> "LocalState value is not set" ->
  exists v, m !! a = Some v /\ k v = Err msg.
Proof.
  unfold local_get. destruct (m !! a) as [v|]; cbn.
  - eauto.
  - intros [= <-] Hmsg. contradiction.
Qed.

(** The same facts, read forwards: a step whose side condition holds runs. *)
Lemma assert_run {A : Type} (c : bool) (msg : string) (k : unit -> result A) :
  c = true -> assert c msg ≫= k = k tt.
Proof. intros ->. reflexivity. Qed.

Lemma local_get_run {A : Type} (m : gmap address N) (a : address) (v : N)
    (k : N -> result A) :
  m !! a = Some v -> local_get m a ≫= k = k v.
Proof. intros H. unfold local_get. rewrite H. reflexivity. Qed.

Lemma local_get_unset {A : Type} (m : gmap address N) (a : address)
    (k : N -> result A) :
  m !! a = None -> local_get m a ≫= k = Err "LocalState value is not set".
Proof. intros H. unfold local_get. rewrite H. reflexivity. Qed.


Lemma ret_run_ok {A B : Type} (a : A) (k : A -> result B) :
  Ok a ≫= k = k a.
Proof. reflexivity. Qed.

Lemma add64_run {A : Type} (a b : N) (k : N -> result A) :
  a + b <= uint64_max -> add64 a b ≫= k = k (a + b).
Proof. intros H. unfold add64. apply N.leb_le in H as ->. reflexivity. Qed.

Lemma sub64_run {A : Type} (a b : N) (k : N -> result A) :
  b <= a -> sub64 a b ≫= k = k (a - b).
Proof. intros H. unfold sub64. apply N.leb_le in H as ->. reflexivity. Qed.

Lemma mul64_run {A : Type} (a b : N) (k : N -> result A) :
  a * b <= uint64_max -> mul64 a b ≫= k = k (a * b).
Proof. intros H. unfold mul64. apply N.leb_le in H as ->. reflexivity. Qed.

Lemma div64_run {A : Type} (a b : N) (k : N -> result A) :
  b <> 0 -> div64 a b ≫= k = k (a / b).
Proof. intros H. unfold div64. apply N.eqb_neq in H as ->. reflexivity. Qed.

(** Turns a hypothesis [m = Ok x], with [m] a chain of binds over asserts
    and checked arithmetic, into the facts each step contributes. *)
Ltac run_inv H :=
  let a := fresh "v" in
  let H1 := fresh "Hstep" in
  let H2 := fresh "Hrun" in
  first
    [ apply bind_Ok in H; destruct H as (a & H1 & H2);
      run_inv H1; run_inv H2
    | apply assert_Ok in H
    | apply add64_Ok in H; destruct H as [-> H]
    | apply sub64_Ok in H; destruct H as [-> H]
    | apply mul64_Ok in H; destruct H as [-> H]
    | apply div64_Ok in H; destruct H as [-> H]
    | apply local_get_Ok in H
    | idtac ].

(** The final [return] of a run. *)
Ltac ret_inv :=
  match goal with
  | H : mret _ = Ok _ |- _ =>
      unfold mret, result_ret in H; inversion H; subst; clear H
  end.

Ltac bool_facts :=
  repeat match goal with
  | H : _ && _ = true |- _ => apply andb_true_iff in H; destruct H
  | H : _ && _ = false |- _ => apply andb_false_iff in H
  | H : (_ <? _) = true |- _ => apply N.ltb_lt in H
  | H : (_ <? _) = false |- _ => apply N.ltb_ge in H
  | H : (_ <=? _) = true |- _ => apply N.leb_le in H
  | H : (_ <=? _) = false |- _ => apply N.leb_gt in H
  | H : (_ =? _) = true |- _ => apply N.eqb_eq in H
  | H : (_ =? _) = false |- _ => apply N.eqb_neq in H
  end.

(** Floor division, as the two inequalities it stands for. *)
Lemma floor_div_bounds (a b : N) :
  b <> 0 -> b * (a / b) <= a /\ a < b * (a / b) + b.
Proof.
  intros Hb. split.
  - apply N.Div0.mul_div_le.
  - pose proof (N.div_mod a b Hb) as Hdm.
    pose proof (N.mod_lt a b Hb) as Hlt. lia.
Qed.

(** ** Per-account fields *)

Section LocalState.
Implicit Types (m : gmap address N) (a : address) (v : N).

Lemma lookup_set m a v : local_set m a v !! a = Some v.
Proof. unfold local_set. by rewrite lookup_insert_eq. Qed.

Lemma lookup_set_ne m a b v : a <> b -> local_set m a v !! b = m !! b.
Proof. intros Hne. unfold local_set. by rewrite lookup_insert_ne. Qed.

Lemma held_Some m a v : m !! a = Some v -> held m a = v.
Proof. intros H. unfold held. by rewrite H. Qed.

Lemma held_positive m a : 0 < held m a -> m !! a = Some (held m a).
Proof.
  unfold held. destruct (m !! a) as [v|]; cbn; [reflexivity | lia].
Qed.

Lemma held_set m a v : held (local_set m a v) a = v.
Proof. unfold held, local_set. by rewrite lookup_insert_eq. Qed.

Lemma held_set_ne m a b v :
  a <> b -> held (local_set m a v) b = held m b.
Proof.
  intros Hne. unfold held, local_set. by rewrite lookup_insert_ne.
Qed.

Lemma local_total_empty : local_total ∅ = 0.
Proof. unfold local_total. apply map_fold_empty. Qed.

Lemma local_total_fresh m a v :
  m !! a = None -> local_total (<[a := v]> m) = v + local_total m.
Proof.
  intros Hfresh. unfold local_total.
  apply (map_fold_insert_L (fun _ v acc => v + acc)); [|exact Hfresh].
  intros; lia.
Qed.

(** Writing one account's entry moves the total by the change of that
    entry. *)
Lemma local_total_set m a v :
  local_total (local_set m a v) + held m a = local_total m + v.
Proof.
  unfold local_set, held.
  rewrite <- (insert_delete_eq m a v).
  rewrite local_total_fresh by apply lookup_delete_eq.
  destruct (m !! a) as [old|] eqn:Hold; cbn.
  - rewrite <- (insert_delete_id m a old Hold) at 2.
    rewrite local_total_fresh by apply lookup_delete_eq. lia.
  - rewrite delete_id by exact Hold. lia.
Qed.

Lemma held_le_total m a : held m a <= local_total m.
Proof.
  unfold held. destruct (m !! a) as [old|] eqn:Hold; cbn; [|lia].
  rewrite <- (insert_delete_id m a old Hold).
  rewrite local_total_fresh by apply lookup_delete_eq. lia.
Qed.
End LocalState.

(** Turns what the reads of a run found, [m !! a = Some v], into
    [held m a = v]. *)
Ltac held_facts :=
  repeat match goal with
  | H : _ !! _ = Some _ |- _ => apply held_Some in H
  end.

(** At the write of the goal's [local_set], how the total moves. *)
Ltac total_moves :=
  match goal with
  | |- context [local_total (local_set ?m ?a ?v)] =>
      pose proof (local_total_set m a v)
  end.

(** ** The constant-product market *)

Section AMM.
Import SimpleAMM.

(** The quote, read off a successful run of [_get_amount_out]. *)
Lemma get_amount_out_inv
    (s : state) (amount_in reserve_in reserve_out out : N) :
  _get_amount_out s amount_in reserve_in reserve_out = Ok out ->
  let net := fee_denominator - fee_rate s in
  0 < amount_in /\ 0 < reserve_in /\ 0 < reserve_out /\
  fee_rate s <= fee_denominator /\
  amount_in * net * reserve_out <= uint64_max /\
  reserve_in * fee_denominator + amount_in * net <= uint64_max /\
  out = amount_in * net * reserve_out
        / (reserve_in * fee_denominator + amount_in * net).
Proof.
  unfold _get_amount_out. intros H. run_inv H. bool_facts.
  cbn zeta. repeat split; auto.
Qed.

Lemma get_amount_out_run (s : state) (amount_in reserve_in reserve_out : N) :
  let net := fee_denominator - fee_rate s in
  0 < amount_in -> 0 < reserve_in -> 0 < reserve_out ->
  fee_rate s <= fee_denominator ->
  amount_in * net * reserve_out <= uint64_max ->
  reserve_in * fee_denominator + amount_in * net <= uint64_max ->
  _get_amount_out s amount_in reserve_in reserve_out
  = Ok (amount_in * net * reserve_out
        / (reserve_in * fee_denominator + amount_in * net)).
Proof.
  intros net Hin Hri Hro Hfee Hnum Hden. unfold _get_amount_out.
  assert (amount_in * net <= uint64_max) as Hain by nia.
  assert (reserve_in * fee_denominator <= uint64_max) as Hsc by lia.
  assert (reserve_in * fee_denominator + amount_in * net <> 0) as Hnz
    by (unfold fee_denominator; lia).
  rewrite assert_run by (apply N.ltb_lt; assumption).
  rewrite assert_run
    by (apply andb_true_iff; split; apply N.ltb_lt; assumption).
  rewrite sub64_run by assumption. fold net.
  rewrite mul64_run by assumption.
  rewrite mul64_run by assumption.
  rewrite mul64_run by assumption.
  rewrite add64_run by assumption.
  apply div64_Ok. auto.
Qed.
(** The arithmetic behind the invariant: paying out the floor of the
    fee-adjusted constant-product amount never lowers [x * y]. *)
Lemma product_grows (ra rb ain net out : N) :
  0 < ra -> 0 < rb -> 0 < ain -> net <= 1000 ->
  out = ain * net * rb / (ra * 1000 + ain * net) ->
  out <= rb ->
  ra * rb <= (ra + ain) * (rb - out) /\
  (net < 1000 -> ra * rb < (ra + ain) * (rb - out)).
Proof.
  intros Hra Hrb Hain Hnet Hout Hle.
  set (D := ra * 1000 + ain * net) in *.
  assert (D <> 0) as HD by (unfold D; lia).
  destruct (floor_div_bounds (ain * net * rb) D HD) as [Hq _].
  rewrite <- Hout in Hq.
  assert ((ra + ain) * net <= D) as Hnum by (unfold D; nia).
  assert ((ra + ain) * out * D <= ain * rb * D) as Hscaled.
  { transitivity ((ra + ain) * (ain * net * rb)); [nia|].
    transitivity (ain * rb * ((ra + ain) * net)); [lia|].
    apply N.mul_le_mono_l. exact Hnum. }
  assert ((ra + ain) * out <= ain * rb) as Hpay.
  { apply (N.mul_le_mono_pos_r _ _ D); [lia | exact Hscaled]. }
  split; [nia|].
  intros Hfee.
  assert ((ra + ain) * net < D) as Hnum' by (unfold D; nia).
  assert ((ra + ain) * out * D < ain * rb * D) as Hscaled'.
  { apply N.le_lt_trans with ((ra + ain) * (ain * net * rb)); [nia|].
    replace ((ra + ain) * (ain * net * rb))
      with (ain * rb * ((ra + ain) * net)) by lia.
    apply N.mul_lt_mono_pos_l; [nia | exact Hnum']. }
  assert ((ra + ain) * out < ain * rb) as Hpay'.
  { apply (N.mul_lt_mono_pos_r D); [lia | exact Hscaled']. }
  nia.
Qed.

(** C4, as the code has it.  Whenever the fee rate is at most
    [fee_denominator] and the two intermediate values fit in 64 bits, the
    quote for a positive input against positive reserves is the floor of
    [amount_in*(1000-fee)*reserve_out / (reserve_in*1000 + amount_in*(1000-fee))];
    and every quote the contract does return is that value, computed
    under exactly those conditions. *)
Theorem get_amount_out_formula
    (s : state) (amount_in reserve_in reserve_out out : N) :
  get_amount_out s amount_in reserve_in reserve_out = Ok out <->
  (0 < amount_in /\ 0 < reserve_in /\ 0 < reserve_out /\
   fee_rate s <= fee_denominator /\
   amount_in * (fee_denominator - fee_rate s) * reserve_out <= uint64_max /\
   reserve_in * fee_denominator
     + amount_in * (fee_denominator - fee_rate s) <= uint64_max /\
   out = amount_in * (fee_denominator - fee_rate s) * reserve_out
         / (reserve_in * fee_denominator
            + amount_in * (fee_denominator - fee_rate s))).
Proof.
  unfold get_amount_out. split.
  - intros H. apply get_amount_out_inv in H. exact H.
  - intros (Hin & Hri & Hro & Hfee & Hnum & Hden & ->).
    apply get_amount_out_run; assumption.
Qed.

(** C4 as written fails: five million units quoted against the reserves
    of [deep_pool] overflow the 64-bit numerator, and the call aborts
    instead of quoting 4978795. *)
Lemma get_amount_out_overflow :
  get_amount_out deep_pool 5000000 4000000000 4000000000
  = Err "* overflowed" /\
  5000000 * (1000 - 3) * 4000000000
  / (4000000000 * 1000 + 5000000 * (1000 - 3)) = 4978795 /\
  get_amount_out deep_pool 5000000 4000000000 4000000000 <> Ok 4978795.
Proof.
  split; [vm_compute; reflexivity|].
  split; [vm_compute; reflexivity | vm_compute; discriminate].
Qed.

(** C1.  A swap that completes never lowers the product of the
    reserves, and raises it when the fee rate is not zero. *)
Theorem swap_product_monotone
    (e : env) (amount_in out : N) (s s' : state) :
  swap_a_for_b e amount_in s = Ok (s', out) \/
  swap_b_for_a e amount_in s = Ok (s', out) ->
  0 < reserve_a s /\ 0 < reserve_b s /\
  reserve_a s * reserve_b s <= reserve_a s' * reserve_b s' /\
  (0 < fee_rate s ->
   reserve_a s * reserve_b s < reserve_a s' * reserve_b s').
Proof.
  intros [H | H].
  - unfold swap_a_for_b in H. run_inv H. bool_facts.
    ret_inv. cbn. unfold fee_denominator in *.
    edestruct (product_grows (reserve_a s) (reserve_b s) amount_in
                 (1000 - fee_rate s)) as [Hle Hlt];
      [| | | | reflexivity | eassumption |]; try assumption; [lia|].
    repeat split; try assumption.
    intros Hpos. apply Hlt. lia.
  - unfold swap_b_for_a in H. run_inv H. bool_facts.
    ret_inv. cbn. unfold fee_denominator in *.
    edestruct (product_grows (reserve_b s) (reserve_a s) amount_in
                 (1000 - fee_rate s)) as [Hle Hlt];
      [| | | | reflexivity | eassumption |]; try assumption; [lia|].
    repeat split; try assumption; [lia|].
    intros Hpos. specialize (Hlt ltac:(lia)). lia.
Qed.

(** Shares minted as [floor(a*T/r)] against a reserve [r] redeem, out of
    the reserve [r + a], for no more than [a]. *)
Lemma minted_side_le (r a T L : N) :
  r <> 0 -> T + L <> 0 -> L = a * T / r ->
  L * (r + a) / (T + L) <= a.
Proof.
  intros Hr HT ->.
  destruct (floor_div_bounds (a * T) r Hr) as [Hq _].
  apply N.Div0.div_le_upper_bound. nia.
Qed.


(** What a successful [add_liquidity] did to the pool, by branch. *)
Lemma add_liquidity_inv (e : env) (a b minted : N) (s s1 : state) :
  add_liquidity e a b s = Ok (s1, minted) ->
  let ra := reserve_a s in
  let rb := reserve_b s in
  let T := total_liquidity s in
  (ra = 0 /\ rb = 0 /\
   reserve_a s1 = a /\ reserve_b s1 = b /\ total_liquidity s1 = minted) \/
  (ra <> 0 /\ rb <> 0 /\ a * rb / ra <= b /\
   reserve_a s1 = ra + a /\ reserve_b s1 = rb + a * rb / ra /\
   minted = a * T / ra /\ total_liquidity s1 = T + minted) \/
  (ra <> 0 /\ rb <> 0 /\ b < a * rb / ra /\
   reserve_a s1 = ra + b * ra / rb /\ reserve_b s1 = rb + b /\
   minted = b * T / rb /\ total_liquidity s1 = T + minted).
Proof.
  intros Hadd ra rb T. subst ra rb T.
  unfold add_liquidity in Hadd.
  apply bind_Ok in Hadd as (? & _ & Hadd).
  apply bind_Ok in Hadd as (? & _ & Hadd).
  apply bind_Ok in Hadd as ([s' L] & Hpool & Hdep).
  run_inv Hdep. ret_inv. cbn.
  destruct ((reserve_a s =? 0) && (reserve_b s =? 0)) eqn:Hfirst.
  - left. bool_facts. run_inv Hpool. ret_inv. cbn. auto.
  - right.
    apply bind_Ok in Hpool as (ab & Hab & Hpool). run_inv Hab.
    apply bind_Ok in Hpool as (rqb & Hrqb & Hpool). run_inv Hrqb.
    apply bind_Ok in Hpool as (ba & Hba & Hpool). run_inv Hba.
    apply bind_Ok in Hpool as (rqa & Hrqa & Hpool). run_inv Hrqa.
    apply bind_Ok in Hpool as ([s0 L0] & Hside & Hpool).
    run_inv Hpool. ret_inv. cbn.
    destruct (a * reserve_b s / reserve_a s <=? b) eqn:Hcmp; bool_facts.
    + left. run_inv Hside. ret_inv. cbn. repeat split; auto.
    + right. run_inv Hside. ret_inv. cbn. repeat split; auto.
Qed.

(** What a successful [remove_liquidity] paid out. *)
Lemma remove_liquidity_inv
    (e : env) (shares out_a out_b : N) (s s' : state) :
  remove_liquidity e shares s = Ok (s', (out_a, out_b)) ->
  0 < shares /\ total_liquidity s <> 0 /\
  out_a = shares * reserve_a s / total_liquidity s /\
  out_b = shares * reserve_b s / total_liquidity s /\
  reserve_a s' = reserve_a s - out_a /\
  reserve_b s' = reserve_b s - out_b.
Proof.
  intros Hrem. unfold remove_liquidity in Hrem.
  apply bind_Ok in Hrem as (? & _ & Hrem).
  apply bind_Ok in Hrem as (? & Hpos & Hrem). run_inv Hpos. bool_facts.
  apply bind_Ok in Hrem as (user_liquidity & _ & Hrem).
  apply bind_Ok in Hrem as (? & _ & Hrem).
  apply bind_Ok in Hrem as (la & Hla & Hrem). run_inv Hla.
  apply bind_Ok in Hrem as (oa & Hoa & Hrem). run_inv Hoa.
  apply bind_Ok in Hrem as (lb & Hlb & Hrem). run_inv Hlb.
  apply bind_Ok in Hrem as (ob & Hob & Hrem). run_inv Hob.
  apply bind_Ok in Hrem as (na & Hna & Hrem). run_inv Hna.
  apply bind_Ok in Hrem as (nb & Hnb & Hrem). run_inv Hnb.
  apply bind_Ok in Hrem as (bal & Hbal & Hrem). run_inv Hbal.
  apply bind_Ok in Hrem as (nt & Hnt & Hrem). run_inv Hnt.
  apply bind_Ok in Hrem as (sa & Hsa & Hrem).
  apply bind_Ok in Hrem as (sb & Hsb & Hrem). ret_inv.
  assert (reserve_a sa
          = reserve_a s
            - shares * reserve_a s / total_liquidity s /\
          reserve_b sa
          = reserve_b s
            - shares * reserve_b s / total_liquidity s) as [Ha Hb].
  { apply bind_Ok in Hsa as (da & _ & Hsa).
    destruct (_ <=? _) in Hsa; run_inv Hsa; ret_inv; cbn; auto. }
  assert (reserve_a s' = reserve_a sa /\ reserve_b s' = reserve_b sa)
    as [-> ->].
  { apply bind_Ok in Hsb as (db & _ & Hsb).
    destruct (_ <=? _) in Hsb; run_inv Hsb; ret_inv; cbn; auto. }
  repeat split; auto.
Qed.


(** On the side the pool took in full, what the round trip loses stays
    below one unit plus the reserve a share stood for. *)
Lemma minted_side_loss (r a T L out : N) :
  r <> 0 -> T + L <> 0 -> L = a * T / r -> out = L * (r + a) / (T + L) ->
  (a - out) * (T + L) < r + (T + L).
Proof.
  intros Hr HT HL Hout.
  destruct (floor_div_bounds (a * T) r Hr) as [_ HqL].
  destruct (floor_div_bounds (L * (r + a)) (T + L) HT) as [_ Hqo].
  rewrite <- HL in HqL. rewrite <- Hout in Hqo.
  pose proof (minted_side_le r a T L Hr HT HL) as Hle.
  rewrite <- Hout in Hle.
  nia.
Qed.

Lemma round_trip_loss_bound
    (e e' : env) (a b minted out_a out_b : N) (s s1 s2 : state) :
  add_liquidity e a b s = Ok (s1, minted) ->
  remove_liquidity e' minted s1 = Ok (s2, (out_a, out_b)) ->
  reserve_a s <> 0 ->
  (a * reserve_b s / reserve_a s <= b ->
   (a - out_a) * total_liquidity s1 < reserve_a s + total_liquidity s1) /\
  (b < a * reserve_b s / reserve_a s ->
   (b - out_b) * total_liquidity s1 < reserve_b s + total_liquidity s1).
Proof.
  intros Hadd Hrem Hnz.
  apply add_liquidity_inv in Hadd. cbn zeta in Hadd.
  apply remove_liquidity_inv in Hrem as (Hpos & HT & -> & -> & _ & _).
  destruct Hadd as [(Hra & _)
                   |[(Hra & Hrb & Hcmp & -> & -> & HL & HT1)
                    |(Hra & Hrb & Hcmp & -> & -> & HL & HT1)]];
    [contradiction | |]; rewrite HT1 in *; split; intros Hside; try lia.
  - apply minted_side_loss; auto.
  - apply minted_side_loss; auto.
Qed.

Lemma lopsided_pool_opened :
  initialize (Env 7 0 7) opened_pool ≫= add_liquidity (Env 7 0 7) 10000 1
  = Ok (lopsided_pool, 100).
Proof. vm_compute. reflexivity. Qed.

Lemma even_pool_opened :
  initialize (Env 7 0 7) opened_pool
  ≫= add_liquidity (Env 7 0 7) 1000000 1000000
  = Ok (even_pool, 976562840).
Proof. vm_compute. reflexivity. Qed.

Lemma deep_pool_opened :
  initialize (Env 7 0 7) opened_pool
  ≫= add_liquidity (Env 7 0 7) 4000000000 4000000000
  = Ok (deep_pool, 15625000000000340).
Proof. vm_compute. reflexivity. Qed.

(** An account that holds no deposit record cannot add liquidity, and
    no method writes the record before reading it. *)
Lemma add_liquidity_needs_records (e : env) (a b : N) (s : state) :
  token_a_deposited s !! sender e = None \/
  token_b_deposited s !! sender e = None ->
  forall r, add_liquidity e a b s <> Ok r.
Proof.
  intros Hnone [s' minted] Hadd. unfold add_liquidity in Hadd.
  apply bind_Ok in Hadd as (? & _ & Hadd).
  apply bind_Ok in Hadd as (? & _ & Hadd).
  apply bind_Ok in Hadd as ([s1 L] & Hpool & Hdep).
  apply bind_Ok in Hdep as (ca & Hca & Hdep). apply local_get_Ok in Hca.
  apply bind_Ok in Hdep as (da & _ & Hdep).
  apply bind_Ok in Hdep as (cb & Hcb & Hdep). apply local_get_Ok in Hcb.
  cbn in Hcb.
  assert (token_a_deposited s1 = token_a_deposited s /\
          token_b_deposited s1 = token_b_deposited s) as [Ha Hb].
  { destruct (_ && _) in Hpool.
    - run_inv Hpool. ret_inv. cbn. auto.
    - apply bind_Ok in Hpool as (? & _ & Hpool).
      apply bind_Ok in Hpool as (? & _ & Hpool).
      apply bind_Ok in Hpool as (? & _ & Hpool).
      apply bind_Ok in Hpool as (? & _ & Hpool).
      apply bind_Ok in Hpool as ([s0 L0] & Hside & Hpool).
      run_inv Hpool. ret_inv. cbn.
      destruct (_ <=? _) in Hside; run_inv Hside; ret_inv; cbn; auto. }
  rewrite Ha in Hca. rewrite Hb in Hcb.
  destruct Hnone as [Hn | Hn]; congruence.
Qed.

Lemma get_amount_out_formula_witness :
  get_amount_out even_pool 1000 1000000 1000000 = Ok 996.
Proof.
  apply (get_amount_out_formula even_pool 1000 1000000 1000000 996).
  vm_compute. repeat split; discriminate.
Defined.

Lemma swap_product_monotone_witness :
  1000000 * 1000000 < 1001000 * 999004.
Proof.
  refine (proj2 (proj2 (proj2
    (swap_product_monotone (Env 8 0 7) 1000 996 even_pool
       (set_reserves 1001000 999004 even_pool) _))) _).
  - left. vm_compute. reflexivity.
  - vm_compute. reflexivity.
Defined.



End AMM.

(** ** The splitter *)

Section Splitter.
Import YieldTokenization.

Lemma split_tokens_totals (e : env) (amount maturity : N) (s s' : state) :
  split_tokens e amount maturity s = Ok s' ->
  total_sy s' + amount = total_sy s /\
  total_pt s' = total_pt s + amount /\
  total_yt s' = total_yt s + amount.
Proof.
  unfold split_tokens. intros H.
  apply bind_Ok in H as (? & _ & H).
  apply bind_Ok in H as (? & _ & H).
  apply bind_Ok in H as (? & _ & H).
  apply bind_Ok in H as (? & _ & H).
  apply bind_Ok in H as (sy & Hsy & H). apply local_get_Ok in Hsy.
  apply bind_Ok in H as (? & Hle & H). apply assert_Ok in Hle.
  apply bind_Ok in H as (? & Hsub & H). apply sub64_Ok in Hsub as [-> _].
  apply bind_Ok in H as (pt & Hpt & H). apply local_get_Ok in Hpt.
  apply bind_Ok in H as (? & Hadd & H). apply add64_Ok in Hadd as [-> _].
  apply bind_Ok in H as (yt & Hyt & H). apply local_get_Ok in Hyt.
  apply bind_Ok in H as (? & Hadd & H). apply add64_Ok in Hadd as [-> _].
  ret_inv. cbn in *. bool_facts. held_facts.
  unfold total_sy, total_pt, total_yt. cbn.
  pose proof (local_total_set (user_sy_balance s) (sender e) (sy - amount)).
  pose proof (local_total_set (user_pt_balance s) (sender e) (pt + amount)).
  pose proof (local_total_set (user_yt_balance s) (sender e) (yt + amount)).
  lia.
Qed.

Lemma redeem_tokens_totals (e : env) (amount maturity : N) (s s' : state) :
  redeem_tokens e amount maturity s = Ok s' ->
  total_sy s' = total_sy s + amount /\
  total_pt s' + amount = total_pt s /\
  total_yt s' = total_yt s.
Proof.
  unfold redeem_tokens. intros H.
  apply bind_Ok in H as (? & _ & H).
  apply bind_Ok in H as (? & _ & H).
  apply bind_Ok in H as (? & _ & H).
  apply bind_Ok in H as (pt & Hpt & H). apply local_get_Ok in Hpt.
  apply bind_Ok in H as (? & Hle & H). apply assert_Ok in Hle.
  apply bind_Ok in H as (? & Hsub & H). apply sub64_Ok in Hsub as [-> _].
  apply bind_Ok in H as (sy & Hsy & H). apply local_get_Ok in Hsy.
  apply bind_Ok in H as (? & Hadd & H). apply add64_Ok in Hadd as [-> _].
  ret_inv. cbn in *. bool_facts. held_facts.
  unfold total_sy, total_pt, total_yt. cbn.
  pose proof (local_total_set (user_sy_balance s) (sender e) (sy + amount)).
  pose proof (local_total_set (user_pt_balance s) (sender e) (pt - amount)).
  lia.
Qed.

(** An account that holds no PT or no YT entry cannot split, whatever SY
    it holds, and no method of the contract writes those entries before
    reading them. *)
Lemma split_tokens_needs_entries
    (e : env) (amount maturity : N) (s s' : state) :
  user_pt_balance s !! sender e = None \/
  user_yt_balance s !! sender e = None ->
  split_tokens e amount maturity s <> Ok s'.
Proof.
  intros Hnone H. unfold split_tokens in H.
  apply bind_Ok in H as (? & _ & H).
  apply bind_Ok in H as (? & _ & H).
  apply bind_Ok in H as (? & _ & H).
  apply bind_Ok in H as (? & _ & H).
  apply bind_Ok in H as (sy & _ & H).
  apply bind_Ok in H as (? & _ & H).
  apply bind_Ok in H as (? & _ & H).
  apply bind_Ok in H as (pt & Hpt & H). apply local_get_Ok in Hpt.
  apply bind_Ok in H as (? & _ & H).
  apply bind_Ok in H as (yt & Hyt & H). apply local_get_Ok in Hyt.
  cbn in *. destruct Hnone; congruence.
Qed.

Lemma run_conserves (calls : list (env * call)) :
  forall (s s' : state) (m m' : minted),
    run calls s m = Ok (s', m') ->
    total_sy s' + total_pt s' = total_sy s + total_pt s /\
    (pt_minted m = yt_minted m -> pt_minted m' = yt_minted m').
Proof.
  induction calls as [|[e c] rest IH]; intros s s' m m' Hrun; cbn in Hrun.
  - ret_inv. auto.
  - apply bind_Ok in Hrun as (s1 & Hstep & Hrest).
    apply IH in Hrest as [Hsum Htally].
    destruct c as [amount maturity | amount maturity]; cbn in *.
    + apply split_tokens_totals in Hstep as (Hsy & Hpt & Hyt).
      split; [lia|]. intros Heq. apply Htally. lia.
    + apply redeem_tokens_totals in Hstep as (Hsy & Hpt & Hyt).
      split; [lia|]. exact Htally.
Qed.

(** C2.  Along every sequence of successful [split_tokens] and
    [redeem_tokens] calls the sum of all SY balances plus the sum of all
    PT balances stays what it was, each split mints [amount] of PT and
    the same [amount] of YT, and so the PT minted so far equals the YT
    minted so far. *)
Theorem split_redeem_conservation
    (calls : list (env * call)) (s s' : state) (m : minted) :
  run calls s (Minted 0 0) = Ok (s', m) ->
  total_sy s' + total_pt s' = total_sy s + total_pt s /\
  pt_minted m = yt_minted m /\
  (forall e amount maturity s0 s1,
      split_tokens e amount maturity s0 = Ok s1 ->
      total_pt s1 - total_pt s0 = amount /\
      total_yt s1 - total_yt s0 = amount).
Proof.
  intros Hrun. apply run_conserves in Hrun as [Hsum Htally].
  split; [exact Hsum|]. split; [apply Htally; reflexivity|].
  intros e amount maturity s0 s1 Hsplit.
  apply split_tokens_totals in Hsplit. lia.
Qed.

Lemma split_redeem_conservation_witness :
  let alice := Env 5 1000 1 in
  let later := Env 5 5000 1 in
  let s := State 1 "SY" "SY" 0 1 "" {[5 := 100]} {[5 := 0]} {[5 := 0]} in
  let s' := State 1 "SY" "SY" 0 1 "" {[5 := 70]} {[5 := 30]} {[5 := 40]} in
  total_sy s' + total_pt s' = total_sy s + total_pt s.
Proof.
  intros alice later s s'.
  refine (proj1 (split_redeem_conservation
                   [(alice, SplitTokens 40 4000);
                    (later, RedeemTokens 10 4000)]
                   s s' (Minted 40 40) _)).
  vm_compute. reflexivity.
Defined.

End Splitter.

(** ** The token ledger *)

Section Ledger.
Import PTToken.

Lemma mint_keeps_supply (e : env) (to : address) (amount : N) (s s' : state) :
  mint e to amount s = Ok s' ->
  total_balance s = total_supply s ->
  total_balance s' = total_supply s'.
Proof.
  unfold mint. intros H Hinv.
  apply bind_Ok in H as (? & _ & H).
  apply bind_Ok in H as (? & _ & H).
  apply bind_Ok in H as (? & Hadd & H). apply add64_Ok in Hadd as [-> _].
  apply bind_Ok in H as (bal & Hbal & H). apply local_get_Ok in Hbal.
  apply bind_Ok in H as (? & Hadd & H). apply add64_Ok in Hadd as [-> _].
  ret_inv. cbn in *. held_facts.
  unfold total_balance in *. cbn.
  pose proof (local_total_set (balance s) (sender e) (bal + amount)).
  lia.
Qed.

Lemma burn_keeps_supply (e : env) (amount : N) (s s' : state) :
  burn e amount s = Ok s' ->
  total_balance s = total_supply s ->
  total_balance s' = total_supply s'.
Proof.
  unfold burn. intros H Hinv.
  apply bind_Ok in H as (? & _ & H).
  apply bind_Ok in H as (bal & Hbal & H). apply local_get_Ok in Hbal.
  apply bind_Ok in H as (? & Hle & H). apply assert_Ok in Hle.
  apply bind_Ok in H as (? & Hsub & H). apply sub64_Ok in Hsub as [-> _].
  apply bind_Ok in H as (? & Hsub & H). apply sub64_Ok in Hsub as [-> Hcov].
  ret_inv. cbn in *. bool_facts. held_facts.
  unfold total_balance in *. cbn in *.
  pose proof (local_total_set (balance s) (sender e) (bal - amount)).
  lia.
Qed.

(** A [transfer] takes [amount] out of the balances and leaves
    [total_supply] alone. *)
Lemma transfer_loses_amount
    (e : env) (to : address) (amount : N) (s s' : state) :
  transfer e to amount s = Ok s' ->
  0 < amount /\
  total_balance s' + amount = total_balance s /\
  total_supply s' = total_supply s /\
  held (balance s') to
  = if decide (sender e = to)
    then held (balance s) to - amount
    else held (balance s) to.
Proof.
  unfold transfer. intros H.
  apply bind_Ok in H as (? & Hpos & H). apply assert_Ok in Hpos.
  apply bind_Ok in H as (bal & Hbal & H). apply local_get_Ok in Hbal.
  apply bind_Ok in H as (? & Hle & H). apply assert_Ok in Hle.
  apply bind_Ok in H as (? & Hsub & H). apply sub64_Ok in Hsub as [-> _].
  ret_inv. bool_facts. held_facts.
  unfold total_balance. cbn.
  pose proof (local_total_set (balance s) (sender e) (bal - amount)).
  repeat split; [assumption | lia |].
  case_decide as Hto.
  - subst to. rewrite held_set. congruence.
  - apply held_set_ne. exact Hto.
Qed.

Lemma transfer_from_loses_amount
    (e : env) (from_addr to : address) (amount : N) (s s' : state) :
  transfer_from e from_addr to amount s = Ok s' ->
  0 < amount /\
  total_balance s' + amount = total_balance s /\
  total_supply s' = total_supply s.
Proof.
  unfold transfer_from. intros H.
  apply bind_Ok in H as (? & Hpos & H). apply assert_Ok in Hpos.
  apply bind_Ok in H as (allow & _ & H).
  apply bind_Ok in H as (? & _ & H).
  apply bind_Ok in H as (bal & Hbal & H). apply local_get_Ok in Hbal.
  apply bind_Ok in H as (? & Hle & H). apply assert_Ok in Hle.
  apply bind_Ok in H as (? & Hsub & H). apply sub64_Ok in Hsub as [-> _].
  apply bind_Ok in H as (? & Hsub & H). apply sub64_Ok in Hsub as [-> _].
  ret_inv. bool_facts. held_facts.
  unfold total_balance. cbn.
  pose proof (local_total_set (balance s) (sender e) (bal - amount)).
  repeat split; [assumption | lia].
Qed.

(** An account that holds no balance entry can neither receive a mint
    nor burn or transfer, and no method writes the entry before reading
    it: on a ledger where nobody holds one, no operation of the claim
    ever succeeds. *)
Lemma ledger_needs_balance_entry (e : env) (c : call) (s s' : state) :
  balance s !! sender e = None -> step e c s <> Ok s'.
Proof.
  intros Hnone H. destruct c as [to amount|amount|to amount|f to amount];
    cbn in H.
  - unfold mint in H.
    apply bind_Ok in H as (? & _ & H). apply bind_Ok in H as (? & _ & H).
    apply bind_Ok in H as (? & _ & H).
    apply bind_Ok in H as (bal & Hbal & H). apply local_get_Ok in Hbal.
    cbn in Hbal. congruence.
  - unfold burn in H.
    apply bind_Ok in H as (? & _ & H).
    apply bind_Ok in H as (bal & Hbal & H). apply local_get_Ok in Hbal.
    congruence.
  - unfold transfer in H.
    apply bind_Ok in H as (? & _ & H).
    apply bind_Ok in H as (bal & Hbal & H). apply local_get_Ok in Hbal.
    congruence.
  - unfold transfer_from in H.
    apply bind_Ok in H as (? & _ & H). apply bind_Ok in H as (? & _ & H).
    apply bind_Ok in H as (? & _ & H).
    apply bind_Ok in H as (bal & Hbal & H). apply local_get_Ok in Hbal.
    congruence.
Qed.

End Ledger.

(** ** The staking engine *)

Section Staking.
Import StakingDapp.



(** An account that holds no stake entry cannot stake, and no method
    writes the entry before reading it. *)
Lemma stake_needs_entry (e : env) (amount : N) (s s' : state) :
  staked_amount s !! sender e = None -> stake e amount s <> Ok s'.
Proof.
  intros Hnone H. unfold stake, _update_rewards in H.
  apply bind_Ok in H as (? & _ & H). apply bind_Ok in H as (? & _ & H).
  apply bind_Ok in H as (s1 & Hup & _).
  apply bind_Ok in Hup as (p & Hp & _).
  unfold _calculate_reward_internal in Hp.
  apply bind_Ok in Hp as (st & Hst & _). apply local_get_Ok in Hst.
  congruence.
Qed.




Lemma update_rewards_frame (e : env) (s s1 : state) :
  _update_rewards e s = Ok s1 ->
  staked_amount s1 = staked_amount s /\ total_staked s1 = total_staked s.
Proof.
  unfold _update_rewards. intros H.
  apply bind_Ok in H as (pending & _ & H).
  apply bind_Ok in H as (s0 & Hsettle & H). ret_inv. cbn.
  destruct (0 <? pending); run_inv Hsettle; ret_inv; auto.
Qed.

Lemma step_keeps_accounting (e : env) (c : call) (s s' : state) :
  (forall name symbol, c <> Initialize name symbol) ->
  step e c s = Ok s' -> staked_accounted s -> staked_accounted s'.
Proof.
  unfold staked_accounted. intros Hc Hstep Hinv.
  destruct c; cbn in Hstep.
  - exfalso. eapply Hc. reflexivity.
  - unfold stake in Hstep.
    apply bind_Ok in Hstep as (? & _ & Hstep).
    apply bind_Ok in Hstep as (? & _ & Hstep).
    apply bind_Ok in Hstep as (s1 & Hup & Hstep).
    apply update_rewards_frame in Hup as [Hmap Htot].
    run_inv Hstep. ret_inv. cbn in *. rewrite Hmap, Htot in *.
    held_facts. total_moves. lia.
  - unfold unstake in Hstep.
    apply bind_Ok in Hstep as (? & _ & Hstep).
    apply bind_Ok in Hstep as (? & _ & Hstep).
    apply bind_Ok in Hstep as (staked & Hst & Hstep).
    apply local_get_Ok in Hst.
    apply bind_Ok in Hstep as (? & Hle & Hstep). run_inv Hle. bool_facts.
    apply bind_Ok in Hstep as (s1 & Hup & Hstep).
    apply update_rewards_frame in Hup as [Hmap Htot].
    run_inv Hstep. ret_inv. cbn in *. rewrite Hmap, Htot in *.
    held_facts. total_moves. lia.
  - unfold claim_rewards in Hstep.
    apply bind_Ok in Hstep as (? & _ & Hstep).
    apply bind_Ok in Hstep as (s1 & Hup & Hstep).
    apply update_rewards_frame in Hup as [Hmap Htot].
    run_inv Hstep. ret_inv. cbn. congruence.
  - unfold compound_rewards in Hstep.
    apply bind_Ok in Hstep as (? & _ & Hstep).
    apply bind_Ok in Hstep as (s1 & Hup & Hstep).
    apply update_rewards_frame in Hup as [Hmap Htot].
    run_inv Hstep. ret_inv. cbn in *. rewrite Hmap, Htot in *.
    held_facts. total_moves. lia.
  - unfold update_reward_parameters in Hstep. run_inv Hstep. ret_inv.
    exact Hinv.
  - unfold emergency_withdraw in Hstep. run_inv Hstep. ret_inv. cbn in *.
    held_facts. total_moves. lia.
  - unfold pause_staking in Hstep. run_inv Hstep. ret_inv. exact Hinv.
  - unfold unpause_staking in Hstep. run_inv Hstep. ret_inv. exact Hinv.
Qed.

(** As long as [initialize] is not called again, every history keeps
    [total_staked] equal to the sum of the stakes. *)
Lemma play_keeps_accounting (calls : list (env * call)) :
  forall s : state,
    Forall (fun ec => forall name symbol, ec.2 <> Initialize name symbol)
           calls ->
    staked_accounted s -> staked_accounted (play calls s).
Proof.
  induction calls as [|[e c] rest IH]; intros s Hcalls Hinv; [exact Hinv|].
  apply Forall_cons in Hcalls as [Hc Hrest].
  unfold play. cbn. apply IH; [exact Hrest|].
  destruct (step e c s) as [s'|msg] eqn:Hstep; cbn; [|exact Hinv].
  eapply step_keeps_accounting; eauto.
Qed.

(** [initialize] accounts for the stakes only where they add up to 0. *)
Lemma initialized_accounted
    (e : env) (name symbol : string) (s0 s : state) :
  local_total (staked_amount s0) = 0 ->
  initialize e name symbol s0 = Ok s -> staked_accounted s.
Proof.
  unfold initialize. intros Hzero H. run_inv H. ret_inv.
  unfold staked_accounted. cbn. symmetry. exact Hzero.
Qed.

(** Where [total_staked] accounts for every stake it covers each of them. *)
Lemma accounted_covers_stake (s : state) (u : address) :
  staked_accounted s -> held (staked_amount s) u <= total_staked s.
Proof.
  unfold staked_accounted. intros ->. apply held_le_total.
Qed.

(** Where it does not cover the sender's stake the withdrawal aborts. *)
Lemma emergency_withdraw_underflow (e : env) (s : state) :
  total_staked s < held (staked_amount s) (sender e) ->
  emergency_withdraw e s = Err "- would result negative".
Proof.
  intros Hshort. unfold emergency_withdraw.
  rewrite (local_get_run _ _ (held (staked_amount s) (sender e)))
    by (apply held_positive; lia).
  rewrite assert_run by (apply N.ltb_lt; lia).
  cbn. unfold sub64. apply N.leb_gt in Hshort as ->. reflexivity.
Qed.




End Staking.

(** ** The price oracle *)

Section Oracle.
Import PriceOracle.

(** C6.  With a positive stored price, [get_price] aborts at every time
    after [price_timestamp + staleness_threshold] and returns the stored
    price at exactly that time.  The clock is a [UInt64]. *)
Theorem get_price_staleness (e : env) (s : state) :
  0 < token_price s ->
  latest_timestamp e <= uint64_max ->
  (price_timestamp s + staleness_threshold < latest_timestamp e ->
   get_price e s = Err "Price is stale") /\
  (latest_timestamp e = price_timestamp s + staleness_threshold ->
   get_price e s = Ok (token_price s)).
Proof.
  intros Hprice Hclock. unfold get_price.
  rewrite assert_run by (apply N.ltb_lt; exact Hprice).
  split.
  - intros Hlate. rewrite add64_run by lia.
    apply N.leb_gt in Hlate as ->. reflexivity.
  - intros Hedge. rewrite add64_run by lia.
    rewrite assert_run by (apply N.leb_le; lia). reflexivity.
Qed.

Lemma get_price_staleness_witness :
  let s := State 1 0 0 1 250 1000 9000 1 0 0 0 {[1 := 1]} in
  get_price (Env 9 4601 1) s = Err "Price is stale" /\
  get_price (Env 9 4600 1) s = Ok 250.
Proof.
  intros s. split.
  - apply (get_price_staleness (Env 9 4601 1) s);
      vm_compute; try reflexivity; discriminate.
  - apply (get_price_staleness (Env 9 4600 1) s);
      vm_compute; try reflexivity; discriminate.
Defined.

(** Whatever the clock, a time past the expiry never yields a price. *)
Lemma get_price_stale_fails (e : env) (s : state) (p : N) :
  price_timestamp s + staleness_threshold < latest_timestamp e ->
  get_price e s <> Ok p.
Proof.
  intros Hlate H. unfold get_price in H. run_inv H. bool_facts. lia.
Qed.
End Oracle.

(** ** The auto-converter *)

Section Converter.
Import YTAutoConverter.

Ltac fields :=
  cbn [admin oracle_address tokenization_address amm_address
       conversion_fee is_paused total_conversions conversion_enabled
       threshold_price user_maturity conversion_executed yt_balance
       pt_balance set_globals set_conversion_enabled set_threshold_price
       set_user_maturity set_conversion_executed set_yt_balance
       set_pt_balance configured converted
       sender latest_timestamp creator_address] in *.


Lemma configure_conversion_inv
    (e : env) (enabled threshold maturity : N) (s s' : state) :
  configure_conversion e enabled threshold maturity s = Ok s' ->
  0 < threshold /\
  s' = configured (sender e) enabled threshold maturity s.
Proof.
  unfold configure_conversion. intros H. run_inv H. bool_facts. ret_inv.
  auto.
Qed.





(** An account that holds no YT entry cannot deposit, and one that holds
    no PT entry cannot convert; no method writes either entry before
    reading it. *)
Lemma converter_needs_entries
    (e : env) (user : address) (amount min_pt_amount deadline : N)
    (s s' : state) :
  (yt_balance s !! sender e = None ->
   deposit_yt_tokens e amount s <> Ok s') /\
  (pt_balance s !! sender e = None ->
   execute_conversion e user min_pt_amount deadline s <> Ok s').
Proof.
  split; intros Hnone H.
  - unfold deposit_yt_tokens in H.
    apply bind_Ok in H as (? & _ & H).
    apply bind_Ok in H as (yt & Hyt & _). apply local_get_Ok in Hyt.
    congruence.
  - unfold execute_conversion in H.
    do 14 (apply bind_Ok in H as (? & _ & H)).
    apply bind_Ok in H as (pt & Hpt & _). apply local_get_Ok in Hpt.
    cbn in Hpt. congruence.
Qed.


(** What a successful [execute_conversion] has checked and written. *)
Lemma execute_conversion_inv
    (e : env) (user : address) (min_pt_amount deadline : N) (s s' : state) :
  execute_conversion e user min_pt_amount deadline s = Ok s' ->
  let u := sender e in
  let yt := held (yt_balance s) u in
  let fee_amount := yt * conversion_fee s / fee_denominator in
  let received := (yt - fee_amount) * 9950 / 10000 in
  is_paused s = 0 /\
  conversion_enabled s !! u = Some 1 /\
  conversion_executed s !! u = Some 0 /\
  0 < held (threshold_price s) u /\
  yt_balance s !! u = Some yt /\ 0 < yt /\
  (exists pt, pt_balance s !! u = Some pt) /\
  yt * conversion_fee s <= uint64_max /\ fee_amount <= yt /\
  (yt - fee_amount) * 9950 <= uint64_max /\
  min_pt_amount <= received /\
  s' = converted u received s.
Proof.
  unfold execute_conversion. intros H. cbn zeta.
  apply bind_Ok in H as (? & Hp & H). apply assert_Ok in Hp.
  apply bind_Ok in H as (? & Hd & H). apply assert_Ok in Hd.
  apply bind_Ok in H as (en & Hen & H). apply local_get_Ok in Hen.
  apply bind_Ok in H as (? & Hen1 & H). apply assert_Ok in Hen1.
  apply bind_Ok in H as (ex & Hex & H). apply local_get_Ok in Hex.
  apply bind_Ok in H as (? & Hex0 & H). apply assert_Ok in Hex0.
  apply bind_Ok in H as (th & Hth & H). apply local_get_Ok in Hth.
  apply bind_Ok in H as (? & Hthpos & H). apply assert_Ok in Hthpos.
  apply bind_Ok in H as (yt & Hyt & H). apply local_get_Ok in Hyt.
  apply bind_Ok in H as (? & Hytpos & H). apply assert_Ok in Hytpos.
  apply bind_Ok in H as (scaled & Hmul & H).
  apply mul64_Ok in Hmul as [-> Hfit].
  apply bind_Ok in H as (fee & Hdiv & H).
  apply div64_Ok in Hdiv as [-> _].
  apply bind_Ok in H as (conv & Hsub & H).
  apply sub64_Ok in Hsub as [-> Hle].
  apply bind_Ok in H as (received & Hmarket & H).
  unfold _perform_market_conversion in Hmarket.
  apply bind_Ok in Hmarket as (scaled & Hmul & Hmarket).
  apply mul64_Ok in Hmul as [-> Hfit'].
  apply bind_Ok in Hmarket as (rate & Hdiv & Hmarket).
  apply div64_Ok in Hdiv as [-> _].
  apply bind_Ok in Hmarket as (? & Hmin & Hmarket). apply assert_Ok in Hmin.
  unfold mret, result_ret in Hmarket. injection Hmarket as <-.
  apply bind_Ok in H as (pt & Hpt & H). apply local_get_Ok in Hpt.
  cbn in Hpt.
  apply bind_Ok in H as (pt' & Hadd & H).
  apply add64_Ok in Hadd as [-> _].
  apply bind_Ok in H as (n & Hadd & H).
  apply add64_Ok in Hadd as [-> _].
  unfold mret, result_ret in H. injection H as <-.
  bool_facts. subst en ex.
  rewrite (held_Some _ _ _ Hyt), (held_Some _ _ _ Hth).
  unfold converted. rewrite (held_Some _ _ _ Hpt).
  repeat (split; [first [assumption | eauto]|]). reflexivity.
Qed.






(** The conversion of the running example goes through for any
    [min_pt_amount] up to 992 and stops above that. *)
Lemma conversion_output_bound (e : env) (user min_pt_amount deadline : N) :
  let s := set_yt_balance 5 1000 (configured 5 1 100 500 ready) in
  sender e = 5 ->
  latest_timestamp e <= deadline -> 992 < min_pt_amount ->
  execute_conversion e user min_pt_amount deadline s
  = Err "Insufficient output amount".
Proof.
  intros s Hu Hdl Hmin. unfold execute_conversion. rewrite Hu.
  rewrite assert_run by reflexivity.
  rewrite assert_run by (apply N.leb_le; exact Hdl).
  unfold s. fields.
  rewrite (local_get_run _ _ 1) by apply lookup_set.
  rewrite assert_run by reflexivity.
  rewrite (local_get_run _ _ 0) by apply lookup_set.
  rewrite assert_run by reflexivity.
  rewrite (local_get_run _ _ 100) by apply lookup_set.
  rewrite assert_run by reflexivity.
  rewrite (local_get_run _ _ 1000) by apply lookup_set.
  rewrite assert_run by reflexivity.
  rewrite mul64_run by (vm_compute; discriminate).
  rewrite div64_run by discriminate.
  rewrite sub64_run by (vm_compute; discriminate).
  unfold _perform_market_conversion.
  rewrite mul64_run by (vm_compute; discriminate).
  rewrite div64_run by discriminate.
  change ((1000 - 1000 * conversion_fee ready / fee_denominator)
          * 9950 / 10000) with 992.
  apply N.leb_gt in Hmin as ->. reflexivity.
Qed.

(** No step after the threshold check reports "Threshold not reached". *)
Ltac not_this_error H :=
  repeat match type of H with
  | _ ≫= _ = Err _ => apply bind_Err in H as [H | (? & _ & H)]
  end;
  first [ apply mul64_Err in H | apply div64_Err in H
        | apply sub64_Err in H | apply add64_Err in H
        | apply assert_Err in H as [_ H]
        | apply local_get_Err in H as [_ H] | idtac ];
  discriminate.

(** The check that reports "Threshold not reached" is the test
    [threshold_price[sender] > 0] and nothing else. *)
Lemma threshold_check_exact
    (e : env) (user : address) (min_pt_amount deadline : N) (s : state) :
  execute_conversion e user min_pt_amount deadline s
  = Err "Threshold not reached" <->
  is_paused s = 0 /\ latest_timestamp e <= deadline /\
  conversion_enabled s !! sender e = Some 1 /\
  conversion_executed s !! sender e = Some 0 /\
  threshold_price s !! sender e = Some 0.
Proof.
  unfold execute_conversion. split.
  - intros H.
    destruct (is_paused s =? 0) eqn:Hp; [|discriminate].
    destruct (latest_timestamp e <=? deadline) eqn:Hd; [|discriminate].
    rewrite !assert_run in H by reflexivity.
    apply local_get_bind_Err in H as (en & Hen & H); [|discriminate].
    destruct (en =? 1) eqn:Hen1; [|discriminate].
    rewrite assert_run in H by reflexivity.
    apply local_get_bind_Err in H as (ex & Hex & H); [|discriminate].
    destruct (ex =? 0) eqn:Hex0; [|discriminate].
    rewrite assert_run in H by reflexivity.
    apply local_get_bind_Err in H as (th & Hth & H); [|discriminate].
    bool_facts. subst en ex.
    destruct (0 <? th) eqn:Hpos;
      [|bool_facts; assert (th = 0) as -> by lia; auto 10].
    exfalso. rewrite assert_run in H by reflexivity.
    unfold _perform_market_conversion in H.
    not_this_error H.
  - intros (Hp & Hd & Hen & Hex & Hth).
    rewrite assert_run by (apply N.eqb_eq; exact Hp).
    rewrite assert_run by (apply N.leb_le; exact Hd).
    rewrite (local_get_run _ _ _ _ Hen). rewrite assert_run by reflexivity.
    rewrite (local_get_run _ _ _ _ Hex). rewrite assert_run by reflexivity.
    rewrite (local_get_run _ _ _ _ Hth). reflexivity.
Qed.

(** No method lowers a positive threshold: [configure_conversion] is the
    only writer of [threshold_price], and it writes positive values. *)
Lemma step_keeps_threshold (e : env) (c : call) (u : address) (s s' : state) :
  step e c s = Ok s' ->
  0 < held (threshold_price s) u ->
  0 < held (threshold_price s') u.
Proof.
  intros Hstep Hth. destruct c; cbn in Hstep.
  - unfold initialize in Hstep. run_inv Hstep. ret_inv. exact Hth.
  - apply configure_conversion_inv in Hstep as [Hpos ->].
    unfold configured. fields.
    destruct (decide (sender e = u)) as [<- | Hne].
    + rewrite held_set. exact Hpos.
    + rewrite held_set_ne by exact Hne. exact Hth.
  - unfold deposit_yt_tokens in Hstep. run_inv Hstep. ret_inv. exact Hth.
  - apply execute_conversion_inv in Hstep.
    destruct Hstep as (_ & _ & _ & _ & _ & _ & _ & _ & _ & _ & _ & ->).
    exact Hth.
  - unfold add_maturity in Hstep. run_inv Hstep. ret_inv. exact Hth.
  - unfold remove_maturity in Hstep. ret_inv. exact Hth.
  - unfold set_conversion_fee in Hstep. run_inv Hstep. ret_inv. exact Hth.
  - unfold pause_converter in Hstep. run_inv Hstep. ret_inv. exact Hth.
  - unfold unpause_converter in Hstep. run_inv Hstep. ret_inv. exact Hth.
  - unfold emergency_disable_conversion in Hstep. ret_inv. exact Hth.
  - unfold withdraw_pt_tokens in Hstep. run_inv Hstep. ret_inv. exact Hth.
  - unfold update_addresses in Hstep. run_inv Hstep. ret_inv. exact Hth.
Qed.

Lemma protocol_step_keeps_threshold
    (e : env) (c : Protocol.call) (u : address) (w w' : Protocol.world) :
  Protocol.step e c w = Ok w' ->
  0 < held (threshold_price (Protocol.converter w)) u ->
  0 < held (threshold_price (Protocol.converter w')) u.
Proof.
  intros Hstep Hth. destruct c; cbn in Hstep;
    apply bind_Ok in Hstep as (x & Hx & Hret); ret_inv; cbn;
    [exact Hth | exact Hth |].
  eapply step_keeps_threshold; eauto.
Qed.

Lemma protocol_play_keeps_threshold
    (calls : list (env * Protocol.call)) (u : address) :
  forall w : Protocol.world,
    0 < held (threshold_price (Protocol.converter w)) u ->
    0 < held
          (threshold_price (Protocol.converter (Protocol.play calls w))) u.
Proof.
  induction calls as [|[e c] rest IH]; intros w Hth; [exact Hth|].
  unfold Protocol.play. cbn. apply IH.
  destruct (Protocol.step e c w) as [w'|msg] eqn:Hstep; cbn; [|exact Hth].
  eapply protocol_step_keeps_threshold; eauto.
Qed.

(** A transaction to the converter runs the converter's method on the
    converter's state: the oracle's state is neither read nor written. *)
Lemma converter_call_ignores_oracle
    (e : env) (c : call) (o : PriceOracle.state) (k : state) :
  Protocol.outcome (Protocol.step e (Protocol.ToConverter c)
                      (Protocol.World o k))
  = step e c k /\
  forall w',
    Protocol.step e (Protocol.ToConverter c) (Protocol.World o k) = Ok w' ->
    Protocol.oracle w' = o.
Proof.
  cbn. destruct (step e c k) as [k'|msg]; cbn; split;
    try reflexivity; intros w' H; [ret_inv; reflexivity | discriminate].
Qed.

(** C10.  [execute_conversion] takes no oracle state: its outcome is the
    same whatever the oracle holds.  It reports "Threshold not reached"
    exactly when the checks before pass and the sender's stored
    [threshold_price] is 0.  And once a caller has completed
    [configure_conversion], no history of oracle updates and converter
    calls brings that report back for that caller. *)
Theorem threshold_check_never_fails
    (e0 e : env) (enabled threshold maturity : N)
    (k0 k1 : state) (o0 : PriceOracle.state)
    (history : list (env * Protocol.call))
    (user : address) (min_pt_amount deadline : N) :
  configure_conversion e0 enabled threshold maturity k0 = Ok k1 ->
  sender e = sender e0 ->
  let w := Protocol.play history (Protocol.World o0 k1) in
  let attempt := Protocol.ToConverter
                   (ExecuteConversion user min_pt_amount deadline) in
  0 < held (threshold_price (Protocol.converter w)) (sender e) /\
  (forall o o' : PriceOracle.state,
      Protocol.outcome
        (Protocol.step e attempt (Protocol.World o (Protocol.converter w)))
      = Protocol.outcome
          (Protocol.step e attempt
             (Protocol.World o' (Protocol.converter w)))) /\
  (forall o : PriceOracle.state,
      Protocol.step e attempt (Protocol.World o (Protocol.converter w))
      <> Err "Threshold not reached") /\
  (forall s : state,
      execute_conversion e user min_pt_amount deadline s
      = Err "Threshold not reached" <->
      is_paused s = 0 /\ latest_timestamp e <= deadline /\
      conversion_enabled s !! sender e = Some 1 /\
      conversion_executed s !! sender e = Some 0 /\
      threshold_price s !! sender e = Some 0).
Proof.
  intros Hconf Hsender w attempt.
  assert (0 < held (threshold_price (Protocol.converter w)) (sender e))
    as Hth.
  { apply protocol_play_keeps_threshold. cbn.
    apply configure_conversion_inv in Hconf as [Hpos ->].
    unfold configured. fields. rewrite Hsender, held_set. exact Hpos. }
  split; [exact Hth|]. split; [|split].
  - intros o o'. unfold attempt.
    rewrite (proj1 (converter_call_ignores_oracle e _ o _)).
    rewrite (proj1 (converter_call_ignores_oracle e _ o' _)). reflexivity.
  - intros o Hfail.
    assert (step e (ExecuteConversion user min_pt_amount deadline)
              (Protocol.converter w) = Err "Threshold not reached")
      as Hk.
    { rewrite <- (proj1 (converter_call_ignores_oracle e _ o _)).
      fold attempt. rewrite Hfail. reflexivity. }
    cbn in Hk. apply threshold_check_exact in Hk.
    destruct Hk as (_ & _ & _ & _ & Hzero).
    apply held_Some in Hzero. lia.
  - intros s. apply threshold_check_exact.
Qed.

Lemma threshold_check_never_fails_witness :
  let stale_oracle := PriceOracle.State 1 0 0 1 0 0 0 0 0 0 0 ∅ in
  Protocol.step (Env 5 30 1)
    (Protocol.ToConverter (ExecuteConversion 5 0 100))
    (Protocol.World stale_oracle
       (Protocol.converter
          (Protocol.play [(Env 5 20 1,
                           Protocol.ToConverter (DepositYtTokens 1000))]
             (Protocol.World stale_oracle (configured 5 1 100 500 ready)))))
  <> Err "Threshold not reached".
Proof.
  intros stale_oracle.
  apply (threshold_check_never_fails (Env 5 10 1) (Env 5 30 1) 1 100 500
           ready (configured 5 1 100 500 ready) stale_oracle
           [(Env 5 20 1, Protocol.ToConverter (DepositYtTokens 1000))]
           5 0 100).
  - vm_compute. reflexivity.
  - reflexivity.
Defined.

(** The oracle holds no price at all, its own [threshold_reached] answers
    0, and the conversion goes through all the same. *)
Lemma conversion_without_price :
  let oracle := PriceOracle.State 1 0 0 1 0 0 0 0 0 0 0 ∅ in
  let k := set_yt_balance 5 1000 (configured 5 1 100 500 ready) in
  PriceOracle.threshold_reached (Env 5 30 1) oracle = Ok 0 /\
  PriceOracle.get_price (Env 5 30 1) oracle = Err "No price available" /\
  Protocol.outcome
    (Protocol.step (Env 5 30 1)
       (Protocol.ToConverter (ExecuteConversion 5 0 100))
       (Protocol.World oracle k))
  = Ok (converted 5 992 k).
Proof.
  intros oracle k.
  split; [vm_compute; reflexivity|].
  split; vm_compute; reflexivity.
Qed.

End Converter.

(** * Further properties of the contracts *)

(** ** The market: square root, swaps, shares *)

Section Market.
Import SimpleAMM.

(** Two numbers with a sum of at most [2 * r] have a product of at most
    [r * r]. *)
Lemma product_under_half_sum (a b r : N) :
  a + b <= 2 * r -> a * b <= r * r.
Proof.
  intros Hsum.
  assert (forall u v, u <= v -> u + v <= 2 * r -> u * v <= r * r) as Hord.
  { intros u v Huv Huvr.
    assert (exists d, v = u + d) as [d ->] by (exists (v - u); lia).
    assert ((2 * u + d) * (2 * u + d) <= (2 * r) * (2 * r)) as Hsq
      by (apply N.mul_le_mono; lia).
    nia. }
  destruct (N.le_ge_cases a b) as [Hab | Hba].
  - apply Hord; assumption.
  - rewrite N.mul_comm. apply Hord; [assumption | lia].
Qed.

(** One Newton step from any positive [y] stays at or above every [r]
    whose square fits under [x]. *)
Lemma newton_step_ge (x y r : N) :
  y <> 0 -> r * r <= x -> r <= (x / y + y) / 2.
Proof.
  intros Hy Hr.
  destruct (floor_div_bounds x y Hy) as [_ Hq].
  apply N.div_le_lower_bound; [discriminate|].
  destruct (N.le_gt_cases (2 * r) (x / y + y)) as [Hok | Hlow];
    [exact Hok | exfalso].
  set (q := x / y) in *.
  assert (y * (q + 1) <= r * r) as Hprod
    by (apply product_under_half_sum; lia).
  lia.
Qed.

(** For a positive [y] no larger than [x], [x / y + y] stays within
    [x + 1]. *)
Lemma newton_sum_le (x y : N) :
  y <> 0 -> y <= x -> x / y + y <= x + 1.
Proof.
  intros Hy Hle.
  destruct (floor_div_bounds x y Hy) as [Hq _].
  assert (1 <= x / y) as Hone
    by (apply N.div_le_lower_bound; [exact Hy | lia]).
  nia.
Qed.

Lemma sqrt_loop_spec (fuel : nat) (x : N) :
  forall z y : N,
    0 < x -> x < uint64_max ->
    y <> 0 -> y <= x -> z <> 0 -> z <= x ->
    (forall r, r * r <= x -> r <= z) ->
    (forall r, r * r <= x -> r <= y) ->
    exists root,
      sqrt_loop fuel x z y = Ok root /\ root <> 0 /\ root <= x /\
      forall r, r * r <= x -> r <= root.
Proof.
  induction fuel as [|fuel IH]; intros z y Hx Hmax Hy Hyx Hz Hzx Hrz Hry;
    cbn [sqrt_loop].
  - exists z. auto.
  - destruct (y <? z) eqn:Hlt; [|exists z; auto].
    pose proof (newton_sum_le x y Hy Hyx) as Hsum.
    rewrite div64_run by exact Hy.
    rewrite add64_run by lia.
    rewrite div64_run by discriminate.
    apply IH; try assumption.
    + pose proof (newton_step_ge x y 1 Hy ltac:(lia)). lia.
    + transitivity ((x + 1) / 2).
      * apply N.Div0.div_le_mono. exact Hsum.
      * apply N.Div0.div_le_upper_bound. lia.
    + intros r Hr. apply newton_step_ge; assumption.
Qed.

(** For a positive [x] below [2^64 - 1], [_sqrt] returns a positive
    root. *)
Lemma sqrt_never_underestimates_aux (x : N) :
  0 < x -> x < uint64_max -> exists root, _sqrt x = Ok root /\ 1 <= root.
Proof.
  intros Hx Hmax. unfold _sqrt.
  apply N.lt_neq, not_eq_sym in Hx as Hnz.
  apply N.eqb_neq in Hnz as ->.
  rewrite add64_run by lia.
  rewrite div64_run by discriminate.
  destruct (sqrt_loop_spec 10 x x ((x + 1) / 2))
    as (root & Hroot & Hpos & _); try lia.
  - assert (1 <= (x + 1) / 2)
      by (apply N.div_le_lower_bound; [discriminate | lia]).
    lia.
  - apply N.Div0.div_le_upper_bound. lia.
  - intros r Hr. nia.
  - intros r Hr. apply N.div_le_lower_bound; [discriminate | nia].
  - exists root. split; [exact Hroot | lia].
Qed.

(** X1.  For every [x] from 1 to [2^64 - 2], [_sqrt] returns a root that
    is at least 1, at most [x], and never below the integer square root of
    [x]: [x < (root + 1)^2], whatever the ten-iteration cap cut off. *)
Theorem sqrt_never_underestimates (x : N) :
  0 < x -> x < uint64_max ->
  exists root,
    _sqrt x = Ok root /\ 1 <= root /\ root <= x /\
    x < (root + 1) * (root + 1).
Proof.
  intros Hx Hmax. unfold _sqrt.
  apply N.lt_neq, not_eq_sym in Hx as Hnz.
  apply N.eqb_neq in Hnz as ->.
  rewrite add64_run by lia.
  rewrite div64_run by discriminate.
  destruct (sqrt_loop_spec 10 x x ((x + 1) / 2))
    as (root & Hroot & Hpos & Hle & Hge);
    try lia.
  - assert (1 <= (x + 1) / 2)
      by (apply N.div_le_lower_bound; [discriminate | lia]).
    lia.
  - apply N.Div0.div_le_upper_bound. lia.
  - intros r Hr. nia.
  - intros r Hr. apply N.div_le_lower_bound; [discriminate | nia].
  - exists root. split; [exact Hroot|]. split; [lia|]. split; [exact Hle|].
    destruct (N.lt_ge_cases x ((root + 1) * (root + 1))) as [Hok | Hbad];
      [exact Hok|].
    specialize (Hge (root + 1) Hbad). lia.
Qed.

Lemma sqrt_never_underestimates_witness :
  exists root,
    _sqrt 1000000 = Ok root /\ 1 <= root /\ root <= 1000000 /\
    1000000 < (root + 1) * (root + 1).
Proof.
  apply (sqrt_never_underestimates 1000000).
  - reflexivity.
  - vm_compute. reflexivity.
Defined.

(** The two ends of the range: nothing for 0, and an abort at
    [2^64 - 1], where [x + 1] overflows. *)
Lemma sqrt_edges :
  _sqrt 0 = Ok 0 /\ _sqrt uint64_max = Err "+ overflowed".
Proof. split; vm_compute; reflexivity. Qed.

(** What a successful swap did, in either direction: [reserve_in] and
    [reserve_out] are the reserves of the token paid in and paid out. *)
Lemma swap_a_for_b_inv (e : env) (amount_in out : N) (s s' : state) :
  swap_a_for_b e amount_in s = Ok (s', out) ->
  is_paused s = 0 /\
  _get_amount_out s amount_in (reserve_a s) (reserve_b s) = Ok out /\
  0 < out /\ out <= reserve_b s /\
  s' = set_reserves (reserve_a s + amount_in) (reserve_b s - out) s.
Proof.
  unfold swap_a_for_b. intros H.
  apply bind_Ok in H as (? & Hp & H). run_inv Hp. bool_facts.
  apply bind_Ok in H as (? & _ & H).
  apply bind_Ok in H as (? & _ & H).
  apply bind_Ok in H as (q & Hq & H).
  run_inv H. bool_facts. ret_inv. auto.
Qed.

Lemma swap_b_for_a_inv (e : env) (amount_in out : N) (s s' : state) :
  swap_b_for_a e amount_in s = Ok (s', out) ->
  is_paused s = 0 /\
  _get_amount_out s amount_in (reserve_b s) (reserve_a s) = Ok out /\
  0 < out /\ out <= reserve_a s /\
  s' = set_reserves (reserve_a s - out) (reserve_b s + amount_in) s.
Proof.
  unfold swap_b_for_a. intros H.
  apply bind_Ok in H as (? & Hp & H). run_inv Hp. bool_facts.
  apply bind_Ok in H as (? & _ & H).
  apply bind_Ok in H as (? & _ & H).
  apply bind_Ok in H as (q & Hq & H).
  run_inv H. bool_facts. ret_inv. auto.
Qed.

(** A quote is always short of the reserve it is paid from. *)
Lemma quote_below_reserve
    (s : state) (amount_in reserve_in reserve_out out : N) :
  _get_amount_out s amount_in reserve_in reserve_out = Ok out ->
  out < reserve_out.
Proof.
  intros H. apply get_amount_out_inv in H. cbn zeta in H.
  destruct H as (Hin & Hri & Hro & Hfee & _ & _ & ->).
  unfold fee_denominator in *.
  apply N.Div0.div_lt_upper_bound. nia.
Qed.

(** X2.  A successful swap pays out a positive amount strictly below the
    reserve it is paid from, so both reserves stay positive; it adds
    exactly [amount_in] to the other reserve and touches nothing else: not
    the shares in issue, not any account's shares or deposit records, not
    the fee, the admin or the pause flag. *)
Theorem swap_never_drains (e : env) (amount_in out : N) (s s' : state) :
  (swap_a_for_b e amount_in s = Ok (s', out) ->
   0 < out /\ out < reserve_b s /\
   s' = set_reserves (reserve_a s + amount_in) (reserve_b s - out) s /\
   0 < reserve_a s' /\ 0 < reserve_b s') /\
  (swap_b_for_a e amount_in s = Ok (s', out) ->
   0 < out /\ out < reserve_a s /\
   s' = set_reserves (reserve_a s - out) (reserve_b s + amount_in) s /\
   0 < reserve_a s' /\ 0 < reserve_b s').
Proof.
  split; intros H.
  - apply swap_a_for_b_inv in H as (_ & Hq & Hpos & _ & ->).
    apply quote_below_reserve in Hq as Hlt.
    apply get_amount_out_inv in Hq. cbn zeta in Hq.
    destruct Hq as (Hin & Hri & _).
    repeat split; try assumption; cbn; lia.
  - apply swap_b_for_a_inv in H as (_ & Hq & Hpos & _ & ->).
    apply quote_below_reserve in Hq as Hlt.
    apply get_amount_out_inv in Hq. cbn zeta in Hq.
    destruct Hq as (Hin & Hri & _).
    repeat split; try assumption; cbn; lia.
Qed.

Lemma swap_never_drains_witness :
  0 < 996 /\ 996 < reserve_b even_pool.
Proof.
  destruct (proj1 (swap_never_drains (Env 8 0 7) 1000 996 even_pool
                     (set_reserves 1001000 999004 even_pool)))
    as (Hpos & Hlt & _).
  - vm_compute. reflexivity.
  - split; assumption.
Defined.

(** Floors keep the order of two fractions. *)
Lemma floor_div_mono (x1 d1 x2 d2 : N) :
  d1 <> 0 -> d2 <> 0 -> x1 * d2 <= x2 * d1 -> x1 / d1 <= x2 / d2.
Proof.
  intros Hd1 Hd2 Hcross.
  destruct (floor_div_bounds x1 d1 Hd1) as [Hq _].
  apply N.div_le_lower_bound; [exact Hd2|].
  apply (N.mul_le_mono_pos_r _ _ d1); [lia|].
  transitivity (x1 * d2); [nia | exact Hcross].
Qed.

(** X3.  The quote grows with the amount paid in and shrinks as the fee
    rate grows: of two quotes against the same reserves, the one for the
    larger input under the smaller fee is at least the other. *)
Theorem quote_monotone
    (s1 s2 : state) (in1 in2 reserve_in reserve_out out1 out2 : N) :
  get_amount_out s1 in1 reserve_in reserve_out = Ok out1 ->
  get_amount_out s2 in2 reserve_in reserve_out = Ok out2 ->
  in1 <= in2 -> fee_rate s2 <= fee_rate s1 ->
  out1 <= out2.
Proof.
  unfold get_amount_out. intros H1 H2 Hin Hfee.
  apply get_amount_out_inv in H1. apply get_amount_out_inv in H2.
  cbn zeta in *.
  destruct H1 as (Hin1 & Hri & Hro & Hf1 & _ & _ & ->).
  destruct H2 as (Hin2 & _ & _ & Hf2 & _ & _ & ->).
  unfold fee_denominator in *.
  set (g1 := 1000 - fee_rate s1). set (g2 := 1000 - fee_rate s2).
  assert (g1 <= g2) as Hg by (unfold g1, g2; lia).
  assert (in1 * g1 <= in2 * g2) as Hnet by (apply N.mul_le_mono; assumption).
  apply floor_div_mono; try lia.
  set (n1 := in1 * g1) in *. set (n2 := in2 * g2) in *.
  nia.
Qed.

Lemma quote_monotone_witness : 996 <= 1990.
Proof.
  apply (quote_monotone even_pool even_pool 1000 2000 1000000 1000000
           996 1990).
  - vm_compute. reflexivity.
  - vm_compute. reflexivity.
  - vm_compute. discriminate.
  - vm_compute. discriminate.
Defined.

(** X4.  Swapping one way and swapping the proceeds straight back never
    returns more than was paid in, and returns strictly less under a
    non-zero fee. *)
Theorem swap_round_trip_no_gain
    (e e' : env) (amount_in out back : N) (s s1 s2 : state) :
  (swap_a_for_b e amount_in s = Ok (s1, out) ->
   swap_b_for_a e' out s1 = Ok (s2, back) ->
   back <= amount_in /\ (0 < fee_rate s -> back < amount_in)) /\
  (swap_b_for_a e amount_in s = Ok (s1, out) ->
   swap_a_for_b e' out s1 = Ok (s2, back) ->
   back <= amount_in /\ (0 < fee_rate s -> back < amount_in)).
Proof.
  split; intros Hgo Hret.
  - apply swap_a_for_b_inv in Hgo as (_ & Hq1 & Hpos1 & Hle1 & ->).
    apply swap_b_for_a_inv in Hret as (_ & Hq2 & Hpos2 & Hle2 & _).
    cbn in Hq2, Hle2.
    apply quote_below_reserve in Hq1 as Hlt1.
    apply get_amount_out_inv in Hq1. apply get_amount_out_inv in Hq2.
    cbn zeta in *. cbn in Hq2.
    destruct Hq1 as (Hin & Hra & Hrb & Hfee & _ & _ & Hout).
    destruct Hq2 as (_ & _ & _ & _ & _ & _ & Hback).
    unfold fee_denominator in *.
    destruct (product_grows (reserve_a s) (reserve_b s) amount_in
                (1000 - fee_rate s) out) as [Hk1 Hk1'];
      try assumption; try lia.
    destruct (product_grows (reserve_b s - out) (reserve_a s + amount_in)
                out (1000 - fee_rate s) back) as [Hk2 Hk2'];
      try assumption; try lia.
    replace (reserve_b s - out + out) with (reserve_b s) in * by lia.
    split; [nia|]. intros Hf. specialize (Hk1' ltac:(lia)). nia.
  - apply swap_b_for_a_inv in Hgo as (_ & Hq1 & Hpos1 & Hle1 & ->).
    apply swap_a_for_b_inv in Hret as (_ & Hq2 & Hpos2 & Hle2 & _).
    cbn in Hq2, Hle2.
    apply quote_below_reserve in Hq1 as Hlt1.
    apply get_amount_out_inv in Hq1. apply get_amount_out_inv in Hq2.
    cbn zeta in *. cbn in Hq2.
    destruct Hq1 as (Hin & Hrb & Hra & Hfee & _ & _ & Hout).
    destruct Hq2 as (_ & _ & _ & _ & _ & _ & Hback).
    unfold fee_denominator in *.
    destruct (product_grows (reserve_b s) (reserve_a s) amount_in
                (1000 - fee_rate s) out) as [Hk1 Hk1'];
      try assumption; try lia.
    destruct (product_grows (reserve_a s - out) (reserve_b s + amount_in)
                out (1000 - fee_rate s) back) as [Hk2 Hk2'];
      try assumption; try lia.
    replace (reserve_a s - out + out) with (reserve_a s) in * by lia.
    split; [nia|]. intros Hf. specialize (Hk1' ltac:(lia)). nia.
Qed.

Lemma swap_round_trip_no_gain_witness : 994 <= 1000 /\ 994 < 1000.
Proof.
  destruct (proj1 (swap_round_trip_no_gain (Env 8 0 7) (Env 8 0 7)
                     1000 996 994 even_pool
                     (set_reserves 1001000 999004 even_pool)
                     (set_reserves 1000006 1000000 even_pool)))
    as [Hle Hlt].
  - vm_compute. reflexivity.
  - vm_compute. reflexivity.
  - split; [exact Hle | apply Hlt; reflexivity].
Defined.

(** What a successful [add_liquidity] did to the shares. *)
Lemma add_liquidity_effect (e : env) (a b minted : N) (s s1 : state) :
  add_liquidity e a b s = Ok (s1, minted) ->
  fee_rate s1 = fee_rate s /\
  ((reserve_a s = 0 /\ reserve_b s = 0 /\
    reserve_a s1 = a /\ reserve_b s1 = b /\ 0 < a /\ 0 < b /\
    a * b <= uint64_max /\ _sqrt (a * b) = Ok minted /\
    total_liquidity s1 = minted /\
    liquidity_balance s1 = local_set (liquidity_balance s) (sender e) minted) \/
   (reserve_a s <> 0 /\ reserve_b s <> 0 /\
    reserve_a s <= reserve_a s1 /\ reserve_b s <= reserve_b s1 /\
    total_liquidity s1 = total_liquidity s + minted /\
    liquidity_balance s1
    = local_set (liquidity_balance s) (sender e)
        (held (liquidity_balance s) (sender e) + minted))).
Proof.
  intros Hadd. unfold add_liquidity in Hadd.
  apply bind_Ok in Hadd as (? & _ & Hadd).
  apply bind_Ok in Hadd as (? & Hpos & Hadd). run_inv Hpos. bool_facts.
  apply bind_Ok in Hadd as ([s' L] & Hpool & Hdep).
  run_inv Hdep. ret_inv. cbn.
  destruct ((reserve_a s =? 0) && (reserve_b s =? 0)) eqn:Hfirst.
  - bool_facts.
    apply bind_Ok in Hpool as (ab & Hab & Hpool). run_inv Hab.
    apply bind_Ok in Hpool as (root & Hroot & Hpool). ret_inv. cbn.
    split; [reflexivity|]. left. repeat split; auto.
  - apply bind_Ok in Hpool as (ab & Hab & Hpool). run_inv Hab.
    apply bind_Ok in Hpool as (rqb & Hrqb & Hpool). run_inv Hrqb.
    apply bind_Ok in Hpool as (ba & Hba & Hpool). run_inv Hba.
    apply bind_Ok in Hpool as (rqa & Hrqa & Hpool). run_inv Hrqa.
    apply bind_Ok in Hpool as ([s0 L0] & Hside & Hpool).
    run_inv Hpool. ret_inv. cbn.
    destruct (a * reserve_b s / reserve_a s <=? b) eqn:Hcmp;
      run_inv Hside; ret_inv; cbn in *; held_facts; subst;
      (split; [reflexivity|]); right; repeat split; auto;
      apply N.le_add_r.
Qed.

(** What a successful [remove_liquidity] did to the shares. *)
Lemma remove_liquidity_effect
    (e : env) (shares out_a out_b : N) (s s' : state) :
  remove_liquidity e shares s = Ok (s', (out_a, out_b)) ->
  fee_rate s' = fee_rate s /\
  shares <= held (liquidity_balance s) (sender e) /\
  total_liquidity s' = total_liquidity s - shares /\
  shares <= total_liquidity s /\
  liquidity_balance s'
  = local_set (liquidity_balance s) (sender e)
      (held (liquidity_balance s) (sender e) - shares).
Proof.
  intros Hrem. unfold remove_liquidity in Hrem.
  apply bind_Ok in Hrem as (? & _ & Hrem).
  apply bind_Ok in Hrem as (? & _ & Hrem).
  apply bind_Ok in Hrem as (held_shares & Hheld & Hrem).
  apply local_get_Ok, held_Some in Hheld. subst held_shares.
  apply bind_Ok in Hrem as (? & Hbal & Hrem). run_inv Hbal. bool_facts.
  apply bind_Ok in Hrem as (la & Hla & Hrem). run_inv Hla.
  apply bind_Ok in Hrem as (oa & Hoa & Hrem). run_inv Hoa.
  apply bind_Ok in Hrem as (lb & Hlb & Hrem). run_inv Hlb.
  apply bind_Ok in Hrem as (ob & Hob & Hrem). run_inv Hob.
  apply bind_Ok in Hrem as (na & Hna & Hrem). run_inv Hna.
  apply bind_Ok in Hrem as (nb & Hnb & Hrem). run_inv Hnb.
  apply bind_Ok in Hrem as (bal & Hbal' & Hrem). run_inv Hbal'.
  apply bind_Ok in Hrem as (nt & Hnt & Hrem). run_inv Hnt.
  apply bind_Ok in Hrem as (sa & Hsa & Hrem).
  apply bind_Ok in Hrem as (sb & Hsb & Hrem). ret_inv.
  assert (fee_rate sa = fee_rate s /\
          total_liquidity sa = total_liquidity s - shares /\
          liquidity_balance sa
          = local_set (liquidity_balance s) (sender e)
              (held (liquidity_balance s) (sender e) - shares))
    as (Hf & Ht & Hl).
  { apply bind_Ok in Hsa as (da & _ & Hsa).
    destruct (_ <=? _) in Hsa; run_inv Hsa; ret_inv; cbn; auto. }
  assert (fee_rate s' = fee_rate sa /\
          total_liquidity s' = total_liquidity sa /\
          liquidity_balance s' = liquidity_balance sa) as (-> & -> & ->).
  { apply bind_Ok in Hsb as (db & _ & Hsb).
    destruct (_ <=? _) in Hsb; run_inv Hsb; ret_inv; cbn; auto. }
  repeat split; auto.
Qed.

Lemma step_keeps_pool_accounted (e : env) (c : call) (s s' : state) :
  c <> Initialize ->
  step e c s = Ok s' -> pool_accounted s -> pool_accounted s'.
Proof.
  intros Hc Hstep (Hsum & Hfee & Hshape). unfold pool_accounted.
  destruct c as [|a b|ain|ain|shares|f| |]; cbn in Hstep;
    try contradiction.
  - apply bind_Ok in Hstep as ([s1 minted] & Hadd & Hret). ret_inv.
    apply add_liquidity_effect in Hadd
      as (Hf & [(Hra & Hrb & -> & -> & Ha & Hb & Hfit & Hroot & Ht & Hl)
               |(Hra & Hrb & Hga & Hgb & Ht & Hl)]).
    + assert (total_liquidity s = 0) as Hzero by (destruct Hshape; lia).
      pose proof (held_le_total (liquidity_balance s) (sender e)).
      pose proof (local_total_set (liquidity_balance s) (sender e) minted).
      assert (1 <= minted) as Hminted.
      { destruct (N.eq_dec (a * b) uint64_max) as [Heq | Hne].
        - rewrite Heq in Hroot. vm_compute in Hroot. discriminate.
        - destruct (sqrt_never_underestimates_aux (a * b))
            as (root & Hr & Hone); [nia | lia |].
          rewrite Hr in Hroot. injection Hroot as <-. exact Hone. }
      rewrite Hf, Ht, Hl. split; [lia|]. split; [exact Hfee|].
      right. lia.
    + pose proof (local_total_set (liquidity_balance s) (sender e)
                    (held (liquidity_balance s) (sender e) + minted)).
      rewrite Hf, Ht, Hl. split; [lia|]. split; [exact Hfee|].
      right. destruct Hshape as [(? & ? & ?) | (? & ? & ?)]; lia.
  - apply bind_Ok in Hstep as ([s1 out] & Hswap & Hret). ret_inv.
    apply swap_a_for_b_inv in Hswap as (_ & Hq & Hpos & _ & ->).
    apply quote_below_reserve in Hq as Hlt.
    apply get_amount_out_inv in Hq. cbn zeta in Hq.
    destruct Hq as (Hin & Hra & _). cbn.
    split; [exact Hsum|]. split; [exact Hfee|].
    right. destruct Hshape as [(? & ? & ?) | (? & ? & ?)]; lia.
  - apply bind_Ok in Hstep as ([s1 out] & Hswap & Hret). ret_inv.
    apply swap_b_for_a_inv in Hswap as (_ & Hq & Hpos & _ & ->).
    apply quote_below_reserve in Hq as Hlt.
    apply get_amount_out_inv in Hq. cbn zeta in Hq.
    destruct Hq as (Hin & Hrb & _). cbn.
    split; [exact Hsum|]. split; [exact Hfee|].
    right. destruct Hshape as [(? & ? & ?) | (? & ? & ?)]; lia.
  - apply bind_Ok in Hstep as ([s1 [oa ob]] & Hrem & Hret). ret_inv.
    apply remove_liquidity_effect in Hrem as Heff.
    destruct Heff as (Hf & Hbal & Ht & Hle & Hl).
    apply remove_liquidity_inv in Hrem
      as (Hpos & HT & -> & -> & Hra' & Hrb').
    pose proof (local_total_set (liquidity_balance s) (sender e)
                  (held (liquidity_balance s) (sender e)
                   - shares)).
    rewrite Hf, Ht, Hl, Hra', Hrb'. split; [lia|]. split; [exact Hfee|].
    destruct Hshape as [(? & ? & ?) | (Hra & Hrb & HTpos)]; [lia|].
    destruct (N.eq_dec shares (total_liquidity s)) as [-> | Hne].
    + left. rewrite !(N.mul_comm (total_liquidity s)), !N.div_mul by lia.
      lia.
    + right.
      assert (shares * reserve_a s / total_liquidity s
              < reserve_a s)
        by (apply N.Div0.div_lt_upper_bound; nia).
      assert (shares * reserve_b s / total_liquidity s
              < reserve_b s)
        by (apply N.Div0.div_lt_upper_bound; nia).
      lia.
  - unfold set_fee_rate in Hstep. run_inv Hstep. bool_facts. ret_inv.
    cbn. auto.
  - unfold pause_amm in Hstep. run_inv Hstep. ret_inv. cbn. auto.
  - unfold unpause_amm in Hstep. run_inv Hstep. ret_inv. cbn. auto.
Qed.

(** [initialize] leaves an accounted pool where the shares held add up
    to 0. *)
Lemma initialize_accounts (e : env) (s s0 : state) :
  local_total (liquidity_balance s) = 0 ->
  initialize e s = Ok s0 -> pool_accounted s0.
Proof.
  intros Hzero Hinit. unfold initialize in Hinit. run_inv Hinit. ret_inv.
  unfold pool_accounted. cbn. rewrite Hzero.
  split; [reflexivity|]. split; [reflexivity|]. left. auto.
Qed.

(** X5.  As long as [initialize] is not called again, every history of
    calls keeps a pool accounted: the shares in issue equal the sum of
    the shares held, the fee rate stays below 1000, and the pool is
    either empty on both sides with no share in issue or funded on both
    sides with shares in issue. *)
Theorem shares_stay_accounted (s0 : state) (history : list (env * call)) :
  pool_accounted s0 ->
  Forall (fun ec => ec.2 <> Initialize) history ->
  pool_accounted (play history s0).
Proof.
  intros Hstart Hcalls. revert s0 Hstart.
  induction history as [|[e c] rest IH]; intros s0 Hstart; [exact Hstart|].
  apply Forall_cons in Hcalls as [Hc Hrest].
  unfold play. cbn. apply (IH Hrest).
  destruct (step e c s0) as [s'|msg] eqn:Hstep; cbn; [|exact Hstart].
  eapply step_keeps_pool_accounted; eauto.
Qed.

Lemma shares_stay_accounted_witness :
  let s := play [(Env 7 0 7, AddLiquidity 10000 1);
                 (Env 8 5 7, AddLiquidity 199 1); (Env 8 6 7, SwapBForA 1);
                 (Env 7 9 7, RemoveLiquidity 40)] opened_pool in
  (reserve_a s, reserve_b s, total_liquidity s) = (3086, 2, 61) /\
  pool_accounted s.
Proof.
  intros s. split; [vm_compute; reflexivity|].
  apply (shares_stay_accounted opened_pool).
  - split; [vm_compute; reflexivity|]. split; [reflexivity|].
    left. split; [reflexivity|]. split; reflexivity.
  - repeat constructor; discriminate.
Defined.

(** The deposit record of one side in a removal: it is lowered when it
    covers the amount and left alone when it does not. *)
Lemma settle_record_run {A : Type}
    (m : gmap address N) (u : address) (out d : N) (s1 : state)
    (f : N -> state) (k : state -> result A) :
  m !! u = Some d ->
  (deposited ← local_get m u;
   if out <=? deposited then
     current ← local_get m u;
     d' ← sub64 current out;
     mret (f d')
   else mret s1) ≫= k
  = k (if out <=? d then f (d - out) else s1).
Proof.
  intros Hd. rewrite (local_get_run _ _ _ _ Hd).
  destruct (out <=? d) eqn:Hle; [|reflexivity].
  rewrite (local_get_run _ _ _ _ Hd). bool_facts.
  rewrite sub64_run by exact Hle. reflexivity.
Qed.

(** X6.  In an accounted pool a holder whose account holds its two
    deposit records can always take shares out: unless the market is
    paused or a product overflows 64 bits, [remove_liquidity] of any
    positive number of shares up to the sender's holding succeeds, pays
    the proportional floor of each reserve and debits exactly those
    shares. *)
Theorem holder_can_exit (e : env) (shares da db : N) (s : state) :
  pool_accounted s -> is_paused s = 0 ->
  0 < shares -> shares <= held (liquidity_balance s) (sender e) ->
  token_a_deposited s !! sender e = Some da ->
  token_b_deposited s !! sender e = Some db ->
  shares * reserve_a s <= uint64_max ->
  shares * reserve_b s <= uint64_max ->
  exists s',
    remove_liquidity e shares s
    = Ok (s', (shares * reserve_a s / total_liquidity s,
               shares * reserve_b s / total_liquidity s)) /\
    liquidity_balance s' !! sender e
    = Some (held (liquidity_balance s) (sender e) - shares) /\
    total_liquidity s' = total_liquidity s - shares.
Proof.
  intros (Hsum & _ & Hshape) Hrun Hpos Hbal Hda Hdb Hfa Hfb.
  pose proof (held_le_total (liquidity_balance s) (sender e)) as Hle.
  rewrite <- Hsum in Hle.
  assert (total_liquidity s <> 0) as HT by lia.
  assert (shares * reserve_a s / total_liquidity s <= reserve_a s) as Hoa
    by (apply N.Div0.div_le_upper_bound; nia).
  assert (shares * reserve_b s / total_liquidity s <= reserve_b s) as Hob
    by (apply N.Div0.div_le_upper_bound; nia).
  unfold remove_liquidity.
  rewrite assert_run by (apply N.eqb_eq; exact Hrun).
  rewrite assert_run by (apply N.ltb_lt; exact Hpos).
  rewrite (local_get_run _ _ (held (liquidity_balance s) (sender e)))
    by (apply held_positive; lia).
  rewrite assert_run by (apply N.leb_le; exact Hbal).
  rewrite mul64_run by exact Hfa. rewrite div64_run by exact HT.
  rewrite mul64_run by exact Hfb. rewrite div64_run by exact HT.
  rewrite sub64_run by exact Hoa. rewrite sub64_run by exact Hob.
  rewrite sub64_run by exact Hbal. rewrite sub64_run by lia.
  set (oa := shares * reserve_a s / total_liquidity s).
  set (ob := shares * reserve_b s / total_liquidity s).
  set (s1 := set_liquidity _ _ _ _).
  rewrite (settle_record_run _ _ oa da) by exact Hda.
  set (s2 := if oa <=? da then _ else s1).
  assert (token_b_deposited s2 !! sender e = Some db /\
          liquidity_balance s2 = liquidity_balance s1 /\
          total_liquidity s2 = total_liquidity s1) as (Hdb2 & Hl2 & Ht2).
  { unfold s2. destruct (oa <=? da); auto. }
  rewrite (settle_record_run _ _ ob db) by exact Hdb2.
  set (s3 := if ob <=? db then _ else s2).
  assert (liquidity_balance s3 = liquidity_balance s2 /\
          total_liquidity s3 = total_liquidity s2) as (Hl3 & Ht3).
  { unfold s3. destruct (ob <=? db); auto. }
  exists s3. split; [reflexivity|].
  rewrite Hl3, Hl2, Ht3, Ht2. unfold s1. cbn.
  split; [apply lookup_set | reflexivity].
Qed.

Lemma holder_can_exit_witness :
  exists s',
    remove_liquidity (Env 7 0 7) 1000000 even_pool
    = Ok (s', (1000000 * reserve_a even_pool / total_liquidity even_pool,
               1000000 * reserve_b even_pool / total_liquidity even_pool)) /\
    liquidity_balance s' !! 7
    = Some (held (liquidity_balance even_pool) 7 - 1000000) /\
    total_liquidity s' = total_liquidity even_pool - 1000000.
Proof.
  apply (holder_can_exit (Env 7 0 7) 1000000 1000000 1000000 even_pool).
  - split; [vm_compute; reflexivity|]. split; [reflexivity|].
    right. split; [reflexivity|]. split; reflexivity.
  - reflexivity.
  - reflexivity.
  - vm_compute. discriminate.
  - reflexivity.
  - reflexivity.
  - vm_compute. discriminate.
  - vm_compute. discriminate.
Defined.

(** Shares alone do not get a holder out: the removal reads both deposit
    records and aborts where the account holds none. *)
Lemma exit_needs_deposit_records :
  remove_liquidity (Env 7 0 7) 40
    (State 7 10000 1 3 0 100 {[7 := 100]} ∅ ∅)
  = Err "LocalState value is not set".
Proof. vm_compute. reflexivity. Qed.

End Market.

(** ** The splitter: maturities and round trips *)

Section SplitterMore.
Import YieldTokenization.

Lemma maturity_exists_inv (e : env) (maturity : N) (known : bool) :
  _maturity_exists e maturity = Ok known ->
  known = (latest_timestamp e <? maturity)
          && (maturity <=? latest_timestamp e + one_year).
Proof.
  unfold _maturity_exists. intros H.
  destruct (latest_timestamp e <? maturity); [|ret_inv; reflexivity].
  run_inv H. ret_inv. reflexivity.
Qed.

Lemma split_tokens_inv (e : env) (amount maturity : N) (s s' : state) :
  split_tokens e amount maturity s = Ok s' ->
  is_paused s = 0 /\ 0 < amount /\
  latest_timestamp e < maturity <= latest_timestamp e + one_year /\
  amount <= held (user_sy_balance s) (sender e) /\
  s' = set_yt (sender e) (held (user_yt_balance s) (sender e) + amount)
         (set_pt (sender e)
            (held (user_pt_balance s) (sender e) + amount)
            (set_sy (sender e)
               (held (user_sy_balance s) (sender e) - amount) s)).
Proof.
  unfold split_tokens. intros H.
  apply bind_Ok in H as (? & Hp & H). run_inv Hp.
  apply bind_Ok in H as (? & Ha & H). run_inv Ha.
  apply bind_Ok in H as (known & Hknown & H).
  apply maturity_exists_inv in Hknown.
  apply bind_Ok in H as (? & Hk & H). run_inv Hk. subst known.
  run_inv H. bool_facts. ret_inv. cbn in *. held_facts. subst.
  repeat split; auto.
Qed.

(** X7.  The maturity argument of [redeem_tokens] is only compared with
    the clock.  So the PT of a split can be redeemed at once under any
    maturity that has passed, 0 for one: the sender's SY and PT balances
    are back where they were before the split and the YT of the split
    stays. *)
Theorem split_then_redeem
    (e e' : env) (amount maturity maturity' : N) (s s1 : state) :
  split_tokens e amount maturity s = Ok s1 ->
  sender e' = sender e ->
  maturity' <= latest_timestamp e' ->
  held (user_sy_balance s) (sender e) <= uint64_max ->
  exists s2,
    redeem_tokens e' amount maturity' s1 = Ok s2 /\
    held (user_sy_balance s2) (sender e)
    = held (user_sy_balance s) (sender e) /\
    held (user_pt_balance s2) (sender e)
    = held (user_pt_balance s) (sender e) /\
    held (user_yt_balance s2) (sender e)
    = held (user_yt_balance s) (sender e) + amount.
Proof.
  intros Hsplit Hu Hmat Hfit.
  apply split_tokens_inv in Hsplit as (Hp & Ha & _ & Hle & ->).
  unfold redeem_tokens. rewrite Hu. cbn.
  rewrite assert_run by (apply N.eqb_eq; exact Hp).
  rewrite assert_run by (apply N.ltb_lt; exact Ha).
  rewrite assert_run by (apply N.leb_le; exact Hmat).
  rewrite (local_get_run _ _ _ _ (lookup_set _ _ _)).
  rewrite assert_run by (apply N.leb_le; lia).
  rewrite sub64_run by lia. cbn.
  rewrite (local_get_run _ _ _ _ (lookup_set _ _ _)).
  rewrite add64_run by lia.
  eexists. split; [reflexivity|]. cbn. rewrite !held_set. lia.
Qed.

Lemma split_then_redeem_witness :
  let s := State 1 "SY" "SY" 0 1 "" {[5 := 100]} {[5 := 0]} {[5 := 0]} in
  let s1 := State 1 "SY" "SY" 0 1 "" {[5 := 60]} {[5 := 40]} {[5 := 40]} in
  exists s2,
    redeem_tokens (Env 5 1000 1) 40 0 s1 = Ok s2 /\
    held (user_sy_balance s2) 5 = held (user_sy_balance s) 5 /\
    held (user_pt_balance s2) 5 = held (user_pt_balance s) 5 /\
    held (user_yt_balance s2) 5 = held (user_yt_balance s) 5 + 40.
Proof.
  intros s s1.
  apply (split_then_redeem (Env 5 1000 1) (Env 5 1000 1) 40 4000 0 s s1).
  - vm_compute. reflexivity.
  - reflexivity.
  - vm_compute. discriminate.
  - vm_compute. discriminate.
Defined.

(** X8.  [create_maturity] accepts a maturity only if it lies more than
    one year ahead, and all it records is one more in [maturity_count].
    [split_tokens] looks at the clock alone: it refuses that maturity at
    every time at which it is still more than a year away. *)
Theorem created_maturity_not_splittable
    (e : env) (maturity : N) (s s' : state) :
  create_maturity e maturity s = Ok s' ->
  latest_timestamp e + one_year < maturity /\
  s' = set_maturity_count (maturity_count s + 1) s /\
  forall e' amount s'',
    latest_timestamp e' + one_year < maturity ->
    split_tokens e' amount maturity s' <> Ok s''.
Proof.
  unfold create_maturity. intros H.
  apply bind_Ok in H as (? & _ & H).
  apply bind_Ok in H as (? & Hfut & H). run_inv Hfut. bool_facts.
  apply bind_Ok in H as (? & _ & H).
  apply bind_Ok in H as (known & Hknown & H).
  apply maturity_exists_inv in Hknown.
  apply bind_Ok in H as (? & Hnot & H). run_inv Hnot.
  unfold _create_maturity_internal in H. run_inv H. ret_inv.
  apply negb_true_iff, andb_false_iff in Hnot.
  assert (latest_timestamp e + one_year < maturity) as Hfar
    by (destruct Hnot; bool_facts; lia).
  split; [exact Hfar|]. split; [reflexivity|].
  intros e' amount s'' Hfar' Hsplit.
  apply split_tokens_inv in Hsplit as (_ & _ & Hwin & _). lia.
Qed.

Lemma created_maturity_not_splittable_witness :
  40000000 + one_year < 80000000.
Proof.
  apply (created_maturity_not_splittable (Env 1 40000000 1) 80000000
           (State 1 "SY" "SY" 0 1 "" ∅ ∅ ∅)
           (State 1 "SY" "SY" 0 2 "" ∅ ∅ ∅)).
  vm_compute. reflexivity.
Defined.

End SplitterMore.

(** ** The token ledger: supply, allowance, maturity *)

Section LedgerMore.
Import PTToken.

Lemma invoke_supply (e : env) (m : method) (s s' : state) :
  invoke e m s = Ok s' ->
  total_balance s <= total_supply s ->
  total_balance s' <= total_supply s' /\ maturity s' = maturity s.
Proof.
  intros Hgo Hinv. destruct m; cbn in Hgo.
  - unfold mint in Hgo. run_inv Hgo. ret_inv.
    unfold total_balance in *. cbn in *. held_facts. total_moves.
    split; [lia | reflexivity].
  - unfold burn in Hgo. run_inv Hgo. bool_facts. ret_inv.
    unfold total_balance in *. cbn in *. held_facts. total_moves.
    split; [lia | reflexivity].
  - apply transfer_loses_amount in Hgo as Hloss.
    unfold transfer in Hgo. run_inv Hgo. ret_inv. cbn in *.
    split; [lia | reflexivity].
  - unfold approve in Hgo. ret_inv. cbn. auto.
  - apply transfer_from_loses_amount in Hgo as Hloss.
    unfold transfer_from in Hgo. run_inv Hgo. ret_inv. cbn in *.
    split; [lia | reflexivity].
  - unfold update_owner in Hgo. run_inv Hgo. ret_inv. cbn. auto.
Qed.

Lemma play_supply (history : list (env * method)) :
  forall s : state,
    total_balance s <= total_supply s ->
    total_balance (play history s) <= total_supply (play history s) /\
    maturity (play history s) = maturity s.
Proof.
  induction history as [|[e m] rest IH]; intros s Hinv; [auto|].
  unfold play. cbn.
  destruct (invoke e m s) as [s'|msg] eqn:Hgo; cbn.
  - apply invoke_supply in Hgo as [Hinv' Hmat]; [|exact Hinv].
    destruct (IH s' Hinv') as [Hle Hm]. fold (play rest s').
    split; [exact Hle | congruence].
  - apply IH. exact Hinv.
Qed.

(** X9.  Whatever is minted, burned, transferred or approved, balances
    that add up to no more than [total_supply] keep doing so; and so a
    holder can always burn: [burn] of a positive amount within the
    sender's balance succeeds and lowers balance and supply by it. *)
Theorem supply_covers_balances
    (s0 : state) (history : list (env * method)) :
  total_balance s0 <= total_supply s0 ->
  let s := play history s0 in
  total_balance s <= total_supply s /\
  forall e amount,
    0 < amount -> amount <= held (balance s) (sender e) ->
    exists s',
      burn e amount s = Ok s' /\
      balance s' !! sender e
      = Some (held (balance s) (sender e) - amount) /\
      total_supply s' = total_supply s - amount.
Proof.
  intros Hstart s.
  destruct (play_supply history s0 Hstart) as [Hle _]. fold s in Hle.
  split; [exact Hle|].
  intros e amount Hpos Hbal.
  pose proof (held_le_total (balance s) (sender e)) as Hcov.
  unfold total_balance in Hle.
  unfold burn.
  rewrite assert_run by (apply N.ltb_lt; exact Hpos).
  rewrite (local_get_run _ _ (held (balance s) (sender e)))
    by (apply held_positive; lia).
  rewrite assert_run by (apply N.leb_le; exact Hbal).
  rewrite sub64_run by exact Hbal. cbn.
  rewrite sub64_run by lia.
  eexists. split; [reflexivity|]. cbn.
  split; [apply lookup_set | reflexivity].
Qed.

Lemma supply_covers_balances_witness :
  let s := play [(Env 1 100 1, CallMint 1 10);
                 (Env 1 100 1, CallTransfer 2 4)]
             (State 1 "PT" "PT" 5000 0 8 {[1 := 0]} ∅) in
  (total_balance s, total_supply s) = (6, 10) /\
  total_balance s <= total_supply s.
Proof.
  intros s. split; [vm_compute; reflexivity|].
  apply (supply_covers_balances (State 1 "PT" "PT" 5000 0 8 {[1 := 0]} ∅)
           [(Env 1 100 1, CallMint 1 10); (Env 1 100 1, CallTransfer 2 4)]).
  vm_compute. discriminate.
Defined.

Lemma invoke_keeps_maturity (e : env) (m : method) (s s' : state) :
  invoke e m s = Ok s' -> maturity s' = maturity s.
Proof.
  intros Hgo. destruct m; cbn in Hgo.
  - unfold mint in Hgo. run_inv Hgo. ret_inv. reflexivity.
  - unfold burn in Hgo. run_inv Hgo. ret_inv. reflexivity.
  - unfold transfer in Hgo. run_inv Hgo. ret_inv. reflexivity.
  - unfold approve in Hgo. ret_inv. reflexivity.
  - unfold transfer_from in Hgo. run_inv Hgo. ret_inv. reflexivity.
  - unfold update_owner in Hgo. run_inv Hgo. ret_inv. reflexivity.
Qed.

Lemma play_keeps_maturity (history : list (env * method)) :
  forall s : state, maturity (play history s) = maturity s.
Proof.
  induction history as [|[e m] rest IH]; intros s; [reflexivity|].
  unfold play. cbn. fold (play rest (commit (invoke e m s) s)).
  rewrite IH.
  destruct (invoke e m s) as [s'|msg] eqn:Hgo; cbn; [|reflexivity].
  eapply invoke_keeps_maturity; eauto.
Qed.

(** X10.  No method but [initialize] writes [maturity]: a ledger that is
    mature stays mature through every history and at every later time. *)
Theorem maturity_is_final
    (e e' : env) (history : list (env * method)) (s : state) :
  is_mature e s = 1 ->
  latest_timestamp e <= latest_timestamp e' ->
  maturity (play history s) = maturity s /\
  is_mature e' (play history s) = 1.
Proof.
  intros Hmature Hlater.
  pose proof (play_keeps_maturity history s) as Hmat.
  split; [exact Hmat|].
  unfold is_mature in *. rewrite Hmat.
  destruct (maturity s <=? latest_timestamp e) eqn:Hnow; [|discriminate].
  bool_facts.
  assert (maturity s <= latest_timestamp e') as Hthen by lia.
  apply N.leb_le in Hthen as ->. reflexivity.
Qed.

Lemma maturity_is_final_witness :
  is_mature (Env 9 7000 1)
    (play [(Env 1 6000 1, CallMint 1 10)]
       (State 1 "PT" "PT" 5000 0 8 {[1 := 0]} ∅))
  = 1.
Proof.
  apply (maturity_is_final (Env 9 5000 1) (Env 9 7000 1)
           [(Env 1 6000 1, CallMint 1 10)]
           (State 1 "PT" "PT" 5000 0 8 {[1 := 0]} ∅)).
  - reflexivity.
  - vm_compute. discriminate.
Defined.

Lemma transfer_from_inv
    (e : env) (from_addr to : address) (amount : N) (s s' : state) :
  transfer_from e from_addr to amount s = Ok s' ->
  0 < amount /\
  amount <= held (allowance s) (sender e) /\
  amount <= held (balance s) (sender e) /\
  s' = set_allowance (sender e)
         (held (allowance s) (sender e) - amount)
         (set_balance (sender e)
            (held (balance s) (sender e) - amount) s).
Proof.
  unfold transfer_from. intros H. run_inv H. bool_facts. ret_inv.
  held_facts. subst. auto.
Qed.

(** X11.  The allowance is a budget for [transfer_from]: over any run of
    successful [transfer_from] calls by one sender, what leaves the
    sender's balance is exactly what leaves the sender's allowance, so it
    never exceeds the allowance the run started with. *)
Theorem allowance_bounds_transfer_from
    (u : address) (calls : list (env * call)) :
  forall s s' : state,
    Forall (fun ec => sender ec.1 = u /\
                      exists f t a, ec.2 = TransferFrom f t a) calls ->
    run calls s = Ok s' ->
    held (allowance s') u <= held (allowance s) u /\
    held (balance s') u <= held (balance s) u /\
    held (balance s) u - held (balance s') u
    = held (allowance s) u - held (allowance s') u.
Proof.
  induction calls as [|[e c] rest IH]; intros s s' Hall Hrun; cbn in Hrun.
  - ret_inv. lia.
  - apply Forall_cons in Hall as [[Hu (f & t & a & Hc)] Hrest].
    cbn in Hu, Hc. subst c.
    apply bind_Ok in Hrun as (s1 & Hstep & Hrun). cbn in Hstep.
    apply transfer_from_inv in Hstep as (Hpos & Hal & Hbal & ->).
    specialize (IH _ _ Hrest Hrun). cbn in IH.
    rewrite Hu in *. rewrite !held_set in IH. lia.
Qed.

Lemma allowance_bounds_transfer_from_witness :
  let s := State 1 "PT" "PT" 5000 50 8 {[3 := 50]} {[3 := 20]} in
  let s' := State 1 "PT" "PT" 5000 50 8 {[3 := 35]} {[3 := 5]} in
  held (allowance s') 3 <= held (allowance s) 3.
Proof.
  intros s s'.
  apply (allowance_bounds_transfer_from 3
           [(Env 3 10 1, TransferFrom 3 4 10);
            (Env 3 11 1, TransferFrom 3 4 5)] s s').
  - repeat constructor; eauto.
  - vm_compute. reflexivity.
Defined.

End LedgerMore.

(** ** The staking engine: accounting, settlement, parameters *)

Section StakingMore.
Import StakingDapp.

(** X12.  As long as [initialize] is not called again, every history of
    calls keeps [total_staked] equal to the sum of all stakes. *)
Theorem stakes_stay_accounted
    (s0 : state) (history : list (env * call)) :
  staked_accounted s0 ->
  Forall (fun ec => forall name symbol, ec.2 <> Initialize name symbol)
         history ->
  total_staked (play history s0)
  = local_total (staked_amount (play history s0)).
Proof.
  intros Hstart Hcalls.
  apply (play_keeps_accounting history s0 Hcalls Hstart).
Qed.

Lemma stakes_stay_accounted_witness :
  let s := play [(Env 5 0 1, Stake 1000); (Env 6 3 1, Stake 50);
                 (Env 5 9 1, Unstake 400); (Env 6 9 1, EmergencyWithdraw)]
             (State 1 "Reward" "RWD" 0 0 0 5 10 1000000000
                    {[5 := 0; 6 := 0]} ∅ {[5 := 0; 6 := 0]}) in
  total_staked s = 600 /\
  total_staked s = local_total (staked_amount s).
Proof.
  intros s. split; [vm_compute; reflexivity|].
  apply (stakes_stay_accounted
           (State 1 "Reward" "RWD" 0 0 0 5 10 1000000000
                  {[5 := 0; 6 := 0]} ∅ {[5 := 0; 6 := 0]})).
  - vm_compute. reflexivity.
  - repeat constructor; discriminate.
Defined.

(** What [_calculate_reward_internal] returns, by case. *)
Lemma calculate_reward_inv (e : env) (s : state) (p : N) :
  _calculate_reward_internal e s = Ok p ->
  let staked := held (staked_amount s) (sender e) in
  let last := held (last_reward_time s) (sender e) in
  (staked = 0 /\ p = 0) \/
  (staked <> 0 /\ latest_timestamp e <= last /\ p = 0) \/
  (staked <> 0 /\ last < latest_timestamp e /\
   reward_interval s <> 0 /\ precision_factor s <> 0 /\
   p = (latest_timestamp e - last) / reward_interval s * reward_amount s
       * staked / precision_factor s).
Proof.
  unfold _calculate_reward_internal. intros H. cbn zeta.
  apply bind_Ok in H as (staked & Hstaked & H).
  apply local_get_Ok, held_Some in Hstaked. rewrite Hstaked.
  destruct (staked =? 0) eqn:Hst.
  - left. bool_facts. ret_inv. auto.
  - right. bool_facts.
    apply bind_Ok in H as (last & Hlast & H).
    apply local_get_Ok, held_Some in Hlast. rewrite Hlast.
    destruct (latest_timestamp e <=? last) eqn:Hnow.
    + left. bool_facts. ret_inv. auto.
    + right. bool_facts. run_inv H. repeat split; auto.
Qed.

(** What [_update_rewards] does to the sender's position. *)
Lemma update_rewards_inv (e : env) (s s1 : state) :
  _update_rewards e s = Ok s1 ->
  exists p,
    _calculate_reward_internal e s = Ok p /\
    held (reward_balance s1) (sender e)
    = held (reward_balance s) (sender e) + p /\
    held (staked_amount s1) (sender e)
    = held (staked_amount s) (sender e) /\
    held (last_reward_time s1) (sender e) = latest_timestamp e /\
    reward_amount s1 = reward_amount s /\
    reward_interval s1 = reward_interval s /\
    precision_factor s1 = precision_factor s.
Proof.
  unfold _update_rewards. intros H.
  apply bind_Ok in H as (p & Hp & H).
  apply bind_Ok in H as (s0 & Hsettle & H). ret_inv.
  exists p. split; [exact Hp|]. cbn. rewrite held_set.
  destruct (0 <? p) eqn:Hpos.
  - run_inv Hsettle. ret_inv. cbn. rewrite held_set. held_facts.
    subst. auto 10.
  - bool_facts. ret_inv. assert (p = 0) as -> by lia.
    rewrite N.add_0_r. auto 10.
Qed.

(** Floors add up to no more than the floor of the sum. *)
Lemma floor_div_superadditive (a b c : N) :
  a / c + b / c <= (a + b) / c.
Proof.
  destruct (N.eq_dec c 0) as [-> | Hc].
  - rewrite !N.div_0_r. lia.
  - apply N.div_le_lower_bound; [exact Hc|].
    destruct (floor_div_bounds a c Hc) as [Ha _].
    destruct (floor_div_bounds b c Hc) as [Hb _]. lia.
Qed.

(** X13.  Settling a position at an intermediate time never pays: with
    the clock moving forward, the reward balance after settling at [t1]
    and again at [t2] is at most the balance after settling once at
    [t2].  Each settlement drops the started interval and the fraction
    below the precision factor. *)
Theorem settling_twice_never_gains (e1 e2 : env) (s s1 s2 s2' : state) :
  sender e2 = sender e1 ->
  held (last_reward_time s) (sender e1) <= latest_timestamp e1 ->
  latest_timestamp e1 <= latest_timestamp e2 ->
  _update_rewards e1 s = Ok s1 ->
  _update_rewards e2 s1 = Ok s2 ->
  _update_rewards e2 s = Ok s2' ->
  held (reward_balance s2) (sender e1)
  <= held (reward_balance s2') (sender e1).
Proof.
  intros Hu Ht01 Ht12 H1 H2 H2'.
  apply update_rewards_inv in H1
    as (p1 & Hp1 & Hb1 & Hs1 & Hl1 & Ha1 & Hi1 & Hf1).
  apply update_rewards_inv in H2 as (p2 & Hp2 & Hb2 & _).
  apply update_rewards_inv in H2' as (p & Hp & Hb & _).
  rewrite Hu in *. rewrite Hb2, Hb1, Hb.
  apply calculate_reward_inv in Hp1. apply calculate_reward_inv in Hp2.
  apply calculate_reward_inv in Hp. cbn zeta in *.
  rewrite Hu in *. rewrite Hs1, Hl1, Ha1, Hi1, Hf1 in Hp2.
  set (S := held (staked_amount s) (sender e1)) in *.
  set (t0 := held (last_reward_time s) (sender e1)) in *.
  set (t1 := latest_timestamp e1) in *.
  set (t2 := latest_timestamp e2) in *.
  set (I := reward_interval s) in *. set (R := reward_amount s) in *.
  set (P := precision_factor s) in *.
  destruct Hp1 as [(? & ->) | [(? & ? & ->) | (HS & H01 & HI & HP & ->)]].
  - destruct Hp2 as [(? & ->) | [(? & _) | (? & _)]]; [lia | | ];
      contradiction.
  - assert (t1 = t0) as Heq by lia. rewrite Heq in Hp2.
    destruct Hp2 as [(? & ->) | [(? & ? & ->) | (_ & ? & _ & _ & ->)]];
      [lia | lia |].
    destruct Hp as [(? & _) | [(? & ? & _) | (_ & _ & _ & _ & ->)]];
      [contradiction | lia | lia].
  - destruct Hp2 as [(? & _) | [(_ & H21 & ->) | (_ & H12 & _ & _ & ->)]];
      [contradiction | |].
    + assert (t2 = t1) as Heq by lia. rewrite Heq in Hp.
      destruct Hp as [(? & _) | [(? & ? & _) | (_ & _ & _ & _ & ->)]];
        [contradiction | lia | lia].
    + destruct Hp as [(? & _) | [(? & ? & _) | (_ & _ & _ & _ & ->)]];
        [contradiction | lia |].
      rewrite <- N.add_assoc. apply N.add_le_mono_l.
      etransitivity; [apply floor_div_superadditive|].
      apply N.Div0.div_le_mono.
      rewrite <- !N.mul_add_distr_r.
      apply N.mul_le_mono_r, N.mul_le_mono_r.
      etransitivity; [apply floor_div_superadditive|].
      apply N.Div0.div_le_mono. lia.
Qed.

Lemma settling_twice_never_gains_witness :
  let s := State 1 "Reward" "RWD" 0 1000000000 0 5 10 1000000000
                 {[5 := 1000000000]} {[5 := 0]} {[5 := 0]} in
  let mid := Env 5 19 1 in
  let late := Env 5 38 1 in
  held (reward_balance
               (commit (_update_rewards late
                          (commit (_update_rewards mid s) s)) s)) 5
  <= held (reward_balance (commit (_update_rewards late s) s)) 5.
Proof.
  intros s mid late.
  apply (settling_twice_never_gains mid late s
           (commit (_update_rewards mid s) s)).
  - reflexivity.
  - vm_compute. discriminate.
  - vm_compute. discriminate.
  - vm_compute. reflexivity.
  - vm_compute. reflexivity.
  - vm_compute. reflexivity.
Defined.

(** On that position seconds 0 to 38 hold three intervals, worth 15, but
    settling at second 19 on the way leaves 5 + 5. *)
Lemma settling_midway_loses :
  let s := State 1 "Reward" "RWD" 0 1000000000 0 5 10 1000000000
                 {[5 := 1000000000]} {[5 := 0]} {[5 := 0]} in
  (s1 ← _update_rewards (Env 5 19 1) s;
   s2 ← _update_rewards (Env 5 38 1) s1;
   mret (held (reward_balance s2) 5)) = Ok 10 /\
  (s2 ← _update_rewards (Env 5 38 1) s;
   mret (held (reward_balance s2) 5)) = Ok 15.
Proof. split; vm_compute; reflexivity. Qed.





End StakingMore.

(** ** The price oracle: who may update, how often, by how much *)

Section OracleMore.
Import PriceOracle.

(** What [_calculate_deviation] returns for a positive old price. *)
Lemma calculate_deviation_inv (old_price new_price d : N) :
  0 < old_price ->
  _calculate_deviation old_price new_price = Ok d ->
  d = ((old_price - new_price) + (new_price - old_price)) * 10000
      / old_price.
Proof.
  intros Hold H. unfold _calculate_deviation in H.
  destruct (old_price =? 0) eqn:H0; bool_facts; [lia|].
  destruct (new_price <? old_price) eqn:Hlt; bool_facts; run_inv H.
  - replace (new_price - old_price) with 0 by lia.
    rewrite N.add_0_r. reflexivity.
  - replace (old_price - new_price) with 0 by lia. reflexivity.
Qed.

(** What a successful [update_price] has checked and written. *)
Lemma update_price_inv (e : env) (p c : N) (s s' : state) :
  update_price e p c s = Ok s' ->
  is_paused s = 0 /\ circuit_breaker_active s = 0 /\ 0 < p /\ c <= 10000 /\
  (sender e = admin s \/ is_updater s !! sender e = Some 1) /\
  (0 < token_price s ->
   price_timestamp s + min_update_interval <= latest_timestamp e /\
   ((token_price s - p) + (p - token_price s)) * 10000
   < 1001 * token_price s) /\
  s' = State (admin s) (circuit_breaker_active s) (is_paused s)
             (updater_count s) p (latest_timestamp e) c (sender e)
             (threshold_price s) (threshold_active s) (threshold_setter s)
             (is_updater s).
Proof.
  unfold update_price. intros H.
  apply bind_Ok in H as (? & Hp & H). apply assert_Ok in Hp.
  apply bind_Ok in H as (? & Hb & H). apply assert_Ok in Hb.
  apply bind_Ok in H as (? & Hpos & H). apply assert_Ok in Hpos.
  apply bind_Ok in H as (? & Hc & H). apply assert_Ok in Hc.
  apply bind_Ok in H as (ok & Hauth & H).
  apply bind_Ok in H as (? & Hok & H). apply assert_Ok in Hok. subst ok.
  apply bind_Ok in H as (? & Hgate & H). ret_inv.
  bool_facts.
  repeat (split; [assumption|]).
  split.
  { unfold is_authorized in Hauth.
    destruct (sender e =? admin s) eqn:Ha; bool_facts; [auto|].
    apply bind_Ok in Hauth as (flag & Hflag & Hauth).
    apply local_get_Ok in Hflag.
    unfold mret, result_ret in Hauth. injection Hauth as Hone.
    apply N.eqb_eq in Hone as ->. auto. }
  split; [|reflexivity].
  intros Hold. apply N.ltb_lt in Hold as Hold'. rewrite Hold' in Hgate.
  apply bind_Ok in Hgate as (earliest & Hadd & Hgate).
  apply add64_Ok in Hadd as [-> Hfit].
  apply bind_Ok in Hgate as (? & Hlate & Hgate). apply assert_Ok in Hlate.
  apply bind_Ok in Hgate as (d & Hd & Hgate). apply assert_Ok in Hgate.
  bool_facts. split; [exact Hlate|].
  apply calculate_deviation_inv in Hd; [|exact Hold].
  unfold max_price_deviation in Hgate. subst d.
  destruct (floor_div_bounds
              (((token_price s - p) + (p - token_price s)) * 10000)
              (token_price s)) as [_ Hup]; [lia|]. nia.
Qed.

(** Every call but [initialize] and an accepted [update_price] leaves
    price and time stamp as they are. *)
Lemma step_keeps_price (e : env) (c : call) (s s' : state) :
  step e c s = Ok s' ->
  c <> Initialize -> (forall p conf, c <> UpdatePrice p conf) ->
  token_price s' = token_price s /\ price_timestamp s' = price_timestamp s.
Proof.
  intros H Hinit Hupd.
  destruct c as [|u|p conf|t| | | | |]; cbn in H;
    try contradiction.
  - unfold add_price_updater in H. run_inv H. ret_inv. cbn. auto.
  - exfalso. eapply Hupd. reflexivity.
  - unfold set_threshold in H. run_inv H. ret_inv. cbn. auto.
  - unfold remove_threshold in H. run_inv H. ret_inv. cbn. auto.
  - unfold activate_circuit_breaker in H. run_inv H. ret_inv. cbn. auto.
  - unfold reset_circuit_breaker in H. run_inv H. ret_inv. cbn. auto.
  - unfold pause_oracle in H. run_inv H. ret_inv. cbn. auto.
  - unfold unpause_oracle in H. run_inv H. ret_inv. cbn. auto.
Qed.

(** X16.  Once the oracle holds a price, and as long as [initialize] is
    not called again, accepted updates are at least
    [min_update_interval] seconds apart: through every history the price
    stays positive, the time stamp of the last accepted update has moved
    on by at least 300 seconds for each update the history had accepted,
    and the next update is accepted no earlier than 300 seconds after
    that time stamp, whoever sends it and whatever price it carries. *)
Theorem update_rate_limit (s : state) (history : list (env * call)) :
  0 < token_price s ->
  Forall (fun ec => ec.2 <> Initialize) history ->
  0 < token_price (play history s) /\
  price_timestamp s + min_update_interval * accepted_updates history s
  <= price_timestamp (play history s) /\
  (forall e p conf s',
      update_price e p conf (play history s) = Ok s' ->
      price_timestamp (play history s) + min_update_interval
      <= latest_timestamp e).
Proof.
  intros Hprice Hcalls.
  assert (0 < token_price (play history s) /\
          price_timestamp s + min_update_interval * accepted_updates history s
          <= price_timestamp (play history s)) as [Hpos Hspaced].
  { revert s Hprice.
    induction history as [|[e c] rest IH]; intros s Hprice.
    - cbn. split; [exact Hprice | lia].
    - apply Forall_cons in Hcalls as [Hc Hrest]. cbn in Hc.
      unfold play. cbn [fold_left accepted_updates].
      fold (play rest (commit (step e c s) s)).
      destruct (step e c s) as [s1|msg] eqn:Hstep; cbn [commit].
      + assert (0 < token_price s1 /\
                price_timestamp s
                + min_update_interval
                  * match c with UpdatePrice _ _ => 1 | _ => 0 end
                <= price_timestamp s1) as [Hprice1 Hstamp].
        { destruct c as [|u|p conf|t| | | | |];
            try (apply step_keeps_price in Hstep as [-> ->];
                 [split; [exact Hprice | lia] | discriminate
                 | discriminate]).
          - contradiction.
          - cbn in Hstep.
            apply update_price_inv in Hstep
              as (_ & _ & Hp & _ & _ & Hgate & ->).
            destruct (Hgate Hprice) as [Hlate _]. cbn.
            unfold min_update_interval in *.
            split; [exact Hp | lia]. }
        destruct (IH Hrest s1 Hprice1) as [Hpos Hle].
        split; [exact Hpos|].
        unfold min_update_interval in *.
        destruct c; cbn [snd] in *; rewrite ?Hstep; lia.
      + destruct (IH Hrest s Hprice) as [Hpos Hle].
        split; [exact Hpos|].
        unfold min_update_interval in *.
        destruct c; cbn [snd] in *; rewrite ?Hstep; lia. }
  split; [exact Hpos|]. split; [exact Hspaced|].
  intros e p conf s' Hupd.
  apply update_price_inv in Hupd as (_ & _ & _ & _ & _ & Hgate & _).
  destruct (Hgate Hpos) as [Hlate _]. exact Hlate.
Qed.

Lemma update_rate_limit_witness :
  let s := State 1 0 0 1 1000 5000 9000 1 0 0 0 {[1 := 1]} in
  let history := [(Env 1 5299 1, UpdatePrice 1050 9000);
                  (Env 1 5300 1, UpdatePrice 1050 9000);
                  (Env 1 5400 1, SetThreshold 1200);
                  (Env 1 5700 1, UpdatePrice 1100 9000)] in
  accepted_updates history s = 2 /\
  price_timestamp s + min_update_interval * accepted_updates history s
  <= price_timestamp (play history s).
Proof.
  intros s history. split; [vm_compute; reflexivity|].
  apply (update_rate_limit s history).
  - reflexivity.
  - repeat constructor; discriminate.
Defined.

(** A repeated [initialize] lifts the limit: it resets price and time
    stamp, and an update two seconds after the last one is accepted. *)
Lemma reinitialize_lifts_rate_limit :
  let s := State 1 0 0 1 1000 5000 9000 1 0 0 0 {[1 := 1]} in
  update_price (Env 1 5002 1) 4000 9000 s = Err "Update too frequent" /\
  exists s',
    (s1 ← initialize (Env 1 5001 1) s;
     update_price (Env 1 5002 1) 4000 9000 s1) = Ok s' /\
    token_price s' = 4000.
Proof.
  intros s. split; [vm_compute; reflexivity|].
  eexists. split; vm_compute; reflexivity.
Qed.

(** X17.  A price that replaces a positive stored price lies strictly
    between 89.99% and 110.01% of it: the deviation in basis points is
    floored before it is compared with [max_price_deviation].  The first
    price, replacing 0, is not bounded. *)
Theorem accepted_price_within_band (e : env) (p c : N) (s s' : state) :
  update_price e p c s = Ok s' ->
  0 < token_price s ->
  8999 * token_price s < 10000 * p /\
  10000 * p < 11001 * token_price s /\
  token_price s' = p.
Proof.
  intros H Hold.
  apply update_price_inv in H as (_ & _ & Hpos & _ & _ & Hgate & ->).
  destruct (Hgate Hold) as [_ Hdev]. cbn. lia.
Qed.

Lemma accepted_price_within_band_witness :
  let s := State 1 0 0 1 10000 5000 9000 1 0 0 0 {[1 := 1]} in
  8999 * token_price s < 10000 * 11000 /\
  10000 * 11000 < 11001 * token_price s /\
  token_price (commit (update_price (Env 1 5300 1) 11000 9000 s) s)
  = 11000.
Proof.
  intros s.
  apply (accepted_price_within_band (Env 1 5300 1) 11000 9000 s).
  - vm_compute. reflexivity.
  - reflexivity.
Defined.

(** The band is met at its upper end and closed one unit above. *)
Lemma price_band_edges :
  let s := State 1 0 0 1 10000 5000 9000 1 0 0 0 {[1 := 1]} in
  (exists s', update_price (Env 1 5300 1) 11000 9000 s = Ok s') /\
  update_price (Env 1 5300 1) 11001 9000 s
  = Err "Price deviation too large" /\
  (exists s', update_price (Env 1 5300 1) 1 0 (State 1 0 0 1 0 0 0 1 0 0 0
                                                 {[1 := 1]}) = Ok s').
Proof.
  intros s. split; [eexists; vm_compute; reflexivity|].
  split; [vm_compute; reflexivity|].
  eexists. vm_compute. reflexivity.
Qed.

(** Every call keeps the creator as admin and as the only registered
    updater. *)
Lemma step_keeps_creator_only
    (c : address) (e : env) (cl : call) (s s' : state) :
  creator_address e = c ->
  admin s = c ->
  (forall u, held (is_updater s) u <> 0 -> u = c) ->
  step e cl s = Ok s' ->
  admin s' = c /\ (forall u, held (is_updater s') u <> 0 -> u = c).
Proof.
  intros Hc Hadmin Hreg H.
  destruct cl as [|u|p conf|t| | | | |]; cbn in H.
  - unfold initialize in H. run_inv H. bool_facts. ret_inv. cbn.
    split; [congruence|].
    intros u Hu. destruct (N.eq_dec u (sender e)) as [-> | Hne].
    + congruence.
    + rewrite held_set_ne in Hu by congruence. auto.
  - unfold add_price_updater in H. run_inv H. ret_inv. cbn. auto.
  - apply update_price_inv in H as (_ & _ & _ & _ & _ & _ & ->). cbn. auto.
  - unfold set_threshold in H. run_inv H. ret_inv. cbn. auto.
  - unfold remove_threshold in H. run_inv H. ret_inv. cbn. auto.
  - unfold activate_circuit_breaker in H. run_inv H. ret_inv. cbn. auto.
  - unfold reset_circuit_breaker in H. run_inv H. ret_inv. cbn. auto.
  - unfold pause_oracle in H. run_inv H. ret_inv. cbn. auto.
  - unfold unpause_oracle in H. run_inv H. ret_inv. cbn. auto.
Qed.

Lemma play_keeps_creator_only
    (c : address) (history : list (env * call)) (s : state) :
  Forall (fun ec => creator_address ec.1 = c) history ->
  admin s = c ->
  (forall u, held (is_updater s) u <> 0 -> u = c) ->
  admin (play history s) = c /\
  (forall u, held (is_updater (play history s)) u <> 0 -> u = c).
Proof.
  intros Hall. revert s.
  induction Hall as [| [e cl] rest He _ IH]; intros s Hadmin Hreg.
  - cbn. auto.
  - cbn. cbn in He.
    destruct (step e cl s) as [s' | msg] eqn:Hstep; cbn.
    + destruct (step_keeps_creator_only c e cl s s' He Hadmin Hreg Hstep).
      apply IH; assumption.
    + apply IH; assumption.
Qed.

(** X18.  [add_price_updater] authorises nobody: on an oracle
    initialised while no account held an updater flag, whatever calls
    follow, [update_price] and [set_threshold] succeed for the creator
    alone. *)
Theorem only_creator_updates
    (e0 : env) (s s0 : state) (history : list (env * call))
    (e : env) (p conf t : N) (s' : state) :
  is_updater s = ∅ ->
  initialize e0 s = Ok s0 ->
  Forall (fun ec => creator_address ec.1 = creator_address e0) history ->
  sender e <> creator_address e0 ->
  update_price e p conf (play history s0) <> Ok s' /\
  set_threshold e t (play history s0) <> Ok s'.
Proof.
  intros Hfresh Hinit Hall Hother.
  unfold initialize in Hinit. run_inv Hinit. bool_facts. ret_inv.
  match goal with
  | |- context [play history ?st] => set (s0 := st)
  end.
  destruct (play_keeps_creator_only (creator_address e0) history s0 Hall)
    as [Hadmin Hreg].
  - cbn. congruence.
  - intros u Hu. cbn in Hu. rewrite Hfresh in Hu.
    destruct (N.eq_dec u (sender e0)) as [-> | Hne]; [congruence|].
    rewrite held_set_ne in Hu by congruence.
    unfold held in Hu. rewrite lookup_empty in Hu. cbn in Hu.
    congruence.
  - assert (Hno : ~ (sender e = admin (play history s0) \/
                     is_updater (play history s0) !! sender e = Some 1)).
    { intros [Ha | Hu]; [congruence|].
      apply Hother, Hreg. rewrite (held_Some _ _ _ Hu). discriminate. }
    split; intros H.
    + apply update_price_inv in H as (_ & _ & _ & _ & Hauth & _).
      exact (Hno Hauth).
    + unfold set_threshold in H.
      apply bind_Ok in H as (? & _ & H).
      apply bind_Ok in H as (ok & Hauth & H).
      apply bind_Ok in H as (? & Hok & _). apply assert_Ok in Hok.
      subst ok. apply Hno. unfold is_authorized in Hauth.
      destruct (sender e =? admin _) eqn:Ha; bool_facts; [auto|].
      apply bind_Ok in Hauth as (flag & Hflag & Hauth).
      apply local_get_Ok in Hflag.
      unfold mret, result_ret in Hauth. injection Hauth as Hone.
      apply N.eqb_eq in Hone as ->. auto.
Qed.

Lemma only_creator_updates_witness :
  let s0 := State 1 0 0 1 0 0 0 0 0 0 0 {[1 := 1]} in
  let s := play [(Env 1 10 1, AddPriceUpdater 2)] s0 in
  update_price (Env 2 9000 1) 1000 9000 s
  <> Ok (State 1 0 0 2 1000 9000 9000 2 0 0 0 {[1 := 1]}) /\
  set_threshold (Env 2 9000 1) 5 s
  <> Ok (State 1 0 0 2 1000 9000 9000 2 0 0 0 {[1 := 1]}).
Proof.
  intros s0 s.
  apply (only_creator_updates (Env 1 0 1)
           (State 1 0 0 0 0 0 0 0 0 0 0 ∅) s0
           [(Env 1 10 1, AddPriceUpdater 2)] (Env 2 9000 1)
           1000 9000 5).
  - reflexivity.
  - vm_compute. reflexivity.
  - repeat constructor.
  - discriminate.
Defined.

(** X19.  A threshold reported as reached is backed by a price the oracle
    serves: when [threshold_reached] returns 1, [get_price] at the same
    time returns the stored price, and that price is at least the active
    threshold. *)
Theorem reached_threshold_has_price (e : env) (s : state) :
  threshold_reached e s = Ok 1 ->
  get_price e s = Ok (token_price s) /\
  threshold_price s <= token_price s /\
  threshold_active s <> 0.
Proof.
  unfold threshold_reached. intros H.
  destruct (threshold_active s =? 0) eqn:Hact;
    [unfold mret, result_ret in H; discriminate|].
  destruct (token_price s =? 0) eqn:Hprice;
    [unfold mret, result_ret in H; discriminate|].
  apply bind_Ok in H as (stale & Hstale & H).
  destruct (stale =? 1) eqn:Hs;
    [unfold mret, result_ret in H; discriminate|].
  destruct (threshold_price s <=? token_price s) eqn:Hle;
    [|unfold mret, result_ret in H; discriminate].
  bool_facts. repeat split; [|assumption|assumption].
  unfold is_price_stale in Hstale.
  destruct (price_timestamp s =? 0) eqn:Hts;
    [unfold mret, result_ret in Hstale; congruence|].
  apply bind_Ok in Hstale as (expiry & Hadd & Hstale).
  destruct (expiry <? latest_timestamp e) eqn:Hexp;
    [unfold mret, result_ret in Hstale; congruence|].
  unfold get_price. rewrite assert_run by (apply N.ltb_lt; lia).
  rewrite Hadd. cbn. bool_facts.
  rewrite assert_run by (apply N.leb_le; exact Hexp). reflexivity.
Qed.

Lemma reached_threshold_has_price_witness :
  let s := State 1 0 0 1 250 1000 9000 1 200 1 1 {[1 := 1]} in
  get_price (Env 9 4600 1) s = Ok (token_price s) /\
  threshold_price s <= token_price s /\
  threshold_active s <> 0.
Proof.
  intros s.
  apply (reached_threshold_has_price (Env 9 4600 1) s).
  vm_compute. reflexivity.
Defined.

(** The converse fails for a price stamped at time 0, which
    [is_price_stale] takes for no price at all. *)
Lemma price_at_time_zero_never_reaches :
  let s := State 1 0 0 1 250 0 9000 1 200 1 1 {[1 := 1]} in
  get_price (Env 9 10 1) s = Ok 250 /\
  threshold_reached (Env 9 10 1) s = Ok 0.
Proof. split; vm_compute; reflexivity. Qed.

End OracleMore.

(** ** The auto-converter: quotes, eligibility, isolation *)

Section ConverterMore.
Import YTAutoConverter.

(** X20.  [calculate_conversion_output] is an upper estimate of what
    [execute_conversion] credits: whenever the conversion succeeds the
    quote for the converted balance exists, is the credited PT or one unit
    more, and quote plus fee stay within the YT given up.  The quote
    subtracts a floored slippage where the conversion floors the
    product. *)
Theorem quote_overstates_by_at_most_one
    (e : env) (user : address) (min_pt_amount deadline : N) (s s' : state) :
  execute_conversion e user min_pt_amount deadline s = Ok s' ->
  let u := sender e in
  let credited := held (pt_balance s') u - held (pt_balance s) u in
  exists quote fee,
    calculate_conversion_output (held (yt_balance s) u) s
    = Ok (quote, fee) /\
    credited <= quote /\ quote <= credited + 1 /\
    quote + fee <= held (yt_balance s) u.
Proof.
  intros H u credited.
  apply execute_conversion_inv in H
    as (_ & _ & _ & _ & _ & Hyt & _ & Hfit & Hle & Hfit' & _ & Hs').
  fold u in Hyt, Hfit, Hle, Hfit', Hs'.
  unfold fee_denominator in *.
  set (yt := held (yt_balance s) u) in *.
  set (fee := yt * conversion_fee s / 10000) in *.
  set (conv := yt - fee) in *.
  assert (Hcred : credited = conv * 9950 / 10000).
  { unfold credited. rewrite Hs'. unfold converted. cbn.
    rewrite held_set, N.add_comm, N.add_sub. reflexivity. }
  destruct (floor_div_bounds (conv * 9950) 10000) as [Hr1 Hr2]; [lia|].
  destruct (floor_div_bounds (conv * 50) 10000) as [Hf1 Hf2]; [lia|].
  exists (conv - conv * 50 / 10000), fee.
  split.
  - unfold calculate_conversion_output, fee_denominator.
    assert ((yt =? 0) = false) as -> by (apply N.eqb_neq; lia).
    rewrite mul64_run by exact Hfit.
    rewrite div64_run by discriminate. fold fee.
    rewrite sub64_run by exact Hle. fold conv.
    rewrite mul64_run by lia.
    rewrite div64_run by discriminate.
    rewrite sub64_run by lia. reflexivity.
  - rewrite Hcred. unfold conv in *. lia.
Qed.

Lemma quote_overstates_by_at_most_one_witness :
  let s := State 1 2 3 4 30 0 0 {[7 := 1]} {[7 := 105]} {[7 := 900]}
                 {[7 := 0]} {[7 := 1000]} {[7 := 0]} in
  let s' := commit (execute_conversion (Env 7 10 1) 7 0 20 s) s in
  exists quote fee,
    calculate_conversion_output (held (yt_balance s) 7) s
    = Ok (quote, fee) /\
    held (pt_balance s') 7 - held (pt_balance s) 7 <= quote /\
    quote <= held (pt_balance s') 7 - held (pt_balance s) 7 + 1 /\
    quote + fee <= held (yt_balance s) 7.
Proof.
  intros s s'.
  apply (quote_overstates_by_at_most_one (Env 7 10 1) 7 0 20 s s').
  vm_compute. reflexivity.
Defined.

(** On that position the quote is 993 and the conversion yields 992: a
    caller who passes the quote as [min_pt_amount] is turned away. *)
Lemma quote_as_minimum_aborts :
  let s := State 1 2 3 4 30 0 0 {[7 := 1]} {[7 := 105]} {[7 := 900]}
                 {[7 := 0]} {[7 := 1000]} {[7 := 0]} in
  calculate_conversion_output 1000 s = Ok (993, 3) /\
  execute_conversion (Env 7 10 1) 7 993 20 s
  = Err "Insufficient output amount" /\
  execute_conversion (Env 7 10 1) 7 992 20 s = Ok (converted 7 992 s).
Proof.
  intros s. split; [vm_compute; reflexivity|].
  split; vm_compute; reflexivity.
Qed.

(** X21.  [can_execute_conversion] is necessary for a conversion and
    switches off with it: when [execute_conversion] succeeds the check
    returned 1 on the state before and returns 0 on the state after. *)
Theorem conversion_needs_eligibility
    (e : env) (user user' : address) (min_pt_amount deadline : N)
    (s s' : state) :
  execute_conversion e user min_pt_amount deadline s = Ok s' ->
  can_execute_conversion e user' s = Ok 1 /\
  can_execute_conversion e user' s' = Ok 0.
Proof.
  intros H.
  apply execute_conversion_inv in H
    as (_ & Hen & Hex & Hth & Hyt & Hpos & _ & _ & _ & _ & _ & ->).
  apply held_positive in Hth as Hth'.
  unfold can_execute_conversion. split.
  - rewrite (local_get_run _ _ _ _ Hen). cbn.
    rewrite (local_get_run _ _ _ _ Hex). cbn.
    rewrite (local_get_run _ _ _ _ Hyt).
    assert ((held (yt_balance s) (sender e) =? 0) = false) as ->
      by (apply N.eqb_neq; lia).
    rewrite (local_get_run _ _ _ _ Hth').
    assert ((held (threshold_price s) (sender e) =? 0) = false) as ->
      by (apply N.eqb_neq; lia).
    reflexivity.
  - unfold converted. cbn.
    rewrite (local_get_run _ _ _ _ Hen). cbn.
    rewrite (local_get_run _ _ 1 _ (lookup_set _ _ _)). reflexivity.
Qed.

Lemma conversion_needs_eligibility_witness :
  let s := State 1 2 3 4 30 0 0 {[7 := 1]} {[7 := 105]} {[7 := 900]}
                 {[7 := 0]} {[7 := 1000]} {[7 := 0]} in
  can_execute_conversion (Env 7 10 1) 7 s = Ok 1 /\
  can_execute_conversion (Env 7 10 1) 7
    (commit (execute_conversion (Env 7 10 1) 7 0 20 s) s) = Ok 0.
Proof.
  intros s.
  apply (conversion_needs_eligibility (Env 7 10 1) 7 7 0 20 s).
  vm_compute. reflexivity.
Defined.

(** The check is not sufficient: it passes an enabled flag other than 1
    and does not look at the pause switch. *)
Lemma eligibility_is_not_sufficient :
  let flagged := State 1 2 3 4 30 0 0 {[7 := 2]} {[7 := 105]} {[7 := 900]}
                       {[7 := 0]} {[7 := 1000]} {[7 := 0]} in
  let paused := State 1 2 3 4 30 1 0 {[7 := 1]} {[7 := 105]} {[7 := 900]}
                      {[7 := 0]} {[7 := 1000]} {[7 := 0]} in
  can_execute_conversion (Env 7 10 1) 7 flagged = Ok 1 /\
  execute_conversion (Env 7 10 1) 7 0 20 flagged
  = Err "Conversion not enabled" /\
  can_execute_conversion (Env 7 10 1) 7 paused = Ok 1 /\
  execute_conversion (Env 7 10 1) 7 0 20 paused = Err "Converter is paused".
Proof.
  intros flagged paused.
  split; [vm_compute; reflexivity|].
  split; [vm_compute; reflexivity|].
  split; vm_compute; reflexivity.
Qed.

(** X22.  A call changes no account but its sender's: the configuration
    entries and the YT and PT balance entries of every other account are
    the same after it, absent ones staying absent.  This holds for
    [execute_conversion] whatever its [user] argument. *)
Theorem calls_touch_only_the_sender
    (e : env) (c : call) (s s' : state) (other : address) :
  step e c s = Ok s' ->
  other <> sender e ->
  yt_balance s' !! other = yt_balance s !! other /\
  pt_balance s' !! other = pt_balance s !! other /\
  conversion_enabled s' !! other = conversion_enabled s !! other /\
  threshold_price s' !! other = threshold_price s !! other /\
  user_maturity s' !! other = user_maturity s !! other /\
  conversion_executed s' !! other = conversion_executed s !! other.
Proof.
  intros H Hother. assert (Hne : sender e <> other) by congruence.
  destruct c as [o t a|en th m|amount|u m d|m| |f| | | |amount|o t a];
    cbn in H.
  - unfold initialize in H. run_inv H. ret_inv. cbn. auto 10.
  - apply configure_conversion_inv in H as [_ ->]. unfold configured. cbn.
    rewrite !lookup_set_ne by exact Hne. auto 10.
  - unfold deposit_yt_tokens in H. run_inv H. ret_inv. cbn.
    rewrite !lookup_set_ne by exact Hne. auto 10.
  - apply execute_conversion_inv in H
      as (_ & _ & _ & _ & _ & _ & _ & _ & _ & _ & _ & ->).
    unfold converted. cbn.
    rewrite !lookup_set_ne by exact Hne. auto 10.
  - unfold add_maturity in H. run_inv H. ret_inv. cbn.
    rewrite !lookup_set_ne by exact Hne. auto 10.
  - unfold remove_maturity in H. ret_inv. cbn.
    rewrite !lookup_set_ne by exact Hne. auto 10.
  - unfold set_conversion_fee in H. run_inv H. ret_inv. cbn. auto 10.
  - unfold pause_converter in H. run_inv H. ret_inv. cbn. auto 10.
  - unfold unpause_converter in H. run_inv H. ret_inv. cbn. auto 10.
  - unfold emergency_disable_conversion in H. ret_inv. cbn.
    rewrite !lookup_set_ne by exact Hne. auto 10.
  - unfold withdraw_pt_tokens in H. run_inv H. ret_inv. cbn.
    rewrite !lookup_set_ne by exact Hne. auto 10.
  - unfold update_addresses in H. run_inv H. ret_inv. cbn. auto 10.
Qed.

Lemma calls_touch_only_the_sender_witness :
  let s := State 1 2 3 4 30 0 0 {[7 := 1; 8 := 1]} {[7 := 105; 8 := 90]}
                 {[7 := 900; 8 := 900]} {[7 := 0; 8 := 0]}
                 {[7 := 1000; 8 := 400]} {[7 := 0; 8 := 0]} in
  let s' := commit (step (Env 7 10 1) (ExecuteConversion 8 0 20) s) s in
  yt_balance s' !! 8 = yt_balance s !! 8 /\
  pt_balance s' !! 8 = pt_balance s !! 8 /\
  conversion_enabled s' !! 8 = conversion_enabled s !! 8 /\
  threshold_price s' !! 8 = threshold_price s !! 8 /\
  user_maturity s' !! 8 = user_maturity s !! 8 /\
  conversion_executed s' !! 8 = conversion_executed s !! 8.
Proof.
  intros s s'.
  apply (calls_touch_only_the_sender (Env 7 10 1)
           (ExecuteConversion 8 0 20) s s' 8).
  - vm_compute. reflexivity.
  - discriminate.
Defined.

End ConverterMore.

(** ** The standardized wrapper: supply, quotes, exit *)

Section WrapperMore.
Import StandardizedWrapper.

(** The share of one token in a wrap, as [wrap_tokens] computes it. *)
Lemma wrap_leg_inv
    (amount ratio enabled acc : N) (dep : gmap address N) (u : address)
    (s1 s2 : state) (set_dep : address -> N -> state -> state) (w : N)
    (msg : string) :
  (if 0 <? amount then
     assert (enabled =? 1) msg;;
     scaled ← mul64 amount ratio;
     wrapped ← div64 scaled 10000;
     total ← add64 acc wrapped;
     deposited ← local_get dep u;
     d ← add64 deposited amount;
     mret (set_dep u d s1, total)
   else mret (s1, acc)) = Ok (s2, w) ->
  (amount = 0 /\ s2 = s1 /\ w = acc) \/
  (0 < amount /\ enabled = 1 /\ amount * ratio <= uint64_max /\
   acc + amount * ratio / 10000 <= uint64_max /\
   s2 = set_dep u (held dep u + amount) s1 /\
   w = acc + amount * ratio / 10000).
Proof.
  intros H. destruct (0 <? amount) eqn:Hpos; bool_facts.
  - right.
    apply bind_Ok in H as (? & Hen & H). apply assert_Ok in Hen.
    apply bind_Ok in H as (scaled & Hmul & H).
    apply mul64_Ok in Hmul as [-> Hfit].
    apply bind_Ok in H as (wrapped & Hdiv & H).
    apply div64_Ok in Hdiv as [-> _].
    apply bind_Ok in H as (total & Hadd & H).
    apply add64_Ok in Hadd as [-> Hfit'].
    apply bind_Ok in H as (deposited & Hdep & H).
    apply local_get_Ok, held_Some in Hdep as <-.
    apply bind_Ok in H as (d & Hadd & H).
    apply add64_Ok in Hadd as [-> _].
    unfold mret, result_ret in H. injection H as <- <-.
    bool_facts. auto 10.
  - left. unfold mret, result_ret in H. injection H as <- <-.
    split; [lia | auto].
Qed.

(** The same share, as [calculate_wrap_amount] computes it. *)
Lemma quote_leg_run (amount ratio enabled acc w : N) :
  (amount = 0 /\ w = acc) \/
  (0 < amount /\ enabled = 1 /\ amount * ratio <= uint64_max /\
   acc + amount * ratio / 10000 <= uint64_max /\
   w = acc + amount * ratio / 10000) ->
  (if (0 <? amount) && (enabled =? 1) then
     scaled ← mul64 amount ratio;
     wrapped ← div64 scaled 10000;
     add64 acc wrapped
   else mret acc) = Ok w.
Proof.
  intros [(-> & ->) | (Hpos & -> & Hfit & Hfit' & ->)].
  - reflexivity.
  - apply N.ltb_lt in Hpos as ->. cbn [andb N.eqb Pos.eqb].
    rewrite mul64_run by exact Hfit. rewrite div64_run by discriminate.
    unfold add64. apply N.leb_le in Hfit' as ->. reflexivity.
Qed.

(** What a successful [wrap_tokens] has computed and written. *)
Lemma wrap_tokens_inv (e : env) (amount0 amount1 : N) (s s' : state) (w : N) :
  wrap_tokens e amount0 amount1 s = Ok (s', w) ->
  is_paused s = 0 /\ 0 < w /\
  calculate_wrap_amount amount0 amount1 s = Ok w /\
  sy_balance s'
  = local_set (sy_balance s) (sender e)
      (held (sy_balance s) (sender e) + w) /\
  sy_balance s !! sender e = Some (held (sy_balance s) (sender e)) /\
  held (sy_balance s) (sender e) + w <= uint64_max /\
  total_supply s' = total_supply s + w /\
  token0_ratio s' = token0_ratio s /\ token1_ratio s' = token1_ratio s /\
  token0_enabled s' = token0_enabled s /\
  token1_enabled s' = token1_enabled s /\
  is_paused s' = 0.
Proof.
  unfold wrap_tokens. intros H.
  apply bind_Ok in H as (? & Hp & H). apply assert_Ok in Hp.
  apply bind_Ok in H as (? & Hsome & H). apply assert_Ok in Hsome.
  apply bind_Ok in H as ([s1 w0] & Hleg0 & H).
  apply bind_Ok in H as ([s2 w1] & Hleg1 & H).
  apply bind_Ok in H as (? & Hpos & H). apply assert_Ok in Hpos.
  apply bind_Ok in H as (current & Hcur & H).
  apply local_get_Ok in Hcur. pose proof (held_Some _ _ _ Hcur) as Hheld.
  apply bind_Ok in H as (bal & Hbal & H).
  apply add64_Ok in Hbal as [-> Hfitb].
  apply bind_Ok in H as (supply & Hsup & H).
  apply add64_Ok in Hsup as [-> _].
  unfold mret, result_ret in H. injection H as <- <-.
  rewrite <- Hheld in *. clear Hheld current.
  apply (wrap_leg_inv amount0 (token0_ratio s) (token0_enabled s) 0
           (token0_deposited s) (sender e) s s1
           set_token0_deposited _ "Token 0 not enabled") in Hleg0.
  apply (wrap_leg_inv amount1 (token1_ratio s1) (token1_enabled s1) w0
           (token1_deposited s1) (sender e) s1 s2
           set_token1_deposited _ "Token 1 not enabled") in Hleg1.
  bool_facts.
  assert (Hs1 : token1_ratio s1 = token1_ratio s /\
                token1_enabled s1 = token1_enabled s).
  { destruct Hleg0 as [(_ & -> & _) | (_ & _ & _ & _ & -> & _)]; auto. }
  destruct Hs1 as [Hr1 He1]. rewrite Hr1, He1 in Hleg1.
  assert (Hquote : calculate_wrap_amount amount0 amount1 s = Ok w1).
  { unfold calculate_wrap_amount.
    rewrite (quote_leg_run amount0 (token0_ratio s) (token0_enabled s) 0 w0).
    2:{ destruct Hleg0 as [(? & _ & ?) | (? & ? & ? & ? & _ & ?)]; auto 10. }
    rewrite ret_run_ok.
    rewrite (quote_leg_run amount1 (token1_ratio s) (token1_enabled s)
               w0 w1); [reflexivity|].
    destruct Hleg1 as [(? & _ & ?) | (? & ? & ? & ? & _ & ?)]; auto 10. }
  split; [exact Hp|]. split; [exact Hpos|]. split; [exact Hquote|].
  destruct Hleg0 as [(_ & -> & _) | (_ & _ & _ & _ & -> & _)];
    destruct Hleg1 as [(_ & -> & _) | (_ & _ & _ & _ & -> & _)];
    cbn in *; auto 12.
Qed.

(** What a successful [unwrap_tokens] has checked and written. *)
Lemma unwrap_tokens_inv
    (e : env) (amount : N) (s s' : state) (out : N * N) :
  unwrap_tokens e amount s = Ok (s', out) ->
  0 < amount /\ amount <= held (sy_balance s) (sender e) /\
  amount <= total_supply s /\
  sy_balance s !! sender e = Some (held (sy_balance s) (sender e)) /\
  sy_balance s'
  = local_set (sy_balance s) (sender e)
      (held (sy_balance s) (sender e) - amount) /\
  total_supply s' = total_supply s - amount.
Proof.
  unfold unwrap_tokens. intros H.
  apply bind_Ok in H as (? & Hp & H). apply assert_Ok in Hp.
  apply bind_Ok in H as (? & Hpos & H). apply assert_Ok in Hpos.
  apply bind_Ok in H as (current & Hcur & H).
  apply local_get_Ok in Hcur. pose proof (held_Some _ _ _ Hcur) as Hheld.
  rewrite <- Hheld in *. clear Hheld current.
  apply bind_Ok in H as (? & Hbal & H). apply assert_Ok in Hbal.
  apply bind_Ok in H as (o0 & _ & H).
  apply bind_Ok in H as (o1 & _ & H).
  apply bind_Ok in H as (bal & Hsub & H).
  apply sub64_Ok in Hsub as [-> _].
  apply bind_Ok in H as (supply & Hsub & H).
  apply sub64_Ok in Hsub as [-> Hcover].
  apply bind_Ok in H as (s2 & H2 & H).
  apply bind_Ok in H as (s3 & H3 & H).
  unfold mret, result_ret in H. injection H as <- <-.
  bool_facts. repeat (split; [assumption|]).
  assert (sy_balance s3 = sy_balance s2 /\ total_supply s3 = total_supply s2)
    as [-> ->].
  { destruct (0 <? o1); [|ret_inv; auto].
    apply bind_Ok in H3 as (cd & _ & H3).
    destruct (o1 <=? _); [|ret_inv; auto].
    apply bind_Ok in H3 as (d & _ & H3). ret_inv. auto. }
  destruct (0 <? o0); [|ret_inv; auto].
  apply bind_Ok in H2 as (cd & _ & H2).
  destruct (o0 <=? _); [|ret_inv; auto].
  apply bind_Ok in H2 as (d & _ & H2). ret_inv. auto.
Qed.

Lemma step_keeps_supply_accounted (e : env) (c : call) (s s' : state) :
  step e c s = Ok s' ->
  total_supply s = local_total (sy_balance s) ->
  total_supply s' = local_total (sy_balance s').
Proof.
  intros H Hacc.
  destruct c as [i r en|a0 a1|a|r| |]; cbn in H.
  - unfold configure_token in H.
    apply bind_Ok in H as (? & _ & H). apply bind_Ok in H as (? & _ & H).
    apply bind_Ok in H as (? & _ & H).
    destruct (i =? 0); ret_inv; exact Hacc.
  - apply bind_Ok in H as ([s1 w] & Hwrap & H). ret_inv.
    apply wrap_tokens_inv in Hwrap
      as (_ & _ & _ & -> & _ & _ & -> & _).
    pose proof (local_total_set (sy_balance s) (sender e)
                  (held (sy_balance s) (sender e) + w)). lia.
  - apply bind_Ok in H as ([s1 out] & Hun & H). ret_inv.
    apply unwrap_tokens_inv in Hun as (_ & Hle & _ & _ & -> & ->).
    pose proof (local_total_set (sy_balance s) (sender e)
                  (held (sy_balance s) (sender e) - a)).
    pose proof (held_le_total (sy_balance s) (sender e)). lia.
  - unfold set_yield_rate in H. run_inv H. ret_inv. exact Hacc.
  - unfold pause_wrapper in H. run_inv H. ret_inv. exact Hacc.
  - unfold unpause_wrapper in H. run_inv H. ret_inv. exact Hacc.
Qed.

Lemma play_keeps_supply_accounted (history : list (env * call)) (s : state) :
  total_supply s = local_total (sy_balance s) ->
  total_supply (play history s) = local_total (sy_balance (play history s)).
Proof.
  revert s. induction history as [| [e c] rest IH]; intros s Hacc.
  - exact Hacc.
  - cbn. destruct (step e c s) as [s' | msg] eqn:Hstep; cbn.
    + apply IH. eapply step_keeps_supply_accounted; eassumption.
    + apply IH. exact Hacc.
Qed.

(** X23.  Wraps, unwraps and admin calls keep the supply accounted:
    from a state whose [total_supply] is the sum of all SY balances,
    every history of such calls leads to a state where it is again. *)
Theorem sy_supply_stays_accounted
    (s0 : state) (history : list (env * call)) :
  total_supply s0 = local_total (sy_balance s0) ->
  total_supply (play history s0)
  = local_total (sy_balance (play history s0)).
Proof. apply play_keeps_supply_accounted. Qed.

Lemma sy_supply_stays_accounted_witness :
  let s0 := State 1 "SY" "SY" 500 0 0 5000 5000 1 1 {[5 := 0; 6 := 0]}
                  {[5 := 0; 6 := 0]} {[5 := 0; 6 := 0]} in
  let s := play [(Env 5 1 1, WrapTokens 1000 500);
                 (Env 6 2 1, WrapTokens 0 90);
                 (Env 5 3 1, UnwrapTokens 300)] s0 in
  total_supply s = 495 /\ total_supply s = local_total (sy_balance s).
Proof.
  intros s0 s. split; [vm_compute; reflexivity|].
  apply (sy_supply_stays_accounted s0).
  vm_compute. reflexivity.
Defined.

(** [initialize] resets the supply and leaves the balances: it accounts
    the supply where the SY balances sum to nothing, and a later call
    while SY is held breaks the accounting. *)
Lemma initialize_accounts_supply
    (e : env) (nm sym : string) (rate : N) (s s0 : state) :
  initialize e nm sym rate s = Ok s0 ->
  total_supply s0 = 0 /\ sy_balance s0 = sy_balance s.
Proof.
  intros H. unfold initialize in H. run_inv H. ret_inv. cbn. auto.
Qed.

(** X24.  [calculate_wrap_amount] quotes a wrap exactly: when
    [wrap_tokens] succeeds, the quote for the same amounts on the state
    before is the amount minted, and the sender's SY balance and the
    supply grow by it. *)
Theorem wrap_mints_the_quote
    (e : env) (amount0 amount1 : N) (s s' : state) (minted : N) :
  wrap_tokens e amount0 amount1 s = Ok (s', minted) ->
  calculate_wrap_amount amount0 amount1 s = Ok minted /\
  0 < minted /\
  held (sy_balance s') (sender e)
  = held (sy_balance s) (sender e) + minted /\
  total_supply s' = total_supply s + minted.
Proof.
  intros H.
  apply wrap_tokens_inv in H as (_ & Hpos & Hq & -> & _ & _ & -> & _).
  rewrite held_set. auto.
Qed.

Lemma wrap_mints_the_quote_witness :
  let s := State 1 "SY" "SY" 500 0 40 5000 2500 1 1 {[5 := 40]}
                 {[5 := 0]} {[5 := 0]} in
  let s' := (commit (wrap_tokens (Env 5 1 1) 1000 500 s) (s, 0)).1 in
  calculate_wrap_amount 1000 500 s = Ok 625 /\
  0 < 625 /\
  held (sy_balance s') 5 = held (sy_balance s) 5 + 625 /\
  total_supply s' = total_supply s + 625.
Proof.
  intros s s'.
  apply (wrap_mints_the_quote (Env 5 1 1) 1000 500 s s' 625).
  vm_compute. reflexivity.
Defined.

(** The quote does not promise the wrap: it skips a disabled token that
    [wrap_tokens] refuses. *)
Lemma wrap_quote_skips_disabled_token :
  let s := State 1 "SY" "SY" 500 0 0 5000 5000 1 0 {[5 := 0]}
                 {[5 := 0]} {[5 := 0]} in
  calculate_wrap_amount 1000 500 s = Ok 500 /\
  wrap_tokens (Env 5 1 1) 1000 500 s = Err "Token 1 not enabled".
Proof. split; vm_compute; reflexivity. Qed.

(** The deposit tracker of one token in an unwrap: it is lowered when it
    covers the amount and left alone when it does not. *)
Lemma settle_leg_run {A : Type}
    (o cd : N) (m : gmap address N) (u : address) (s1 : state)
    (f : N -> state) (k : state -> result A) :
  m !! u = Some cd ->
  (if 0 <? o then
     current ← local_get m u;
     if o <=? current then d ← sub64 current o; mret (f d) else mret s1
   else mret s1) ≫= k
  = k (if (0 <? o) && (o <=? cd) then f (cd - o) else s1).
Proof.
  intros Hcd. destruct (0 <? o); [|reflexivity].
  rewrite (local_get_run _ _ _ _ Hcd).
  destruct (o <=? cd) eqn:Hle; [|reflexivity].
  bool_facts. rewrite sub64_run by exact Hle. reflexivity.
Qed.

(** Without an SY balance entry the sender can neither wrap nor
    unwrap. *)
Lemma wrapper_needs_balance_entry (e : env) (a0 a1 amount : N) (s : state) :
  sy_balance s !! sender e = None ->
  (forall s' w, wrap_tokens e a0 a1 s <> Ok (s', w)) /\
  (forall s' out, unwrap_tokens e amount s <> Ok (s', out)).
Proof.
  intros Hnone. split.
  - intros s' w H. apply wrap_tokens_inv in H
      as (_ & _ & _ & _ & Hsome & _). congruence.
  - intros s' out H. apply unwrap_tokens_inv in H
      as (_ & _ & _ & Hsome & _). congruence.
Qed.

(** X25.  A holder can always unwrap while the wrapper is not paused:
    with the supply accounted, both ratios at most 10000 and the
    sender's two deposit entries present, [unwrap_tokens] of any positive
    amount within the sender's SY balance succeeds, takes exactly that
    amount from balance and supply, and returns per token the floor of
    amount times ratio over 10000. *)
Theorem holder_can_unwrap (e : env) (amount bal d0 d1 : N) (s : state) :
  is_paused s = 0 ->
  total_supply s = local_total (sy_balance s) ->
  token0_ratio s <= 10000 -> token1_ratio s <= 10000 ->
  sy_balance s !! sender e = Some bal ->
  token0_deposited s !! sender e = Some d0 ->
  token1_deposited s !! sender e = Some d1 ->
  0 < amount -> amount <= bal ->
  amount * 10000 <= uint64_max ->
  exists s',
    unwrap_tokens e amount s
    = Ok (s', (if token0_enabled s =? 1
               then amount * token0_ratio s / 10000 else 0,
               if token1_enabled s =? 1
               then amount * token1_ratio s / 10000 else 0)) /\
    sy_balance s' !! sender e = Some (bal - amount) /\
    total_supply s' = total_supply s - amount.
Proof.
  intros Hp Hacc Hr0 Hr1 Hsy Hd0 Hd1 Hpos Hbal Hfit.
  pose proof (held_le_total (sy_balance s) (sender e)) as Hcov.
  rewrite (held_Some _ _ _ Hsy) in Hcov.
  destruct (unwrap_tokens e amount s) as [[s' out] | msg] eqn:Hun.
  - apply unwrap_tokens_inv in Hun as Hinv.
    destruct Hinv as (_ & _ & _ & _ & Hbal' & Hts).
    exists s'. split.
    2:{ rewrite Hbal', lookup_set, (held_Some _ _ _ Hsy). auto. }
    f_equal. f_equal.
    unfold unwrap_tokens in Hun.
    apply bind_Ok in Hun as (? & _ & H). apply bind_Ok in H as (? & _ & H).
    apply bind_Ok in H as (? & _ & H). apply bind_Ok in H as (? & _ & H).
    apply bind_Ok in H as (o0 & H0 & H).
    apply bind_Ok in H as (o1 & H1 & H).
    apply bind_Ok in H as (? & _ & H). apply bind_Ok in H as (? & _ & H).
    apply bind_Ok in H as (? & _ & H). apply bind_Ok in H as (? & _ & H).
    unfold mret, result_ret in H. injection H as _ <-.
    f_equal.
    + destruct (token0_enabled s =? 1); [run_inv H0; reflexivity|].
      unfold mret, result_ret in H0. congruence.
    + destruct (token1_enabled s =? 1); [run_inv H1; reflexivity|].
      unfold mret, result_ret in H1. congruence.
  - exfalso. unfold unwrap_tokens in Hun.
    rewrite assert_run in Hun by (apply N.eqb_eq; exact Hp).
    rewrite assert_run in Hun by (apply N.ltb_lt; exact Hpos).
    rewrite (local_get_run _ _ _ _ Hsy) in Hun.
    rewrite assert_run in Hun by (apply N.leb_le; exact Hbal).
    assert (H0 : forall (en r : N) (k : N -> result (state * (N * N))),
               r <= 10000 ->
               (if en =? 1 then scaled ← mul64 amount r; div64 scaled 10000
                else mret 0) ≫= k
               = k (if en =? 1 then amount * r / 10000 else 0)).
    { intros en r k Hr. destruct (en =? 1); [|reflexivity].
      rewrite mul64_run by nia. rewrite div64_run by discriminate.
      reflexivity. }
    rewrite (H0 _ _ _ Hr0) in Hun. rewrite (H0 _ _ _ Hr1) in Hun.
    rewrite sub64_run in Hun by exact Hbal.
    rewrite sub64_run in Hun by lia.
    cbn zeta in Hun.
    rewrite (settle_leg_run _ d0) in Hun by exact Hd0.
    match type of Hun with
    | context [token1_deposited ?st] => set (s2 := st) in Hun
    end.
    assert (Hd1' : token1_deposited s2 !! sender e = Some d1).
    { unfold s2. destruct (_ && _); exact Hd1. }
    rewrite (settle_leg_run _ d1) in Hun by exact Hd1'.
    discriminate.
Qed.

Lemma holder_can_unwrap_witness :
  let s := State 1 "SY" "SY" 500 0 665 5000 2500 1 1 {[5 := 665]}
                 {[5 := 1000]} {[5 := 500]} in
  exists s',
    unwrap_tokens (Env 5 9 1) 100 s
    = Ok (s', (if token0_enabled s =? 1
               then 100 * token0_ratio s / 10000 else 0,
               if token1_enabled s =? 1
               then 100 * token1_ratio s / 10000 else 0)) /\
    sy_balance s' !! 5 = Some (665 - 100) /\
    total_supply s' = total_supply s - 100.
Proof.
  intros s.
  apply (holder_can_unwrap (Env 5 9 1) 100 665 1000 500 s).
  - reflexivity.
  - vm_compute. reflexivity.
  - vm_compute. discriminate.
  - vm_compute. discriminate.
  - reflexivity.
  - reflexivity.
  - reflexivity.
  - reflexivity.
  - vm_compute. discriminate.
  - vm_compute. discriminate.
Defined.

End WrapperMore.

(** ** The staking engine: what the views show *)

Section StakingViews.
Import StakingDapp.

(** [_update_rewards] leaves the global counters and every stake alone. *)
Lemma update_rewards_counters (e : env) (s s1 : state) :
  _update_rewards e s = Ok s1 ->
  total_staked s1 = total_staked s /\
  total_rewards_distributed s1 = total_rewards_distributed s /\
  staked_amount s1 = staked_amount s.
Proof.
  unfold _update_rewards. intros H.
  apply bind_Ok in H as (p & _ & H).
  apply bind_Ok in H as (s0 & Hsettle & H). ret_inv.
  destruct (0 <? p).
  - run_inv Hsettle. ret_inv. cbn. auto.
  - ret_inv. cbn. auto.
Qed.

(** X26.  The total that [get_user_info] shows is what the next call
    pays: [claim_rewards] moves exactly that total into
    [total_rewards_distributed], [compound_rewards] moves it into the
    sender's stake and [total_staked], and both leave the reward balance
    at 0. *)
Theorem rewards_shown_are_rewards_paid
    (e : env) (s : state) (staked settled total : N) :
  get_user_info e s = Ok (staked, settled, total) ->
  (forall s', claim_rewards e s = Ok s' ->
     total_rewards_distributed s' = total_rewards_distributed s + total /\
     held (reward_balance s') (sender e) = 0 /\
     held (staked_amount s') (sender e) = staked) /\
  (forall s', compound_rewards e s = Ok s' ->
     held (staked_amount s') (sender e) = staked + total /\
     total_staked s' = total_staked s + total /\
     held (reward_balance s') (sender e) = 0).
Proof.
  unfold get_user_info. intros H.
  apply bind_Ok in H as (p & Hp & H).
  apply bind_Ok in H as (r & Hr & H).
  apply local_get_Ok, held_Some in Hr.
  apply bind_Ok in H as (t & Hadd & H).
  apply add64_Ok in Hadd as [-> _].
  apply bind_Ok in H as (st & Hst & H).
  apply local_get_Ok, held_Some in Hst.
  apply bind_Ok in H as (r' & Hr' & H).
  apply local_get_Ok, held_Some in Hr'.
  unfold mret, result_ret in H. injection H as <- <- <-.
  split; intros s' Hcall.
  - unfold claim_rewards in Hcall.
    apply bind_Ok in Hcall as (? & _ & Hcall).
    apply bind_Ok in Hcall as (s1 & Hupd & Hcall).
    apply bind_Ok in Hcall as (cur & Hcur & Hcall).
    apply local_get_Ok, held_Some in Hcur.
    apply bind_Ok in Hcall as (? & _ & Hcall).
    apply bind_Ok in Hcall as (d & Hadd & Hcall).
    apply add64_Ok in Hadd as [-> _]. ret_inv. cbn.
    apply update_rewards_counters in Hupd as Hframe.
    destruct Hframe as (_ & Hdist & Hstaked).
    apply update_rewards_inv in Hupd as (p' & Hp' & Hbal & _).
    rewrite held_set, Hdist, Hstaked.
    assert (p' = p) as -> by congruence.
    split; [lia | auto].
  - unfold compound_rewards in Hcall.
    apply bind_Ok in Hcall as (? & _ & Hcall).
    apply bind_Ok in Hcall as (s1 & Hupd & Hcall).
    apply bind_Ok in Hcall as (cur & Hcur & Hcall).
    apply local_get_Ok, held_Some in Hcur.
    apply bind_Ok in Hcall as (? & _ & Hcall).
    apply bind_Ok in Hcall as (cst & Hcst & Hcall).
    apply local_get_Ok, held_Some in Hcst. cbn in Hcst.
    apply update_rewards_counters in Hupd as Hframe.
    destruct Hframe as (Htot & _ & Hstaked).
    rewrite Hstaked in Hcst.
    apply update_rewards_inv in Hupd as (p' & Hp' & Hbal & _).
    assert (p' = p) as -> by congruence.
    apply bind_Ok in Hcall as (st' & Hadd & Hcall).
    apply add64_Ok in Hadd as [Hst' _].
    apply bind_Ok in Hcall as (tot & Hadd & Hcall).
    apply add64_Ok in Hadd as [Htot' _]. cbn in Htot'.
    unfold mret, result_ret in Hcall. injection Hcall as <-. cbn.
    rewrite !held_set. repeat split; lia.
Qed.

Lemma rewards_shown_are_rewards_paid_witness :
  let s := State 1 "Reward" "RWD" 0 1000000000 40 5 10 1000000000
                 {[5 := 1000000000]} {[5 := 0]} {[5 := 7]} in
  total_rewards_distributed (commit (claim_rewards (Env 5 38 1) s) s)
  = total_rewards_distributed s + 22.
Proof.
  intros s.
  destruct (rewards_shown_are_rewards_paid (Env 5 38 1) s 1000000000 7 22)
    as [Hclaim _].
  - vm_compute. reflexivity.
  - destruct (Hclaim (commit (claim_rewards (Env 5 38 1) s) s))
      as [Hpaid _].
    + vm_compute. reflexivity.
    + exact Hpaid.
Defined.

End StakingViews.

(** ** The yield token: value of the remaining yield *)

Section YieldValue.
Import YTYield.

(** X27.  [calculate_yield_value] is worth nothing once [is_accruing_yield]
    is off; before maturity it never exceeds the base amount when the rate
    is at most 10000 basis points and maturity is at most a year away; and
    it does not grow as time passes. *)
Theorem yield_value_decays
    (e : env) (base_amount yield_rate : N) (s : YTToken.state) (v : N) :
  calculate_yield_value e base_amount yield_rate s = Ok v ->
  (is_accruing_yield e s = 0 -> v = 0) /\
  (yield_rate <= 10000 ->
   YTToken.maturity s <= latest_timestamp e + seconds_per_year ->
   v <= base_amount) /\
  (forall e' v',
     latest_timestamp e <= latest_timestamp e' ->
     calculate_yield_value e' base_amount yield_rate s = Ok v' ->
     v' <= v).
Proof.
  unfold calculate_yield_value, is_accruing_yield. intros H.
  destruct (YTToken.maturity s <=? latest_timestamp e) eqn:Hmat; bool_facts.
  - ret_inv. split; [auto|]. split; [lia|].
    intros e' v' Hlater H'.
    assert ((YTToken.maturity s <=? latest_timestamp e') = true) as Hm
      by (apply N.leb_le; lia).
    rewrite Hm in H'. unfold mret, result_ret in H'. injection H' as <-.
    lia.
  - apply bind_Ok in H as (remaining & Hsub & H).
    apply sub64_Ok in Hsub as [-> _].
    apply bind_Ok in H as (weighted & Hmul & H).
    apply mul64_Ok in Hmul as [-> _].
    apply bind_Ok in H as (numerator & Hmul & H).
    apply mul64_Ok in Hmul as [-> _].
    apply bind_Ok in H as (denominator & Hmul & H).
    apply mul64_Ok in Hmul as [-> _].
    apply div64_Ok in H as [-> _].
    split; [|split].
    + intros Hoff. apply N.ltb_lt in Hmat. rewrite Hmat in Hoff.
      discriminate.
    + intros Hrate Hyear. apply N.Div0.div_le_upper_bound.
      transitivity (base_amount * 10000 * seconds_per_year); [|lia].
      apply N.mul_le_mono; [apply N.mul_le_mono_l; exact Hrate | lia].
    + intros e' v' Hlater H'.
      destruct (YTToken.maturity s <=? latest_timestamp e') eqn:Hmat';
        bool_facts.
      * unfold mret, result_ret in H'. injection H' as <-.
        apply N.le_0_l.
      * apply bind_Ok in H' as (remaining & Hsub & H').
        apply sub64_Ok in Hsub as [-> _].
        apply bind_Ok in H' as (weighted & Hmul & H').
        apply mul64_Ok in Hmul as [-> _].
        apply bind_Ok in H' as (numerator & Hmul & H').
        apply mul64_Ok in Hmul as [-> _].
        apply bind_Ok in H' as (denominator & Hmul & H').
        apply mul64_Ok in Hmul as [-> _].
        apply div64_Ok in H' as [-> _].
        apply N.Div0.div_le_mono. apply N.mul_le_mono_l. lia.
Qed.

Lemma yield_value_decays_witness :
  let s := YTToken.State 1 "YT" "YT" 31536000 0 6 ∅ ∅ in
  calculate_yield_value (Env 5 0 1) 1000 500 s = Ok 50 /\
  calculate_yield_value (Env 5 15768000 1) 1000 500 s = Ok 25 /\
  25 <= 50.
Proof.
  intros s.
  split; [vm_compute; reflexivity|]. split; [vm_compute; reflexivity|].
  destruct (yield_value_decays (Env 5 0 1) 1000 500 s 50) as (_ & _ & Hmono).
  - vm_compute. reflexivity.
  - apply (Hmono (Env 5 15768000 1) 25); [vm_compute; discriminate|].
    vm_compute. reflexivity.
Defined.

End YieldValue.

